(** * NetBox: WebSocket framing, RESP decoding and the TCP send queue

    A shallow embedding of the protocol core of the NetBox server
    (WebSocketProtocol.cpp, PureRedisProtocol.cpp, TcpServer.cpp, and the
    framing and registry code of WebSocketServer.cpp and
    ApplicationRegistry.cpp) and the properties established about it.

    Conventions of the embedding
    - a [char]/[uint8_t] is a [Z] in [0, 256); [std::string] and
      [std::vector<char>] are [list Z] ([bytes]);
    - [size_t] positions into a buffer that exists in memory are [nat];
      where the source mixes [int64_t] and [size_t] the 64-bit wrap-around
      is written out on [Z];
    - callbacks ([rawFrameCallback_], [packetCallback_], [errorCallback_])
      are recorded as a trace of events, in call order; an unset callback
      records nothing, and a callback is taken not to call back into the
      instance;
    - one thread at a time, and every call is one the reactor thread or the
      application makes, with no lock held on entry: the mutexes of the
      sources are left out, except where a function destroys a mutex that
      its own caller holds locked, which [TcpServer] records as a fault;
      [checkHeartbeats], which runs with [m_mutex] held, and [sendHeartbeat],
      which it calls, are not embedded;
    - [Logger] calls have no effect on the modelled state and are omitted. *)

From Stdlib Require Import ZArith List Lia Bool.
From stdpp Require Import gmap strings sorting.
Import ListNotations.

(** ** Bytes and the [std::string] operations the sources use *)

Abbreviation bytes := (list Z).

Module Bytes.

Definition is_byte (b : Z) : Prop := (0 <= b < 256)%Z.

(** Narrowing conversion to an 8-bit [char]. *)
Definition to_char (z : Z) : Z := (z mod 256)%Z.

Fixpoint bytes_of_string (s : string) : bytes :=
  match s with
  | EmptyString => []
  | String c r => Z.of_N (Ascii.N_of_ascii c) :: bytes_of_string r
  end.

Definition CR : Z := 13%Z.
Definition LF : Z := 10%Z.
Definition CRLF : bytes := [CR; LF].

Fixpoint starts_with (needle s : bytes) : bool :=
  match needle, s with
  | [], _ => true
  | _ :: _, [] => false
  | n :: ns, c :: cs => (n =? c)%Z && starts_with ns cs
  end.

(** First occurrence of [needle] in [s]; [idx] is the position of the head
    of [s] in the whole string. *)
Fixpoint find_here (needle s : bytes) (idx : nat) : option nat :=
  match s with
  | [] => if starts_with needle [] then Some idx else None
  | _ :: t => if starts_with needle s then Some idx
              else find_here needle t (S idx)
  end.

(** [s.find(needle, from)]; [None] is [std::string::npos]. *)
Definition find (needle : bytes) (from : nat) (s : bytes) : option nat :=
  if from <=? length s then find_here needle (skipn from s) from else None.

(** [s.substr(pos, n)] for [pos <= s.size()]. *)
Definition substr (pos n : nat) (s : bytes) : bytes := firstn n (skipn pos s).

Definition mem (c : Z) (set : bytes) : bool := existsb (Z.eqb c) set.

(** [s.find_first_not_of(set)], as the number of leading characters of [s]
    that belong to [set]; [None] when every character does. *)
Fixpoint find_first_not_of (set s : bytes) (idx : nat) : option nat :=
  match s with
  | [] => None
  | c :: t => if mem c set then find_first_not_of set t (S idx) else Some idx
  end.

(** [s.find_last_not_of(set)]. *)
Definition find_last_not_of (set s : bytes) : option nat :=
  match find_first_not_of set (rev s) 0 with
  | None => None
  | Some k => Some (length s - 1 - k)
  end.

(** [std::to_string] of a non-negative integer. *)
Definition digit (d : nat) : Z := (48 + Z.of_nat d)%Z.

Fixpoint digits_fuel (fuel n : nat) (acc : bytes) : bytes :=
  match fuel with
  | O => acc
  | S f => if n <? 10 then digit n :: acc
           else digits_fuel f (n / 10) (digit (n mod 10) :: acc)
  end.

Definition to_string_nat (n : nat) : bytes := digits_fuel (S n) n [].

(** [std::to_string] of a signed integer. *)
Definition to_string (z : Z) : bytes :=
  if (z <? 0)%Z then 45%Z :: to_string_nat (Z.to_nat (- z))
  else to_string_nat (Z.to_nat z).

End Bytes.

Import Bytes.

(** ** SHA-1 (OpenSSL's [SHA1], after FIPS 180-4) *)

Module Sha1.

Definition w32 (z : Z) : Z := (z mod 2 ^ 32)%Z.

Definition rotl (n x : Z) : Z :=
  w32 (Z.lor (Z.shiftl x n) (Z.shiftr x (32 - n))).

(** Big-endian encoding of [z] on [n] bytes. *)
Fixpoint be_bytes (n : nat) (z : Z) : bytes :=
  match n with
  | O => []
  | S k => (Z.shiftr z (8 * Z.of_nat k) mod 256)%Z :: be_bytes k z
  end.

Definition be_word (bs : bytes) : Z :=
  fold_left (fun acc b => (acc * 256 + b)%Z) bs 0%Z.

(** Message padding: a 1 bit, zeros up to 56 mod 64, the bit length on 64 bits. *)
Definition pad (msg : bytes) : bytes :=
  let len := length msg in
  let zeros := (119 - len mod 64) mod 64 in
  msg ++ [128%Z] ++ repeat 0%Z zeros ++ be_bytes 8 (8 * Z.of_nat len).

Fixpoint words (n : nat) (bs : bytes) : list Z :=
  match n with
  | O => []
  | S k => be_word (firstn 4 bs) :: words k (skipn 4 bs)
  end.

(** Message schedule: [n] further words appended to [ws]. *)
Fixpoint schedule (n : nat) (ws : list Z) : list Z :=
  match n with
  | O => ws
  | S k =>
      let t := length ws in
      let w i := nth (t - i) ws 0%Z in
      schedule k (ws ++ [rotl 1 (Z.lxor (Z.lxor (w 3) (w 8)) (Z.lxor (w 14) (w 16)))])
  end.

Record hash_state := { ha : Z; hb : Z; hc : Z; hd : Z; he : Z }.

Definition round_fk (t : nat) (b c d : Z) : Z * Z :=
  if t <? 20 then
    (Z.lor (Z.land b c) (Z.land (Z.lxor b 4294967295) d), 1518500249%Z)
  else if t <? 40 then (Z.lxor (Z.lxor b c) d, 1859775393%Z)
  else if t <? 60 then
    (Z.lor (Z.lor (Z.land b c) (Z.land b d)) (Z.land c d), 2400959708%Z)
  else (Z.lxor (Z.lxor b c) d, 3395469782%Z).

Fixpoint rounds (t : nat) (ws : list Z) (s : hash_state) : hash_state :=
  match ws with
  | [] => s
  | w :: rest =>
      let '(f, k) := round_fk t (hb s) (hc s) (hd s) in
      let temp := w32 (rotl 5 (ha s) + f + he s + k + w) in
      rounds (S t) rest
        {| ha := temp; hb := ha s; hc := rotl 30 (hb s); hd := hc s; he := hd s |}
  end.

Definition compress (s : hash_state) (block : bytes) : hash_state :=
  let r := rounds 0 (schedule 64 (words 16 block)) s in
  {| ha := w32 (ha s + ha r); hb := w32 (hb s + hb r); hc := w32 (hc s + hc r);
     hd := w32 (hd s + hd r); he := w32 (he s + he r) |}.

Fixpoint blocks (n : nat) (bs : bytes) (s : hash_state) : hash_state :=
  match n with
  | O => s
  | S k => blocks k (skipn 64 bs) (compress s (firstn 64 bs))
  end.

Definition init : hash_state :=
  {| ha := 1732584193; hb := 4023233417; hc := 2562383102;
     hd := 271733878; he := 3285377520 |}.

(** The 20-byte digest. *)
Definition SHA1 (msg : bytes) : bytes :=
  let p := pad msg in
  let s := blocks (length p / 64) p init in
  be_bytes 4 (ha s) ++ be_bytes 4 (hb s) ++ be_bytes 4 (hc s)
    ++ be_bytes 4 (hd s) ++ be_bytes 4 (he s).

End Sha1.

(** ** Base64 *)

Module Base64.

Definition base64_chars : bytes :=
  bytes_of_string
    "ABCDEFGHIJKLMNOPQRSTUVWXYZabcdefghijklmnopqrstuvwxyz0123456789+/".

Definition sextet (i : Z) : Z := nth (Z.to_nat i) base64_chars 0%Z.

Definition pad_char : Z := 61%Z.

(** Modelled from the spec: [base64_encode] of base64.cpp, which is declared
    in base64.h but whose body is not among the sources; the spec names it
    as the Base64 of the accept token, so it is the standard alphabet with
    [=] padding (RFC 4648, section 4). *)
Fixpoint base64_encode (data : bytes) : bytes :=
  match data with
  | [] => []
  | [a] =>
      [sextet (Z.shiftr a 2); sextet (Z.shiftl (Z.land a 3) 4);
       pad_char; pad_char]
  | [a; b] =>
      [sextet (Z.shiftr a 2);
       sextet (Z.lor (Z.shiftl (Z.land a 3) 4) (Z.shiftr b 4));
       sextet (Z.shiftl (Z.land b 15) 2); pad_char]
  | a :: b :: c :: rest =>
      sextet (Z.shiftr a 2)
      :: sextet (Z.lor (Z.shiftl (Z.land a 3) 4) (Z.shiftr b 4))
      :: sextet (Z.lor (Z.shiftl (Z.land b 15) 2) (Z.shiftr c 6))
      :: sextet (Z.land c 63)
      :: base64_encode rest
  end.

End Base64.

(** ** WebSocketProtocol.cpp *)

Module WebSocketProtocol.

Definition WEBSOCKET_GUID : bytes :=
  bytes_of_string "258EAFA5-E914-47DA-95CA-C5AB0DC85B11".

Definition MAX_FRAME_SIZE : Z := (10 * 1024 * 1024)%Z.

(** [enum class FrameType]; a frame's opcode is any 4-bit value, so the
    enumerators are constants of [Z]. *)
Definition CONTINUATION : Z := 0%Z.
Definition TEXT : Z := 1%Z.
Definition BINARY : Z := 2%Z.
Definition CLOSE : Z := 8%Z.
Definition PING : Z := 9%Z.
Definition PONG : Z := 10%Z.

Inductive State := CONNECTING | OPEN | CLOSING | CLOSED.

Definition State_eqb (a b : State) : bool :=
  match a, b with
  | CONNECTING, CONNECTING | OPEN, OPEN | CLOSING, CLOSING | CLOSED, CLOSED => true
  | _, _ => false
  end.

Record FrameHeader := {
  fin : bool;
  rsv1 : bool; rsv2 : bool; rsv3 : bool;
  opcode : Z;
  masked : bool;
  payload_length : Z;
  masking_key : bytes
}.

(** What the instance hands to its callbacks. *)
Inductive Event :=
| RawFrame (frame : bytes)      (* rawFrameCallback_ *)
| Packet (payload : bytes)      (* packetCallback_ *)
| Error (message : bytes).      (* errorCallback_ *)

(** The instance: its two data members and which callbacks are set. *)
Record t := {
  state_ : State;
  buffer_ : bytes;
  rawFrameCallback_ : bool;
  packetCallback_ : bool;
  errorCallback_ : bool
}.

Definition setState (ws : t) (newState : State) : t :=
  {| state_ := newState; buffer_ := buffer_ ws;
     rawFrameCallback_ := rawFrameCallback_ ws;
     packetCallback_ := packetCallback_ ws;
     errorCallback_ := errorCallback_ ws |}.

Definition setBuffer (ws : t) (b : bytes) : t :=
  {| state_ := state_ ws; buffer_ := b;
     rawFrameCallback_ := rawFrameCallback_ ws;
     packetCallback_ := packetCallback_ ws;
     errorCallback_ := errorCallback_ ws |}.

(** [if (cb) cb(x)] *)
Definition call_raw (ws : t) (frame : bytes) : list Event :=
  if rawFrameCallback_ ws then [RawFrame frame] else [].
Definition call_packet (ws : t) (payload : bytes) : list Event :=
  if packetCallback_ ws then [Packet payload] else [].
Definition call_error (ws : t) (message : bytes) : list Event :=
  if errorCallback_ ws then [Error message] else [].

(** The constructor: [state_(State::CONNECTING)], empty buffer, no callbacks. *)
Definition create : t :=
  {| state_ := CONNECTING; buffer_ := [];
     rawFrameCallback_ := false; packetCallback_ := false;
     errorCallback_ := false |}.

(** *** UTF-8 check *)

Definition is_cont (b : Z) : bool := (Z.land b 192 =? 128)%Z.

(** [isValidUtf8]: the loop on the index [i] is the recursion on the rest of
    the string from [i]; [i + k >= len] is the rest being shorter than
    [k + 1]. *)
Fixpoint isValidUtf8 (s : bytes) : bool :=
  match s with
  | [] => true
  | c :: r1 =>
      if (c <? 128)%Z then isValidUtf8 r1
      else if (Z.land c 224 =? 192)%Z then
        match r1 with
        | c1 :: r2 => if negb (is_cont c1) then false else isValidUtf8 r2
        | _ => false
        end
      else if (Z.land c 240 =? 224)%Z then
        match r1 with
        | c1 :: c2 :: r3 =>
            if negb (is_cont c1) || negb (is_cont c2) then false
            else isValidUtf8 r3
        | _ => false
        end
      else if (Z.land c 248 =? 240)%Z then
        match r1 with
        | c1 :: c2 :: c3 :: r4 =>
            if negb (is_cont c1) || negb (is_cont c2) || negb (is_cont c3)
            then false else isValidUtf8 r4
        | _ => false
        end
      else false
  end.

(** *** Integers on the wire *)

Definition readUint16 (data : bytes) : Z :=
  (Z.lor (Z.shiftl (nth 0 data 0) 8) (nth 1 data 0) mod 2 ^ 16)%Z.

Definition readUint64 (data : bytes) : Z :=
  fold_left (fun value b => (Z.lor (Z.shiftl value 8) b mod 2 ^ 64)%Z)
            (firstn 8 data) 0%Z.

Definition writeUint16 (buffer : bytes) (value : Z) : bytes :=
  buffer ++ [Z.land (Z.shiftr value 8) 255; Z.land value 255].

Definition writeUint64 (buffer : bytes) (value : Z) : bytes :=
  buffer ++ map (fun i => Z.land (Z.shiftr value (Z.of_nat i * 8)) 255)
                [7; 6; 5; 4; 3; 2; 1; 0].

(** *** Masking *)

Fixpoint unmask_from (i : nat) (payload key : bytes) : bytes :=
  match payload with
  | [] => []
  | p :: rest =>
      to_char (Z.lxor p (nth (i mod 4) key 0%Z)) :: unmask_from (S i) rest key
  end.

(** [unmaskPayload(payload, length, maskingKey)] *)
Definition unmaskPayload (payload : bytes) (length : nat) (maskingKey : bytes)
  : bytes :=
  unmask_from 0 (firstn length payload) maskingKey.

(** *** Outbound frames *)

Definition createFrame (opcode : Z) (payload : bytes) (fin : bool) : bytes :=
  let byte1 := Z.lor (if fin then 128 else 0) opcode in
  let payloadLength := Z.of_nat (length payload) in
  let head :=
    if (payloadLength <? 126)%Z then [to_char byte1; to_char payloadLength]
    else if (payloadLength <=? 65535)%Z then
      writeUint16 [to_char byte1; 126%Z] (payloadLength mod 2 ^ 16)
    else writeUint64 [to_char byte1; 127%Z] (payloadLength mod 2 ^ 64) in
  head ++ payload.

Definition packMessage (message : bytes) (type : Z) : bytes :=
  createFrame type message true.

Definition packPong (data : bytes) : bytes := packMessage data PONG.

Definition packClose (code : Z) (reason : bytes) : bytes :=
  createFrame CLOSE (writeUint16 [] code ++ reason) true.

(** *** Handshake *)

Definition calculateHandshakeKey (clientKey : bytes) : bytes :=
  let concatenated := clientKey ++ WEBSOCKET_GUID in
  Base64.base64_encode (Sha1.SHA1 concatenated).

Definition generateHandshakeResponse (clientKey : bytes) : bytes :=
  let acceptKey := calculateHandshakeKey clientKey in
  bytes_of_string "HTTP/1.1 101 Switching Protocols" ++ CRLF
  ++ bytes_of_string "Upgrade: websocket" ++ CRLF
  ++ bytes_of_string "Connection: Upgrade" ++ CRLF
  ++ bytes_of_string "Sec-WebSocket-Accept: " ++ acceptKey ++ CRLF
  ++ CRLF.

Definition is_npos (r : option nat) : bool :=
  match r with None => true | Some _ => false end.

Fixpoint skip_spaces (fuel keyPos : nat) (data : bytes) : nat :=
  match fuel with
  | O => keyPos
  | S f =>
      if (keyPos <? length data) && (nth keyPos data 0 =? 32)%Z
      then skip_spaces f (S keyPos) data else keyPos
  end.

Definition whitespace : bytes := [32; 9; 13; 10]%Z.

(** The two [erase] calls that trim the key. [erase(0, npos)] and
    [erase(npos + 1)] both empty the string. *)
Definition trim (clientKey : bytes) : bytes :=
  let k1 :=
    match find_first_not_of whitespace clientKey 0 with
    | Some n => skipn n clientKey
    | None => []
    end in
  match find_last_not_of whitespace k1 with
  | Some n => firstn (n + 1) k1
  | None => []
  end.

(** The key the handshake extracts once the header was found at [keyPos]. *)
Definition clientKey_at (data : bytes) (keyPos0 : nat) : bytes :=
  let keyPos := skip_spaces (length data) (keyPos0 + 18) data in
  let keyEnd :=
    match find CRLF keyPos data with
    | Some e => e
    | None =>
        match find [LF] keyPos data with
        | Some e => e
        | None => length data
        end
    end in
  trim (substr keyPos (keyEnd - keyPos) data).

Definition find_key_header (data : bytes) : option nat :=
  match find (bytes_of_string "Sec-WebSocket-Key:") 0 data with
  | Some p => Some p
  | None => find (bytes_of_string "sec-websocket-key:") 0 data
  end.

Definition handleHandshake (ws : t) (data : bytes) : bool * list Event :=
  if negb (match find (bytes_of_string "GET ") 0 data with
           | Some 0 => true | _ => false end)
  then (false, [])
  else if is_npos (find (bytes_of_string "Upgrade:") 0 data)
          && is_npos (find (bytes_of_string "upgrade:") 0 data)
  then (false, [])
  else if is_npos (find (bytes_of_string "websocket") 0 data)
          && is_npos (find (bytes_of_string "WebSocket") 0 data)
  then (false, [])
  else
    match find_key_header data with
    | None => (false, [])
    | Some keyPos =>
        let clientKey := clientKey_at data keyPos in
        let response := generateHandshakeResponse clientKey in
        if rawFrameCallback_ ws then (true, [RawFrame response])
        else (false, [])
    end.

(** *** Inbound frames *)

(** [parseFrameHeader]: the header and its size, or [None] for the [false]
    return; the events are the error callback of the size limit. *)
Definition parseFrameHeader (ws : t) (data : bytes)
  : option (FrameHeader * nat) * list Event :=
  match data with
  | byte1 :: byte2 :: _ =>
      let is_masked := negb (Z.land byte2 128 =? 0)%Z in
      let len7 := Z.land byte2 127 in
      let ext :=
        if (len7 =? 126)%Z then
          if length data <? 2 + 2 then None
          else Some (readUint16 (skipn 2 data), 2 + 2)
        else if (len7 =? 127)%Z then
          if length data <? 2 + 8 then None
          else Some (readUint64 (skipn 2 data), 2 + 8)
        else Some (len7, 2) in
      match ext with
      | None => (None, [])
      | Some (plen, pos) =>
          let key :=
            if is_masked then
              if length data <? pos + 4 then None
              else Some (substr pos 4 data, pos + 4)
            else Some ([0; 0; 0; 0]%Z, pos) in
          match key with
          | None => (None, [])
          | Some (mkey, pos') =>
              if (plen >? MAX_FRAME_SIZE)%Z
              then (None, call_error ws (bytes_of_string "Frame too large"))
              else
                (Some ({| fin := negb (Z.land byte1 128 =? 0)%Z;
                          rsv1 := negb (Z.land byte1 64 =? 0)%Z;
                          rsv2 := negb (Z.land byte1 32 =? 0)%Z;
                          rsv3 := negb (Z.land byte1 16 =? 0)%Z;
                          opcode := Z.land byte1 15;
                          masked := is_masked;
                          payload_length := plen;
                          masking_key := mkey |}, pos'), [])
          end
      end
  | _ => (None, [])
  end.

(** The result of [parseFrame]: the returned [bool], [bytesConsumed], the
    instance afterwards and the callbacks made. *)
Definition frame_result : Type := bool * nat * t * list Event.

(** The [switch] of [parseFrame] on a complete frame. *)
Definition dispatchFrame (ws : t) (op : Z) (payloadData : bytes)
    (totalFrameSize : nat) : frame_result :=
  if (op =? TEXT)%Z then
    if negb (isValidUtf8 payloadData) then
      if State_eqb (state_ ws) CLOSED then (false, totalFrameSize, ws, [])
      else
        let closeFrame :=
          packClose 1007 (bytes_of_string "Invalid UTF-8 in TEXT frame") in
        (false, totalFrameSize, setState ws CLOSED,
         call_raw ws closeFrame
         ++ call_error ws
              (bytes_of_string "Invalid UTF-8 in TEXT frame (opcode: TEXT)"))
    else (true, totalFrameSize, ws, call_packet ws payloadData)
  else if (op =? BINARY)%Z then
    (true, totalFrameSize, ws, call_packet ws payloadData)
  else if (op =? PING)%Z then
    (true, totalFrameSize, ws, call_raw ws (packPong payloadData))
  else if (op =? PONG)%Z then (true, totalFrameSize, ws, [])
  else if (op =? CLOSE)%Z then
    (false, totalFrameSize, setState ws CLOSED, [])
  else
    (false, totalFrameSize, setState ws CLOSED,
     call_error ws (bytes_of_string "Unknown frame type: " ++ to_string op)
     ++ call_raw ws (packClose 1003 (bytes_of_string "Unknown frame type"))).

Definition parseFrame (ws : t) (data : bytes) : frame_result :=
  if length data <? 2 then (false, 0, ws, [])
  else
    let byte1 := nth 0 data 0%Z in
    let opcode := Z.land byte1 15 in
    if (opcode >? 10)%Z then (false, 0, ws, [])
    else
      match parseFrameHeader ws data with
      | (None, ev) => (false, 0, ws, ev)
      | (Some (header, headerSize), ev) =>
          let totalFrameSize := headerSize + Z.to_nat (payload_length header) in
          if length data <? totalFrameSize then (false, 0, ws, ev)
          else
            let payload := skipn headerSize data in
            let plen := Z.to_nat (payload_length header) in
            let payloadData :=
              if masked header
              then unmaskPayload payload plen (masking_key header)
              else firstn plen payload in
            let '(ok, consumed, ws', ev') :=
              dispatchFrame ws (WebSocketProtocol.opcode header) payloadData
                            totalFrameSize in
            (ok, consumed, ws', ev ++ ev')
      end.

(** [buffer_.erase(begin, begin + totalConsumed)], guarded as in the source. *)
Definition erase_consumed (ws : t) (totalConsumed : nat) : t :=
  if 0 <? totalConsumed then setBuffer ws (skipn totalConsumed (buffer_ ws))
  else ws.

(** The [while (totalConsumed < buffer_.size())] loop of [onDataReceived];
    [len] is the length of the chunk just received. Every turn that goes on
    consumes a whole frame, so [fuel] = the buffer size is enough. *)
Fixpoint frameLoop (fuel : nat) (ws : t) (len totalConsumed : nat)
    (events : list Event) : nat * t * list Event :=
  match fuel with
  | O => (totalConsumed, erase_consumed ws totalConsumed, events)
  | S f =>
      if totalConsumed <? length (buffer_ ws) then
        let '(ok, bytesConsumed, ws', ev) :=
          parseFrame ws (skipn totalConsumed (buffer_ ws)) in
        if negb ok then
          let totalConsumed' :=
            if 0 <? bytesConsumed then totalConsumed + bytesConsumed
            else totalConsumed in
          ((if 0 <? totalConsumed' then totalConsumed' else len),
           erase_consumed ws' totalConsumed', events ++ ev)
        else frameLoop f ws' len (totalConsumed + bytesConsumed) (events ++ ev)
      else (totalConsumed, erase_consumed ws totalConsumed, events)
  end.

(** [onDataReceived(data, length)]: the returned count, the instance
    afterwards and the callbacks made. *)
Definition onDataReceived (ws : t) (data : bytes) : nat * t * list Event :=
  match state_ ws with
  | CONNECTING =>
      match handleHandshake ws data with
      | (true, ev) => (length data, setBuffer (setState ws OPEN) [], ev)
      | (false, ev) =>
          (length data, setState ws CLOSED,
           ev ++ call_error ws
                   (bytes_of_string "Handshake failed (incomplete or invalid)"))
      end
  | OPEN | CLOSING =>
      let ws1 := setBuffer ws (buffer_ ws ++ data) in
      frameLoop (length (buffer_ ws1)) ws1 (length data) 0 []
  | CLOSED => (length data, ws, [])
  end.

(** *** The other packing entry points *)

(** [packTextMessage(text, out)]: the returned [bool] and [out] afterwards. *)
Definition packTextMessage (text : bytes) (out : bytes) : bool * bytes :=
  if negb (isValidUtf8 text) then (false, out)
  else (true, out ++ packMessage text TEXT).

(** [pack(data, len, out)] packs a text message. *)
Definition pack (data : bytes) (out : bytes) : bool * bytes :=
  packTextMessage data out.

Definition packBinaryMessage (data : bytes) (out : bytes) : bool * bytes :=
  (true, out ++ packMessage data BINARY).

Definition packPing (data : bytes) : bytes := packMessage data PING.

(** [reset()] *)
Definition reset (ws : t) : t := setBuffer (setState ws CONNECTING) [].

End WebSocketProtocol.

(** ** PureRedisProtocol.cpp *)

Module PureRedisProtocol.

(** *** [std::stoll] *)

Inductive exception :=
| invalid_argument     (* std::stoll: no conversion could be performed *)
| out_of_range.        (* std::stoll: the value does not fit an int64_t *)

Inductive stoll_result := Value (v : Z) | Throws (e : exception).

Definition isspace (c : Z) : bool := mem c [32; 9; 10; 11; 12; 13]%Z.
Definition isdigit (c : Z) : bool := (48 <=? c)%Z && (c <=? 57)%Z.

Fixpoint skip_space (s : bytes) : bytes :=
  match s with
  | c :: r => if isspace c then skip_space r else s
  | [] => []
  end.

(** The value of the leading decimal digits of [s]; [None] without a digit. *)
Fixpoint read_digits (s : bytes) (acc : option Z) : option Z :=
  match s with
  | c :: r =>
      if isdigit c
      then read_digits r (Some (default 0 acc * 10 + (c - 48)))%Z
      else acc
  | [] => acc
  end.

Definition INT64_MIN : Z := (- 2 ^ 63)%Z.
Definition INT64_MAX : Z := (2 ^ 63 - 1)%Z.

(** [std::stoll(s)]: optional white space, an optional sign, decimal digits;
    whatever follows the digits is ignored. *)
Definition stoll (s : bytes) : stoll_result :=
  let s1 := skip_space s in
  let '(negative, s2) :=
    match s1 with
    | c :: r =>
        if (c =? 45)%Z then (true, r)
        else if (c =? 43)%Z then (false, r)
        else (false, s1)
    | [] => (false, s1)
    end in
  match read_digits s2 None with
  | None => Throws invalid_argument
  | Some v =>
      let v' := if negative then (- v)%Z else v in
      if (INT64_MIN <=? v')%Z && (v' <=? INT64_MAX)%Z then Value v'
      else Throws out_of_range
  end.

(** *** RESP decoding *)

(** What a call of [resp_decode] does: return [{true, out}] with [consumed],
    return [{false, {}}] (with [consumed] = 0), or leave by an exception. *)
Inductive decode_result :=
| Decoded (out : list bytes) (consumed : nat)
| NotDecoded
| Raised (e : exception).

Definition SIZE_MOD : Z := (2 ^ 64)%Z.

(** The [for (int64_t i = 0; i < count; ++i)] loop, [n] turns left. The
    sum [pos + len + 2] is taken on [size_t], and [substr(pos, len)] gets
    [len] converted to [size_t] and keeps at most the rest of the string
    ([rlen = min(len, size() - pos)]). *)
Fixpoint decode_bulks (n : nat) (buf : bytes) (pos : nat) (out : list bytes)
  : decode_result :=
  match n with
  | O => Decoded out pos
  | S n' =>
      if length buf <=? pos + 1 then NotDecoded
      else if negb (nth pos buf 0 =? 36)%Z then NotDecoded
      else
        match find CRLF (pos + 1) buf with
        | None => NotDecoded
        | Some le =>
            match stoll (substr (pos + 1) (le - pos - 1) buf) with
            | Throws e => Raised e
            | Value len =>
                let pos1 := le + 2 in
                let past := ((Z.of_nat pos1 + len + 2) mod SIZE_MOD)%Z in
                if (past >? Z.of_nat (length buf))%Z then NotDecoded
                else
                  let rlen :=
                    Z.min (len mod SIZE_MOD) (Z.of_nat (length buf - pos1)) in
                  let item := substr pos1 (Z.to_nat rlen) buf in
                  decode_bulks n' buf (Z.to_nat past) (out ++ [item])
            end
        end
  end.

Definition resp_decode (buf : bytes) : decode_result :=
  match buf with
  | [] => NotDecoded
  | c :: _ =>
      if negb (c =? 42)%Z then NotDecoded
      else
        match find CRLF 1 buf with
        | None => NotDecoded
        | Some le =>
            match stoll (substr 1 (le - 1) buf) with
            | Throws e => Raised e
            | Value count => decode_bulks (Z.to_nat count) buf (le + 2) []
            end
        end
  end.

(** *** RESP formatting *)

Definition formatSimpleString (str : bytes) : bytes := [43%Z] ++ str ++ CRLF.
Definition formatError (error : bytes) : bytes := [45%Z] ++ error ++ CRLF.
Definition formatInteger (value : Z) : bytes :=
  [58%Z] ++ to_string value ++ CRLF.
Definition formatBulkString (str : bytes) : bytes :=
  [36%Z] ++ to_string_nat (length str) ++ CRLF ++ str ++ CRLF.
Definition formatArray (array : list bytes) : bytes :=
  [42%Z] ++ to_string_nat (length array) ++ CRLF
  ++ concat (map formatBulkString array).
Definition formatNull : bytes := bytes_of_string "$-1" ++ CRLF.

(** *** Commands *)

(** The instance: the per-client receive buffers and the string store. *)
Record t := {
  m_clientBuffers : gmap Z bytes;
  m_stringData : gmap bytes bytes
}.

Definition setStringData (p : t) (m : gmap bytes bytes) : t :=
  {| m_clientBuffers := m_clientBuffers p; m_stringData := m |}.

Definition setClientBuffer (p : t) (fd : Z) (b : bytes) : t :=
  {| m_clientBuffers := <[fd := b]> (m_clientBuffers p);
     m_stringData := m_stringData p |}.

(** [::toupper] in the C locale. *)
Definition toupper (c : Z) : Z :=
  if (97 <=? c)%Z && (c <=? 122)%Z then (c - 32)%Z else c.

Definition bytes_eqb (a b : bytes) : bool := bool_decide (a = b).

(** [m_stringData.erase(key)] for each argument after the first, counting. *)
Fixpoint erase_all (keys : list bytes) (m : gmap bytes bytes) (deleted : Z)
  : gmap bytes bytes * Z :=
  match keys with
  | [] => (m, deleted)
  | k :: rest =>
      match m !! k with
      | Some _ => erase_all rest (delete k m) (deleted + 1)%Z
      | None => erase_all rest m deleted
      end
  end.

(** [executeRedisCommand(args)] for a non-empty [args]: the reply and the
    instance afterwards. [KEYS] lists the store in its iteration order. *)
Definition executeRedisCommand (p : t) (args : list bytes) : bytes * t :=
  let cmd := map toupper (nth 0 args []) in
  if bytes_eqb cmd (bytes_of_string "COMMAND") then (formatArray [], p)
  else if bytes_eqb cmd (bytes_of_string "PING") then
    if length args =? 1 then (formatSimpleString (bytes_of_string "PONG"), p)
    else if length args =? 2 then (formatBulkString (nth 1 args []), p)
    else (formatError
            (bytes_of_string "ERR wrong number of arguments for 'ping' command"),
          p)
  else if bytes_eqb cmd (bytes_of_string "SET") && (length args =? 3) then
    (formatSimpleString (bytes_of_string "OK"),
     setStringData p (<[nth 1 args [] := nth 2 args []]> (m_stringData p)))
  else if bytes_eqb cmd (bytes_of_string "GET") && (length args =? 2) then
    match m_stringData p !! nth 1 args [] with
    | None => (formatNull, p)
    | Some v => (formatBulkString v, p)
    end
  else if bytes_eqb cmd (bytes_of_string "DEL") && (2 <=? length args) then
    let '(m, deleted) := erase_all (skipn 1 args) (m_stringData p) 0 in
    (formatInteger deleted, setStringData p m)
  else if bytes_eqb cmd (bytes_of_string "KEYS") && (length args =? 2) then
    (formatArray (map fst (map_to_list (m_stringData p))), p)
  else
    (formatError (bytes_of_string "ERR unknown command '" ++ cmd
                  ++ bytes_of_string "'"), p).

(** *** Receiving *)

Definition MAGIC_LEN : nat := 4.

(** [filterHeartbeat]: strips leading [FA FB FC FD] groups ([ntohl] of the
    first four bytes equal to [HEARTBEAT_MAGIC]). *)
Fixpoint filterHeartbeat (data : bytes) : bytes :=
  match data with
  | 250%Z :: 251%Z :: 252%Z :: 253%Z :: rest => filterHeartbeat rest
  | _ => data
  end.

Definition filterNullBytes (data : bytes) : bytes :=
  filter (fun c => c <> 0%Z) data.

(** [sendDirectResponse]: the bytes handed to [::send] for [clientFd], if any. *)
Definition sendDirectResponse (clientFd : Z) (response : bytes)
  : list (Z * bytes) :=
  let legal :=
    match response with
    | [] => true
    | first :: _ => mem first [43; 45; 58; 36; 42]%Z
    end in
  if negb legal then []
  else if (clientFd >? 0)%Z then [(clientFd, response)] else [].

(** How [onClientDataReceived] ends: it returns [totalProcessed], or an
    exception of [resp_decode] leaves it; either way with the instance and
    the responses sent so far. *)
Inductive received :=
| Returned (totalProcessed : nat) (p : t) (sent : list (Z * bytes))
| Escaped (e : exception) (p : t) (sent : list (Z * bytes)).

Definition received_instance (r : received) : t :=
  match r with Returned _ p _ | Escaped _ p _ => p end.

Definition received_sent (r : received) : list (Z * bytes) :=
  match r with Returned _ _ sent | Escaped _ _ sent => sent end.

(** The [while (true)] loop; [None] when [fuel] turns were not enough. *)
Fixpoint commandLoop (fuel : nat) (p : t) (clientFd : Z) (buffer : bytes)
    (totalProcessed : nat) (sent : list (Z * bytes)) : option received :=
  match fuel with
  | O => None
  | S f =>
      match resp_decode buffer with
      | Raised e => Some (Escaped e (setClientBuffer p clientFd buffer) sent)
      | NotDecoded =>
          Some (Returned totalProcessed (setClientBuffer p clientFd buffer) sent)
      | Decoded args consumed =>
          let '(p', out) :=
            match args with
            | [] => (p, [])
            | _ :: _ =>
                let '(response, p1) := executeRedisCommand p args in
                (p1, sendDirectResponse clientFd response)
            end in
          commandLoop f p' clientFd (skipn consumed buffer)
                      (totalProcessed + consumed) (sent ++ out)
      end
  end.

Definition onClientDataReceived (fuel : nat) (p : t) (clientFd : Z)
    (data : bytes) : option received :=
  let buffer := default [] (m_clientBuffers p !! clientFd) ++ data in
  let heartbeatFiltered := filterHeartbeat buffer in
  let cleanBuffer := filterNullBytes heartbeatFiltered in
  let buffer' :=
    if negb (length cleanBuffer =? length buffer) then cleanBuffer
    else buffer in
  commandLoop fuel p clientFd buffer' 0 [].

Definition create : t := {| m_clientBuffers := ∅; m_stringData := ∅ |}.

(** *** Inline commands *)

(** The [for (char c : commandLine)] loop of [parseRedisCommand];
    [quote_char] is 0 for ['\0']. *)
Fixpoint parse_chars (commandLine : bytes) (args : list bytes)
    (current_arg : bytes) (in_quotes : bool) (quote_char : Z) : list bytes :=
  match commandLine with
  | [] =>
      match current_arg with
      | [] => args
      | _ :: _ => args ++ [current_arg]
      end
  | c :: rest =>
      if (c =? 32)%Z && negb in_quotes then
        match current_arg with
        | [] => parse_chars rest args [] in_quotes quote_char
        | _ :: _ => parse_chars rest (args ++ [current_arg]) [] in_quotes quote_char
        end
      else if ((c =? 34)%Z || (c =? 39)%Z)
              && ((quote_char =? 0)%Z || (c =? quote_char)%Z) then
        let in_quotes' := negb in_quotes in
        parse_chars rest args current_arg in_quotes'
                    (if negb in_quotes' then 0%Z else c)
      else parse_chars rest args (current_arg ++ [c]) in_quotes quote_char
  end.

Definition parseRedisCommand (commandLine : bytes) : list bytes :=
  parse_chars commandLine [] [] false 0%Z.

(** [isCompleteRedisCommand(buffer)]: an exception of [resp_decode] leaves
    it. *)
Definition isCompleteRedisCommand (buffer : bytes) : exception + nat :=
  match resp_decode buffer with
  | Decoded _ consumed => inr consumed
  | NotDecoded => inr 0
  | Raised e => inl e
  end.

(** [processRedisCommand(clientFd, args)]: the instance afterwards and what
    was handed to [::send]. *)
Definition processRedisCommand (p : t) (clientFd : Z) (args : list bytes)
  : t * list (Z * bytes) :=
  match args with
  | [] => (p, [])
  | _ :: _ =>
      let '(response, p1) := executeRedisCommand p args in
      (p1, sendDirectResponse clientFd response)
  end.

End PureRedisProtocol.

(** ** TcpServer.cpp: the per-connection send queue *)

Module TcpServer.

(** Modelled from the spec: the interest mask of [IOMultiplexer::EventType],
    whose declaration is not among the sources. The spec gives the flags
    READ, WRITE and ERROR; the mask is the pair of the two the server
    registers. *)
Record interest := { want_read : bool; want_write : bool }.

Definition READ : interest := {| want_read := true; want_write := false |}.
Definition READ_WRITE : interest := {| want_read := true; want_write := true |}.

(** What one [send(fd, buf, size, 0)] call returns: [n >= 0] bytes taken,
    -1 with [EAGAIN]/[EWOULDBLOCK], or -1 with another [errno]. *)
Inductive send_result := Sent (n : nat) | WouldBlock | SendFailed.

(** What the send path does that C++ gives no behaviour for. [sendData] and
    the WRITE branch of [run] call [flushSendBuffer] holding a [lock_guard]
    on [*m_sendMutexes[client_fd]]; when [handleClose] is reached from there
    and goes past its test of [m_clients], [m_sendMutexes.erase(client_fd)]
    destroys that mutex while it is locked, and the guard of the caller
    unlocks it after it is gone. *)
Inductive fault := DestroyedLockedMutex (client_fd : Z).

(** The server: the client table, the send queues, the interest registered
    with the multiplexer, the kernel side of each socket (the bytes [send]
    took so far, the number of [send] calls made, the fds closed), and the
    faults met so far. Once a fault is recorded the source has no defined
    behaviour left: the fields then hold what the statements give when they
    are run in order, which nothing obliges the program to follow. *)
Record t := {
  m_clients : gmap Z Z;
  m_sendBuffers : gmap Z (list bytes);
  m_io : gmap Z interest;
  written : gmap Z bytes;
  send_calls : nat;
  closed : list Z;
  faults : list fault
}.

Definition queue (s : t) (fd : Z) : list bytes :=
  default [] (m_sendBuffers s !! fd).

Definition wire (s : t) (fd : Z) : bytes := default [] (written s !! fd).

Definition write_registered (s : t) (fd : Z) : bool :=
  match m_io s !! fd with
  | Some i => want_write i
  | None => false
  end.

(** Modelled from the spec: [IOMultiplexer::modifyFd], whose code is not
    among the sources; the spec's [modify(fd, mask)] replaces the mask the
    fd is registered with. [removefd], in [handleClose], forgets the fd. *)
Definition modifyFd (s : t) (fd : Z) (mask : interest) : t :=
  {| m_clients := m_clients s; m_sendBuffers := m_sendBuffers s;
     m_io := <[fd := mask]> (m_io s);
     written := written s; send_calls := send_calls s; closed := closed s;
     faults := faults s |}.

Definition setQueue (s : t) (fd : Z) (q : list bytes) : t :=
  {| m_clients := m_clients s; m_sendBuffers := <[fd := q]> (m_sendBuffers s);
     m_io := m_io s;
     written := written s; send_calls := send_calls s; closed := closed s;
     faults := faults s |}.

(** [handleClose(client_fd)], called with no lock held (from [handleRead],
    or from the ERROR branch of [run]). *)
Definition handleClose (s : t) (client_fd : Z) : t :=
  match m_clients s !! client_fd with
  | None => s
  | Some _ =>
      {| m_clients := delete client_fd (m_clients s);
         m_sendBuffers := delete client_fd (m_sendBuffers s);
         m_io := delete client_fd (m_io s);
         written := written s; send_calls := send_calls s;
         closed := closed s ++ [client_fd];
         faults := faults s |}
  end.

Definition record_fault (s : t) (f : fault) : t :=
  {| m_clients := m_clients s; m_sendBuffers := m_sendBuffers s;
     m_io := m_io s;
     written := written s; send_calls := send_calls s; closed := closed s;
     faults := faults s ++ [f] |}.

(** [handleClose(client_fd)] as [flushSendBuffer] calls it, with the
    [lock_guard] of its caller on the send mutex of [client_fd]: for a
    descriptor in the client table the mutex is erased while locked. *)
Definition handleClose_under_send_lock (s : t) (client_fd : Z) : t :=
  match m_clients s !! client_fd with
  | None => handleClose s client_fd
  | Some _ =>
      record_fault (handleClose s client_fd) (DestroyedLockedMutex client_fd)
  end.

Section Kernel.

(** The kernel: what the [i]-th [send] call of the run returns. *)
Variable kernel : nat -> send_result.

(** The [while (!it->second.empty())] loop of [flushSendBuffer]: the queue
    left, the [send] calls made, the bytes the kernel took, and whether the
    loop was left by the [handleClose] branch. *)
Fixpoint drain (q : list bytes) (calls : nat) (taken : bytes)
  : list bytes * nat * bytes * bool :=
  match q with
  | [] => ([], calls, taken, false)
  | buffer :: rest =>
      match kernel calls with
      | SendFailed => (q, S calls, taken, true)
      | WouldBlock => (q, S calls, taken, false)
      | Sent sent =>
          if sent <? length buffer
          then (skipn sent buffer :: rest, S calls,
                taken ++ firstn sent buffer, false)
          else drain rest (S calls) (taken ++ buffer)
      end
  end.

(** [flushSendBuffer(client_fd)], called with the send mutex of
    [client_fd] held, as both its callers do. *)
Definition flushSendBuffer (s : t) (client_fd : Z) : t :=
  match m_sendBuffers s !! client_fd with
  | None | Some [] => s
  | Some q =>
      let '(q', calls, taken, failed) := drain q (send_calls s) [] in
      let s1 :=
        {| m_clients := m_clients s;
           m_sendBuffers := <[client_fd := q']> (m_sendBuffers s);
           m_io := m_io s;
           written := <[client_fd := wire s client_fd ++ taken]> (written s);
           send_calls := calls; closed := closed s; faults := faults s |} in
      if failed then handleClose_under_send_lock s1 client_fd
      else
        match q' with
        | [] => modifyFd s1 client_fd READ
        | _ :: _ => s1
        end
  end.

(** [sendData(client_fd, data, len, is_heartbeat)] *)
Definition sendData (s : t) (client_fd : Z) (data : bytes) : t :=
  if length data =? 0 then s
  else
    let s1 := setQueue s client_fd (queue s client_fd ++ [data]) in
    let s2 := flushSendBuffer s1 client_fd in
    (* m_sendBuffers[client_fd] inserts an empty queue when the entry is gone *)
    let s3 := setQueue s2 client_fd (queue s2 client_fd) in
    match queue s3 client_fd with
    | [] => s3
    | _ :: _ => modifyFd s3 client_fd READ_WRITE
    end.

(** What happens to a connection's send path: the application hands a
    chunk to [sendData], or the reactor sees the fd WRITE-ready. *)
Inductive send_op := Enqueue (data : bytes) | WriteReady.

Definition apply_op (client_fd : Z) (s : t) (op : send_op) : t :=
  match op with
  | Enqueue data => sendData s client_fd data
  | WriteReady => flushSendBuffer s client_fd
  end.

Definition enqueued (op : send_op) : bytes :=
  match op with
  | Enqueue data => data
  | WriteReady => []
  end.

Definition run (client_fd : Z) (ops : list send_op) (s : t) : t :=
  fold_left (apply_op client_fd) ops s.


(** [sendBusinessData(client_fd, data)] *)
Definition sendBusinessData (s : t) (client_fd : Z) (data : bytes) : t :=
  sendData s client_fd data.

End Kernel.


(** *** Reading *)

(** What [recv] returns: bytes (at least one), 0 for an orderly shutdown,
    -1 with [EAGAIN]/[EWOULDBLOCK], or -1 with another [errno]. *)
Inductive recv_result :=
| Received (data : bytes) | Eof | RecvWouldBlock | RecvFailed.

(** The heartbeat loop of [handleRead]: [processed] after it. *)
Fixpoint skip_heartbeats (fuel : nat) (data : bytes) (processed : nat) : nat :=
  match fuel with
  | O => processed
  | S f =>
      if processed + 4 <=? length data then
        if bool_decide (substr processed 4 data = [250; 251; 252; 253]%Z)
        then skip_heartbeats f data (processed + 4)
        else processed
      else processed
  end.

(** What [handleRead] does with the result of [recv]: close the connection,
    nothing, or note the time in [m_lastActive] and hand the business data,
    if any is left, to [m_onMessage]. *)
Inductive read_outcome :=
| ReadCloses
| ReadNothing
| ReadActive (message : option bytes).

Definition handleRead (m_onMessage : bool) (r : recv_result) : read_outcome :=
  match r with
  | Eof | RecvFailed => ReadCloses
  | RecvWouldBlock => ReadNothing
  | Received data =>
      if length data =? 0 then ReadCloses
      else
        let processed := skip_heartbeats (length data) data 0 in
        if processed <? length data then
          ReadActive (if m_onMessage then Some (skipn processed data) else None)
        else ReadActive None
  end.

(** A connection as [handleAccept] leaves it: in the client table, registered
    for [READ], nothing queued. *)
Definition accepted (client_fd : Z) : t :=
  {| m_clients := {[client_fd := 1%Z]}; m_sendBuffers := ∅;
     m_io := {[client_fd := READ]}; written := ∅; send_calls := 0;
     closed := []; faults := [] |}.

End TcpServer.

(** ** Reference definitions and sample inputs *)

Module Utf8.

Definition between (lo c hi : Z) : bool := (lo <=? c)%Z && (c <=? hi)%Z.

(** Strict UTF-8 as the spec asks for it (RFC 3629, section 4): shortest
    encodings only, no surrogates, nothing above U+10FFFF. This follows the
    standard, not the source; it is what [isValidUtf8] is compared with. *)
Fixpoint strict_utf8 (s : bytes) : bool :=
  match s with
  | [] => true
  | c :: r1 =>
      if between 0 c 127 then strict_utf8 r1
      else if between 194 c 223 then
        match r1 with
        | c1 :: r2 => between 128 c1 191 && strict_utf8 r2
        | _ => false
        end
      else if between 224 c 239 then
        match r1 with
        | c1 :: c2 :: r3 =>
            (if (c =? 224)%Z then between 160 c1 191
             else if (c =? 237)%Z then between 128 c1 159
             else between 128 c1 191)
            && between 128 c2 191 && strict_utf8 r3
        | _ => false
        end
      else if between 240 c 244 then
        match r1 with
        | c1 :: c2 :: c3 :: r4 =>
            (if (c =? 240)%Z then between 144 c1 191
             else if (c =? 244)%Z then between 128 c1 143
             else between 128 c1 191)
            && between 128 c2 191 && between 128 c3 191 && strict_utf8 r4
        | _ => false
        end
      else false
  end.

End Utf8.

Module Samples.

Import WebSocketProtocol.

(** An instance with the three callbacks set, as [ApplicationServer] makes
    it for a client. *)
Definition instance (st : State) (buf : bytes) : WebSocketProtocol.t :=
  {| state_ := st; buffer_ := buf; rawFrameCallback_ := true;
     packetCallback_ := true; errorCallback_ := true |}.

Definition sample_mask : bytes := [55; 250; 33; 61]%Z.

(** A masked client frame with a short payload. *)
Definition client_frame (byte1 : Z) (payload : bytes) : bytes :=
  [byte1; Z.lor 128 (Z.of_nat (length payload))] ++ sample_mask
  ++ unmaskPayload payload (length payload) sample_mask.

(** The upgrade request of RFC 6455, section 1.3, cut inside the
    [Upgrade] header name. *)
Definition upgrade_first_read : bytes :=
  bytes_of_string "GET /chat HTTP/1.1" ++ CRLF
  ++ bytes_of_string "Host: server.example.com" ++ CRLF
  ++ bytes_of_string "Upgr".

Definition upgrade_second_read : bytes :=
  bytes_of_string "ade: websocket" ++ CRLF
  ++ bytes_of_string "Connection: Upgrade" ++ CRLF
  ++ bytes_of_string "Sec-WebSocket-Key: dGhlIHNhbXBsZSBub25jZQ==" ++ CRLF
  ++ bytes_of_string "Sec-WebSocket-Version: 13" ++ CRLF
  ++ CRLF.

Definition sample_key : bytes := bytes_of_string "dGhlIHNhbXBsZSBub25jZQ==".
Definition sample_accept : bytes := bytes_of_string "s3pPLMBiTxaQ9kYGzzhZRbK+xOo=".

(** A RESP message given line by line. *)
Definition lines (l : list string) : bytes :=
  concat (map (fun s => bytes_of_string s ++ CRLF) l).

(** A kernel that takes 3 bytes on the first [send] and 7 on each later one. *)
Definition kernel_3_then_7 (i : nat) : TcpServer.send_result :=
  match i with
  | 0 => TcpServer.Sent 3
  | _ => TcpServer.Sent 7
  end.


(** A message whose bulk length sends the read position back to the start:
    [*1 CRLF $-12 CRLF XX]. *)
Definition rewinding_message : bytes :=
  lines ["*1"; "$-12"] ++ [88; 88]%Z.

Definition ten_bytes : bytes := [1; 2; 3; 4; 5; 6; 7; 8; 9; 10]%Z.

(** Connection 7, just accepted, after a 10-byte frame was handed to
    [sendData] and the kernel took 3 bytes of it. *)
Definition backlogged : TcpServer.t :=
  TcpServer.sendData kernel_3_then_7 (TcpServer.accepted 7) 7 ten_bytes.

(** Connections 7 and 9, both just accepted. *)
Definition two_connections : TcpServer.t :=
  {| TcpServer.m_clients := {[7%Z := 1%Z; 9%Z := 1%Z]};
     TcpServer.m_sendBuffers := ∅;
     TcpServer.m_io := {[7%Z := TcpServer.READ; 9%Z := TcpServer.READ]};
     TcpServer.written := ∅; TcpServer.send_calls := 0;
     TcpServer.closed := []; TcpServer.faults := [] |}.


End Samples.

Definition is_digit_byte (c : Z) : Prop := (48 <= c <= 57)%Z.

Definition is_nil {A} (l : list A) : bool :=
  match l with [] => true | _ :: _ => false end.

Definition handshake_failed : bytes :=
  bytes_of_string "Handshake failed (incomplete or invalid)".

(** [needle] occurs in [s]. *)
Definition contains (needle s : bytes) : Prop :=
  exists pre post, s = pre ++ needle ++ post.

Module Surface.

Import PureRedisProtocol.

(** The commands [executeRedisCommand] answers, by upper-cased name and
    number of arguments (the name included). *)
Definition command_surface (cmd : bytes) (argc : nat) : bool :=
  bytes_eqb cmd (bytes_of_string "COMMAND")
  || bytes_eqb cmd (bytes_of_string "PING")
  || (bytes_eqb cmd (bytes_of_string "SET") && (argc =? 3))
  || (bytes_eqb cmd (bytes_of_string "GET") && (argc =? 2))
  || (bytes_eqb cmd (bytes_of_string "DEL") && (2 <=? argc))
  || (bytes_eqb cmd (bytes_of_string "KEYS") && (argc =? 2)).

(** [-ERR unknown command '<cmd>'] *)
Definition unknown_reply (cmd : bytes) : bytes :=
  formatError (bytes_of_string "ERR unknown command '" ++ cmd
               ++ bytes_of_string "'").

(** A run of bulk strings on the wire. *)
Definition bulks (l : list bytes) : bytes := concat (map formatBulkString l).

(** The list and hash commands of the spec's command surface. *)
Definition list_and_hash_commands : list (list bytes) :=
  map (map bytes_of_string)
      [["LPUSH"; "k"; "v"]; ["LPOP"; "k"]; ["LRANGE"; "k"; "0"; "-1"];
       ["HSET"; "k"; "f"; "v"]; ["HGET"; "k"; "f"]; ["HKEYS"; "k"]].

(** Commands applied one after the other with [processRedisCommand]: the
    instance at the end and everything sent, in order. *)
Fixpoint run_commands (p : PureRedisProtocol.t) (clientFd : Z)
    (commands : list (list bytes)) : PureRedisProtocol.t * list (Z * bytes) :=
  match commands with
  | [] => (p, [])
  | args :: rest =>
      let '(p1, out) := processRedisCommand p clientFd args in
      let '(p2, outs) := run_commands p1 clientFd rest in
      (p2, out ++ outs)
  end.

(** Commands on the wire, one RESP array each. *)
Definition pipeline (commands : list (list bytes)) : bytes :=
  concat (map formatArray commands).

(** Words joined by single spaces. *)
Fixpoint join_words (words : list bytes) : bytes :=
  match words with
  | [] => []
  | [w] => w
  | w :: rest => w ++ [32%Z] ++ join_words rest
  end.

End Surface.

(** ** WebSocketServer.cpp *)

Module WebSocketServer.

(** [sendCloseFrame(fd, code, reason)]: the frame handed to [send]. The
    length byte is a [uint8_t], so [2 + reason.size()] is taken modulo
    256. *)
Definition sendCloseFrame (code : Z) (reason : bytes) : bytes :=
  let len := to_char (2 + Z.of_nat (length reason)) in
  [136%Z; len; to_char (Z.shiftr code 8); to_char (Z.land code 255)]
  ++ reason.

(** [convertDataToString(data, length)] *)
Fixpoint every_other_nonzero (data : bytes) : bytes :=
  match data with
  | [] => []
  | c :: rest =>
      (if (c =? 0)%Z then [] else [c])
      ++ match rest with
         | [] => []
         | _ :: rest' => every_other_nonzero rest'
         end
  end.

Definition convertDataToString (data : bytes) : bytes :=
  if (2 <=? length data) && (nth 1 data 1 =? 0)%Z
  then every_other_nonzero data
  else data.

End WebSocketServer.

(** ** ApplicationRegistry.cpp *)

Module ApplicationRegistry.

(** [std::string::operator<], as [std::sort] uses it: the order of the
    first byte that differs, a proper prefix coming first. *)
Fixpoint bytes_leb (a b : bytes) : bool :=
  match a, b with
  | [], _ => true
  | _ :: _, [] => false
  | x :: a', y :: b' =>
      if (x <? y)%Z then true
      else if (y <? x)%Z then false
      else bytes_leb a' b'
  end.

Definition bytes_le (a b : bytes) : Prop := bytes_leb a b = true.

#[global] Instance bytes_le_dec (a b : bytes) : Decision (bytes_le a b) :=
  decide (bytes_leb a b = true).

Section Creators.

(** The application a creator builds, and the arguments it is given
    ([ip], [port], [io_type], [pool], [config]). *)
Variables (App Args : Type).

(** What a call of a creator can do: return an application, return
    [nullptr], or throw. *)
Inductive creation := Created (app : App) | ReturnedNull | Thrown.

(** [CreateFunc]: a [std::function], possibly empty. *)
Definition CreateFunc : Type := option (Args -> creation).

(** The registry: its one data member. *)
Record t := { m_creators : gmap bytes (Args -> creation) }.

(** [registerApplication(name, creator)]: the returned [bool] and the
    registry afterwards. *)
Definition registerApplication (r : t) (name : bytes) (creator : CreateFunc)
  : bool * t :=
  match name with
  | [] => (false, r)
  | _ :: _ =>
      match creator with
      | None => (false, r)
      | Some f => (true, {| m_creators := <[name := f]> (m_creators r) |})
      end
  end.

(** [createApplication(name, ...)]: [None] is [nullptr]. *)
Definition createApplication (r : t) (name : bytes) (args : Args)
  : option App :=
  match m_creators r !! name with
  | None => None
  | Some f =>
      match f args with
      | Created app => Some app
      | ReturnedNull => None
      | Thrown => None
      end
  end.

Definition getAvailableApplications (r : t) : list bytes :=
  merge_sort bytes_le (map fst (map_to_list (m_creators r))).

Definition isApplicationRegistered (r : t) (name : bytes) : bool :=
  match m_creators r !! name with
  | Some _ => true
  | None => false
  end.

Definition getApplicationCount (r : t) : nat := size (m_creators r).

End Creators.

Arguments Created {App}.
Arguments ReturnedNull {App}.
Arguments Thrown {App}.
Arguments m_creators {App Args}.
Arguments registerApplication {App Args}.
Arguments createApplication {App Args}.
Arguments getAvailableApplications {App Args}.
Arguments isApplicationRegistered {App Args}.
Arguments getApplicationCount {App Args}.

End ApplicationRegistry.

(** * Properties *)

Import WebSocketProtocol.

(** ** Checks of the modelled primitives against published vectors *)

Example sha1_abc :
  Sha1.SHA1 (bytes_of_string "abc")
  = [169; 153; 62; 54; 71; 6; 129; 106; 186; 62; 37; 113; 120; 80; 194; 108;
     156; 208; 216; 157]%Z.
Proof. vm_compute. reflexivity. Qed.

Example sha1_empty :
  Sha1.SHA1 []
  = [218; 57; 163; 238; 94; 107; 75; 13; 50; 85; 191; 239; 149; 96; 24; 144;
     175; 216; 7; 9]%Z.
Proof. vm_compute. reflexivity. Qed.

Example sha1_two_blocks :
  Sha1.SHA1
    (bytes_of_string "abcdbcdecdefdefgefghfghighijhijkijkljklmklmnlmnomnopnopq")
  = [132; 152; 62; 68; 28; 59; 210; 110; 186; 174; 74; 161; 249; 81; 41; 229;
     229; 70; 112; 241]%Z.
Proof. vm_compute. reflexivity. Qed.

Example base64_rfc4648 :
  map Base64.base64_encode
      (map bytes_of_string ["f"; "fo"; "foo"; "foob"; "fooba"; "foobar"])
  = map bytes_of_string
        ["Zg=="; "Zm8="; "Zm9v"; "Zm9vYg=="; "Zm9vYmE="; "Zm9vYmFy"].
Proof. vm_compute. reflexivity. Qed.

(** ** Bytes *)

Lemma lxor_byte (a b : Z) :
  is_byte a -> is_byte b -> is_byte (Z.lxor a b).
Proof.
  unfold is_byte. intros Ha Hb.
  assert (H : (Z.lxor a b mod 2 ^ 8 = Z.lxor a b)%Z).
  { apply Z.bits_inj'. intros n Hn.
    destruct (Z.lt_ge_cases n 8) as [Hlt | Hge].
    - apply Z.mod_pow2_bits_low. lia.
    - rewrite Z.mod_pow2_bits_high by lia.
      rewrite Z.lxor_spec.
      rewrite <- (Z.mod_small a (2 ^ 8)), <- (Z.mod_small b (2 ^ 8)) by lia.
      rewrite !Z.mod_pow2_bits_high by lia. reflexivity. }
  rewrite <- H. change (2 ^ 8)%Z with 256%Z. apply Z.mod_pos_bound. lia.
Qed.

Lemma to_char_byte (b : Z) : is_byte b -> to_char b = b.
Proof. unfold is_byte, to_char. intros H. apply Z.mod_small. lia. Qed.

Lemma nth_byte (l : bytes) (i : nat) :
  Forall is_byte l -> is_byte (nth i l 0%Z).
Proof.
  intros H. revert i. induction H as [|x l Hx _ IH]; intros [|i]; simpl;
    try (unfold is_byte; lia); auto.
Qed.

(** ** Masking *)

Lemma unmask_from_twice (K P : bytes) (i : nat) :
  Forall is_byte K -> Forall is_byte P ->
  unmask_from i (unmask_from i P K) K = P.
Proof.
  intros HK HP. revert i.
  induction HP as [|p P Hp _ IH]; intros i; simpl; [reflexivity|].
  pose proof (nth_byte K (i mod 4) HK) as Hk.
  rewrite (to_char_byte (Z.lxor p _)) by (apply lxor_byte; assumption).
  rewrite Z.lxor_assoc, Z.lxor_nilpotent, Z.lxor_0_r.
  rewrite to_char_byte by assumption.
  f_equal. apply IH.
Qed.

Lemma unmask_from_length (K P : bytes) (i : nat) :
  length (unmask_from i P K) = length P.
Proof. revert i. induction P as [|p P IH]; intros i; simpl; auto. Qed.

Lemma unmask_from_nth (K P : bytes) (i j : nat) :
  Forall is_byte K -> Forall is_byte P -> j < length P ->
  nth j (unmask_from i P K) 0%Z
  = Z.lxor (nth j P 0%Z) (nth ((i + j) mod 4) K 0%Z).
Proof.
  intros HK HP. revert i j.
  induction HP as [|p P Hp HP' IH]; intros i j Hj; simpl in *; [lia|].
  destruct j as [|j].
  - rewrite Nat.add_0_r. apply to_char_byte, lxor_byte;
      [assumption | apply nth_byte; assumption].
  - rewrite IH by lia. replace (S i + j) with (i + S j) by lia. reflexivity.
Qed.

(** C7: unmasking is byte-wise XOR with the key bytes in wire order
    ([payload[i] ^ key[i mod 4]]), and applying it twice with the same
    4-byte key gives the payload back. *)
Theorem C7_unmask_involution (K P : bytes) :
  length K = 4 -> Forall is_byte K -> Forall is_byte P ->
  unmaskPayload (unmaskPayload P (length P) K) (length P) K = P
  /\ (forall i, i < length P ->
        nth i (unmaskPayload P (length P) K) 0%Z
        = Z.lxor (nth i P 0%Z) (nth (i mod 4) K 0%Z))
  /\ (forall byte1 byte2 rest (ws : WebSocketProtocol.t),
        Z.land byte2 128 <> 0%Z -> (Z.land byte2 127 < 126)%Z ->
        exists h, parseFrameHeader ws (byte1 :: byte2 :: K ++ rest)
                  = (Some (h, 6), []) /\ masking_key h = K).
Proof.
  intros HlenK HK HP. unfold unmaskPayload. repeat split.
  - rewrite firstn_all.
    rewrite <- (unmask_from_length K P 0) at 1. rewrite firstn_all.
    apply unmask_from_twice; assumption.
  - intros i Hi. rewrite firstn_all.
    rewrite unmask_from_nth by assumption. reflexivity.
  - intros byte1 byte2 rest ws Hmask Hlen.
    destruct K as [|k0 [|k1 [|k2 [|k3 [|? ?]]]]]; simpl in HlenK; try lia.
    unfold parseFrameHeader.
    apply Z.eqb_neq in Hmask. rewrite Hmask.
    assert (H126 : (Z.land byte2 127 =? 126)%Z = false) by (apply Z.eqb_neq; lia).
    assert (H127 : (Z.land byte2 127 =? 127)%Z = false) by (apply Z.eqb_neq; lia).
    rewrite H126, H127. cbn [negb length app Nat.ltb Nat.leb Nat.add substr skipn firstn].
    assert (Hmax : (Z.land byte2 127 >? MAX_FRAME_SIZE)%Z = false).
    { unfold MAX_FRAME_SIZE. rewrite Z.gtb_ltb. apply Z.ltb_ge. lia. }
    rewrite Hmax. eexists. split; reflexivity.
Qed.

Lemma C7_unmask_involution_witness :
  length Samples.sample_mask = 4
  /\ Forall is_byte Samples.sample_mask
  /\ Forall is_byte [72; 101; 108; 108; 111]%Z
  /\ unmaskPayload
       (unmaskPayload [72; 101; 108; 108; 111]%Z 5 Samples.sample_mask)
       5 Samples.sample_mask
     = [72; 101; 108; 108; 111]%Z.
Proof.
  assert (H1 : length Samples.sample_mask = 4) by reflexivity.
  assert (H2 : Forall is_byte Samples.sample_mask)
    by (repeat constructor; unfold is_byte; lia).
  assert (H3 : Forall is_byte [72; 101; 108; 108; 111]%Z)
    by (repeat constructor; unfold is_byte; lia).
  split; [exact H1 | split; [exact H2 | split; [exact H3 |]]].
  exact (proj1 (C7_unmask_involution Samples.sample_mask
                  [72; 101; 108; 108; 111]%Z H1 H2 H3)).
Defined.

(** ** The state machine once closed *)

(** C10: in the CLOSED state [onDataReceived] reports the whole input as
    consumed, calls no callback, and leaves state and buffer as they were. *)
Theorem C10_closed_consumes_everything (ws : WebSocketProtocol.t) (data : bytes) :
  state_ ws = CLOSED ->
  onDataReceived ws data = (length data, ws, []).
Proof. intros H. unfold onDataReceived. rewrite H. reflexivity. Qed.

Lemma C10_closed_consumes_everything_witness :
  state_ (Samples.instance CLOSED [1; 2]%Z) = CLOSED
  /\ onDataReceived (Samples.instance CLOSED [1; 2]%Z) [129; 0; 7]%Z
     = (3, Samples.instance CLOSED [1; 2]%Z, []).
Proof.
  split; [reflexivity|].
  exact (C10_closed_consumes_everything (Samples.instance CLOSED [1; 2]%Z)
           [129; 0; 7]%Z eq_refl).
Defined.

(** ** The frame loop ends *)

Lemma parseFrameHeader_size (ws : WebSocketProtocol.t) (data : bytes)
    (h : FrameHeader) (headerSize : nat) (ev : list Event) :
  parseFrameHeader ws data = (Some (h, headerSize), ev) -> 2 <= headerSize.
Proof.
  unfold parseFrameHeader. destruct data as [|b1 [|b2 rest]]; try discriminate.
  set (ext := if (Z.land b2 127 =? 126)%Z then _ else _).
  assert (Hext : forall plen pos, ext = Some (plen, pos) -> 2 <= pos).
  { unfold ext. intros plen pos.
    destruct (Z.land b2 127 =? 126)%Z.
    - destruct (length (b1 :: b2 :: rest) <? 2 + 2); [discriminate|].
      intros H; inversion H; lia.
    - destruct (Z.land b2 127 =? 127)%Z.
      + destruct (length (b1 :: b2 :: rest) <? 2 + 8); [discriminate|].
        intros H; inversion H; lia.
      + intros H; inversion H; lia. }
  destruct ext as [[plen pos]|]; [|discriminate].
  specialize (Hext plen pos eq_refl).
  destruct (negb (Z.land b2 128 =? 0)%Z).
  - destruct (length (b1 :: b2 :: rest) <? pos + 4); [discriminate|].
    destruct (plen >? MAX_FRAME_SIZE)%Z; [discriminate|].
    intros H; inversion H; lia.
  - destruct (plen >? MAX_FRAME_SIZE)%Z; [discriminate|].
    intros H; inversion H; lia.
Qed.

Lemma dispatchFrame_consumed (ws : WebSocketProtocol.t) (op : Z)
    (payloadData : bytes) (n : nat) :
  exists ok ws' ev,
    dispatchFrame ws op payloadData n = (ok, n, ws', ev)
    /\ buffer_ ws' = buffer_ ws.
Proof.
  unfold dispatchFrame.
  repeat match goal with
         | |- context [if ?b then _ else _] => destruct b
         end; do 3 eexists; split; reflexivity.
Qed.

(** A frame that [parseFrame] accepts takes at least its two header bytes
    and leaves the buffer to the caller. *)
Lemma parseFrame_progress (ws ws' : WebSocketProtocol.t) (data : bytes)
    (n : nat) (ev : list Event) :
  parseFrame ws data = (true, n, ws', ev) ->
  2 <= n /\ buffer_ ws' = buffer_ ws.
Proof.
  unfold parseFrame.
  destruct (length data <? 2); [discriminate|].
  destruct (Z.land (nth 0 data 0) 15 >? 10)%Z; [discriminate|].
  destruct (parseFrameHeader ws data) as [[[h hs]|] ev0] eqn:Hh; [|discriminate].
  apply parseFrameHeader_size in Hh.
  destruct (length data <? hs + Z.to_nat (payload_length h)); [discriminate|].
  match goal with
  | |- context [dispatchFrame ?w ?o ?p ?t] =>
      destruct (dispatchFrame_consumed w o p t) as (ok & w' & ev' & -> & Hb)
  end.
  intros H. inversion H; subst. split; [lia | exact Hb].
Qed.

(** Any fuel that covers the bytes not yet consumed gives the same result:
    [onDataReceived] never runs out of it. *)
Lemma frameLoop_enough_fuel (fuel1 fuel2 : nat) (ws : WebSocketProtocol.t)
    (len totalConsumed : nat) (events : list Event) :
  length (buffer_ ws) - totalConsumed <= fuel1 ->
  length (buffer_ ws) - totalConsumed <= fuel2 ->
  frameLoop fuel1 ws len totalConsumed events
  = frameLoop fuel2 ws len totalConsumed events.
Proof.
  revert fuel2 ws totalConsumed events.
  induction fuel1 as [|f1 IH]; intros fuel2 ws total events H1 H2.
  - destruct fuel2 as [|f2]; [reflexivity|]. cbn [frameLoop].
    replace (total <? length (buffer_ ws)) with false
      by (symmetry; apply Nat.ltb_ge; lia).
    reflexivity.
  - destruct fuel2 as [|f2]; cbn [frameLoop].
    + replace (total <? length (buffer_ ws)) with false
        by (symmetry; apply Nat.ltb_ge; lia).
      reflexivity.
    + destruct (total <? length (buffer_ ws)) eqn:E; [|reflexivity].
      destruct (parseFrame ws (skipn total (buffer_ ws)))
        as [[[ok n] ws'] ev] eqn:Hp.
      destruct ok; [|reflexivity]. cbn [negb].
      destruct (parseFrame_progress _ _ _ _ _ Hp) as [Hn Hb].
      apply IH; rewrite Hb; lia.
Qed.

(** ** The accept token *)

(** C8: the accept token is Base64(SHA-1(key ++ GUID)); the key of RFC 6455
    gives [s3pPLMBiTxaQ9kYGzzhZRbK+xOo=], and that token is what the 101
    response to the sample upgrade request carries. *)
Theorem C8_accept_token :
  (forall k,
      calculateHandshakeKey k
      = Base64.base64_encode
          (Sha1.SHA1 (k ++ bytes_of_string "258EAFA5-E914-47DA-95CA-C5AB0DC85B11")))
  /\ calculateHandshakeKey Samples.sample_key = Samples.sample_accept
  /\ onDataReceived (Samples.instance CONNECTING [])
        (Samples.upgrade_first_read ++ Samples.upgrade_second_read)
     = (length (Samples.upgrade_first_read ++ Samples.upgrade_second_read),
        Samples.instance OPEN [],
        [RawFrame
           (bytes_of_string "HTTP/1.1 101 Switching Protocols" ++ CRLF
            ++ bytes_of_string "Upgrade: websocket" ++ CRLF
            ++ bytes_of_string "Connection: Upgrade" ++ CRLF
            ++ bytes_of_string "Sec-WebSocket-Accept: " ++ Samples.sample_accept
            ++ CRLF ++ CRLF)]).
Proof.
  split; [|split].
  - intros k. reflexivity.
  - vm_compute. reflexivity.
  - vm_compute. reflexivity.
Qed.

(** ** Opcode dispatch *)

Lemma parseFrame_opcode_above_PONG (ws : WebSocketProtocol.t) (data : bytes) :
  (Z.land (nth 0 data 0%Z) 15 > 10)%Z ->
  parseFrame ws data = (false, 0, ws, []).
Proof.
  intros H. unfold parseFrame.
  destruct (length data <? 2); [reflexivity|].
  apply Z.gtb_gt in H. rewrite H. reflexivity.
Qed.

Lemma dispatchFrame_data_and_control (ws : WebSocketProtocol.t)
    (payloadData : bytes) (n : nat) :
  dispatchFrame ws BINARY payloadData n = (true, n, ws, call_packet ws payloadData)
  /\ dispatchFrame ws PING payloadData n
     = (true, n, ws, call_raw ws (packPong payloadData))
  /\ dispatchFrame ws PONG payloadData n = (true, n, ws, [])
  /\ dispatchFrame ws CLOSE payloadData n = (false, n, setState ws CLOSED, [])
  /\ (isValidUtf8 payloadData = true ->
      dispatchFrame ws TEXT payloadData n
      = (true, n, ws, call_packet ws payloadData)).
Proof.
  repeat split; try reflexivity.
  intros H. unfold dispatchFrame. simpl. rewrite H. reflexivity.
Qed.

Lemma dispatchFrame_unhandled (ws : WebSocketProtocol.t) (op : Z)
    (payloadData : bytes) (n : nat) :
  op <> TEXT -> op <> BINARY -> op <> PING -> op <> PONG -> op <> CLOSE ->
  dispatchFrame ws op payloadData n
  = (false, n, setState ws CLOSED,
     call_error ws (bytes_of_string "Unknown frame type: " ++ to_string op)
     ++ call_raw ws (packClose 1003 (bytes_of_string "Unknown frame type"))).
Proof.
  intros H1 H2 H3 H4 H5. unfold dispatchFrame.
  rewrite (proj2 (Z.eqb_neq _ _) H1), (proj2 (Z.eqb_neq _ _) H2),
    (proj2 (Z.eqb_neq _ _) H3), (proj2 (Z.eqb_neq _ _) H4),
    (proj2 (Z.eqb_neq _ _) H5).
  reflexivity.
Qed.

(** C1: what the engine does with a CONTINUATION frame and with a frame of
    opcode 0xB, both masked, complete and with an empty payload, in the OPEN
    state. The CONTINUATION frame goes down the unknown-type branch (error
    callback, CLOSE 1003, CLOSED); the 0xB frame is refused before the
    dispatch: no CLOSE frame, state still OPEN, the bytes left in the
    buffer. *)
Theorem C1_opcode_dispatch :
  onDataReceived (Samples.instance OPEN []) (Samples.client_frame 128 [])
  = (6, Samples.instance CLOSED [],
     [Error (bytes_of_string "Unknown frame type: 0");
      RawFrame (packClose 1003 (bytes_of_string "Unknown frame type"))])
  /\ onDataReceived (Samples.instance OPEN []) (Samples.client_frame 139 [])
     = (6, Samples.instance OPEN (Samples.client_frame 139 []), []).
Proof. split; vm_compute; reflexivity. Qed.

(** ** UTF-8 on TEXT frames *)

Lemma dispatchFrame_text_invalid (ws : WebSocketProtocol.t)
    (payloadData : bytes) (n : nat) :
  isValidUtf8 payloadData = false -> state_ ws <> CLOSED ->
  dispatchFrame ws TEXT payloadData n
  = (false, n, setState ws CLOSED,
     call_raw ws (packClose 1007 (bytes_of_string "Invalid UTF-8 in TEXT frame"))
     ++ call_error ws
          (bytes_of_string "Invalid UTF-8 in TEXT frame (opcode: TEXT)")).
Proof.
  intros H Hst. unfold dispatchFrame. simpl. rewrite H. simpl.
  destruct (state_ ws); simpl; try reflexivity. contradiction.
Qed.

(** Scenario 2 of the spec: a TEXT frame carrying [C3 28]. *)
Example text_C3_28_closes_1007 :
  onDataReceived (Samples.instance OPEN []) (Samples.client_frame 129 [195; 40]%Z)
  = (8, Samples.instance CLOSED [],
     [RawFrame (packClose 1007 (bytes_of_string "Invalid UTF-8 in TEXT frame"));
      Error (bytes_of_string "Invalid UTF-8 in TEXT frame (opcode: TEXT)")]).
Proof. vm_compute. reflexivity. Qed.

(** What a TEXT frame hands to the application passed [isValidUtf8]. *)
Lemma dispatchFrame_text_packet (ws : WebSocketProtocol.t)
    (payloadData p : bytes) (n : nat) :
  In (Packet p) (snd (dispatchFrame ws TEXT payloadData n)) ->
  p = payloadData /\ isValidUtf8 payloadData = true.
Proof.
  unfold dispatchFrame. cbn [Z.eqb TEXT Pos.eqb].
  destruct (isValidUtf8 payloadData); cbn [negb].
  - unfold call_packet. destruct (packetCallback_ ws); cbn; [|tauto].
    intros [H|[]]. inversion H. split; reflexivity.
  - destruct (State_eqb (state_ ws) CLOSED); cbn; [tauto|].
    unfold call_raw, call_error.
    destruct (rawFrameCallback_ ws), (errorCallback_ ws); cbn;
      intuition discriminate.
Qed.

(** A property of all 256 byte values, by enumeration. *)
Lemma byte_forall (P : Z -> bool) :
  forallb P (map Z.of_nat (seq 0 256)) = true ->
  forall c, (0 <= c < 256)%Z -> P c = true.
Proof.
  intros H c Hc. rewrite forallb_forall in H. apply H.
  apply in_map_iff. exists (Z.to_nat c). split; [lia|].
  apply in_seq. lia.
Qed.

Lemma lead_byte_shape (c : Z) :
  (128 <= c < 256)%Z ->
  (c <? 128)%Z = false
  /\ (Z.land c 224 =? 192)%Z = Utf8.between 192 c 223
  /\ (Z.land c 240 =? 224)%Z = Utf8.between 224 c 239
  /\ (Z.land c 248 =? 240)%Z = Utf8.between 240 c 247.
Proof.
  intros Hc.
  pose proof (byte_forall
    (fun c => implb (128 <=? c)%Z
       (negb (c <? 128)%Z
        && Bool.eqb (Z.land c 224 =? 192)%Z (Utf8.between 192 c 223)
        && Bool.eqb (Z.land c 240 =? 224)%Z (Utf8.between 224 c 239)
        && Bool.eqb (Z.land c 248 =? 240)%Z (Utf8.between 240 c 247)))
    ltac:(vm_compute; reflexivity) c ltac:(lia)) as H.
  cbv beta in H.
  replace (128 <=? c)%Z with true in H by (symmetry; apply Z.leb_le; lia).
  cbn [implb] in H.
  repeat (apply andb_true_iff in H; destruct H as [H ?]).
  apply negb_true_iff in H.
  repeat match goal with
         | X : Bool.eqb _ _ = true |- _ => apply Bool.eqb_prop in X
         end.
  auto.
Qed.

Lemma cont_byte_shape (c : Z) :
  Utf8.between 128 c 191 = true -> is_cont c = true.
Proof.
  intros Hb.
  assert (Hc : (0 <= c < 256)%Z).
  { unfold Utf8.between in Hb. apply andb_true_iff in Hb.
    destruct Hb as [H1 H2]. apply Z.leb_le in H1, H2. lia. }
  pose proof (byte_forall
    (fun c => implb (Utf8.between 128 c 191) (is_cont c))
    ltac:(vm_compute; reflexivity) c Hc) as H.
  cbv beta in H. rewrite Hb in H. exact H.
Qed.

Lemma between_spec (lo c hi : Z) :
  Utf8.between lo c hi = true <-> (lo <= c <= hi)%Z.
Proof.
  unfold Utf8.between. rewrite andb_true_iff, !Z.leb_le. reflexivity.
Qed.

Lemma between_true (lo c hi : Z) :
  (lo <= c <= hi)%Z -> Utf8.between lo c hi = true.
Proof. apply between_spec. Qed.

Lemma between_false (lo c hi : Z) :
  ~ (lo <= c <= hi)%Z -> Utf8.between lo c hi = false.
Proof.
  intros H. destruct (Utf8.between lo c hi) eqn:E; [|reflexivity].
  apply between_spec in E. contradiction.
Qed.

Lemma strict_utf8_accepted_bounded (n : nat) :
  forall s, length s <= n ->
            Utf8.strict_utf8 s = true -> isValidUtf8 s = true.
Proof.
  induction n as [|n IH]; intros s Hlen Hs.
  - destruct s; [reflexivity | simpl in Hlen; lia].
  - destruct s as [|c r1]; [reflexivity|].
    cbn [Utf8.strict_utf8] in Hs. cbn [isValidUtf8]. cbn [length] in Hlen.
    destruct (Utf8.between 0 c 127) eqn:B1.
    { apply between_spec in B1.
      replace (c <? 128)%Z with true by (symmetry; apply Z.ltb_lt; lia).
      apply IH; [lia | exact Hs]. }
    destruct (Utf8.between 194 c 223) eqn:B2.
    { apply between_spec in B2.
      destruct (lead_byte_shape c ltac:(lia)) as (-> & -> & _).
      rewrite between_true by lia.
      destruct r1 as [|c1 r2]; [discriminate|].
      apply andb_true_iff in Hs. destruct Hs as [Hc1 Hs].
      rewrite (cont_byte_shape _ Hc1). cbn [negb].
      apply IH; [cbn [length] in Hlen; lia | exact Hs]. }
    destruct (Utf8.between 224 c 239) eqn:B3.
    { apply between_spec in B3.
      destruct (lead_byte_shape c ltac:(lia)) as (-> & -> & -> & _).
      rewrite between_false by lia. rewrite between_true by lia.
      destruct r1 as [|c1 [|c2 r3]]; try discriminate.
      apply andb_true_iff in Hs. destruct Hs as [Hs Hr].
      apply andb_true_iff in Hs. destruct Hs as [Hc1 Hc2].
      assert (Hc1' : Utf8.between 128 c1 191 = true).
      { destruct (c =? 224)%Z; [|destruct (c =? 237)%Z];
          apply between_spec in Hc1; apply between_true; lia. }
      rewrite (cont_byte_shape _ Hc1'), (cont_byte_shape _ Hc2).
      cbn [negb orb].
      apply IH; [cbn [length] in Hlen; lia | exact Hr]. }
    destruct (Utf8.between 240 c 244) eqn:B4; [|discriminate].
    apply between_spec in B4.
    destruct (lead_byte_shape c ltac:(lia)) as (-> & -> & -> & ->).
    rewrite !between_false by lia. rewrite between_true by lia.
    destruct r1 as [|c1 [|c2 [|c3 r4]]]; try discriminate.
    apply andb_true_iff in Hs. destruct Hs as [Hs Hr].
    apply andb_true_iff in Hs. destruct Hs as [Hs Hc3].
    apply andb_true_iff in Hs. destruct Hs as [Hc1 Hc2].
    assert (Hc1' : Utf8.between 128 c1 191 = true).
    { destruct (c =? 240)%Z; [|destruct (c =? 244)%Z];
        apply between_spec in Hc1; apply between_true; lia. }
    rewrite (cont_byte_shape _ Hc1'), (cont_byte_shape _ Hc2),
      (cont_byte_shape _ Hc3).
    cbn [negb orb].
    apply IH; [cbn [length] in Hlen; lia | exact Hr].
Qed.

(** Every strictly valid UTF-8 string passes [isValidUtf8]: the check never
    refuses valid text; what it lets through beyond that is the subject of
    C2. *)
Lemma strict_utf8_accepted (s : bytes) :
  Utf8.strict_utf8 s = true -> isValidUtf8 s = true.
Proof. apply (strict_utf8_accepted_bounded (length s)). lia. Qed.

(** Further byte sequences that are not UTF-8 and pass the check: a
    surrogate, a code point above U+10FFFF, an overlong three-byte form. *)
Example isValidUtf8_not_strict :
  map (fun s => (isValidUtf8 s, Utf8.strict_utf8 s))
      [[237; 160; 128]; [244; 144; 128; 128]; [224; 128; 128]]%Z
  = [(true, false); (true, false); (true, false)].
Proof. vm_compute. reflexivity. Qed.

(** C2: the overlong encoding [C0 80] is not strict UTF-8, yet [isValidUtf8]
    accepts it, and a masked TEXT frame carrying it is handed to the
    application: no CLOSE frame, state still OPEN. *)
Theorem C2_overlong_text_delivered :
  Utf8.strict_utf8 [192; 128]%Z = false
  /\ isValidUtf8 [192; 128]%Z = true
  /\ onDataReceived (Samples.instance OPEN [])
        (Samples.client_frame 129 [192; 128]%Z)
     = (8, Samples.instance OPEN [], [Packet [192; 128]%Z]).
Proof. repeat split; vm_compute; reflexivity. Qed.

(** ** RESP commands *)

Import PureRedisProtocol Surface.

Lemma bytes_eqb_eq (a b : bytes) : bytes_eqb a b = true -> a = b.
Proof. unfold bytes_eqb. intros H. apply bool_decide_eq_true in H. exact H. Qed.

Lemma unknown_reply_bytes (cmd : bytes) :
  nth 0 (unknown_reply cmd) 0%Z = 45%Z /\ nth 5 (unknown_reply cmd) 0%Z = 117%Z.
Proof. split; reflexivity. Qed.

(** A reply that differs from [-ERR unknown command ...] in its first byte,
    or in the first letter after [-ERR ]. *)
Lemma not_unknown_reply (r cmd : bytes) :
  nth 0 r 0%Z <> 45%Z \/ nth 5 r 0%Z <> 117%Z -> r <> unknown_reply cmd.
Proof.
  intros H E. subst r. destruct (unknown_reply_bytes cmd) as [H0 H5].
  destruct H as [H | H]; [apply H, H0 | apply H, H5].
Qed.

Ltac known_reply :=
  apply not_unknown_reply;
  first [ left; cbn; discriminate | right; cbn; discriminate ].

(** A command that is not COMMAND, PING, SET k v, GET k, DEL k... or
    KEYS pat is answered [-ERR unknown command '<CMD>'] and leaves the
    instance as it was; none of these six gets that answer. *)
Lemma command_surface_replies (p : PureRedisProtocol.t) (name : bytes)
    (rest : list bytes) :
  let args := name :: rest in
  let cmd := map toupper name in
  (command_surface cmd (length args) = false ->
   executeRedisCommand p args = (unknown_reply cmd, p))
  /\ (command_surface cmd (length args) = true ->
      fst (executeRedisCommand p args) <> unknown_reply cmd).
Proof.
  intros args cmd. unfold executeRedisCommand, command_surface.
  change (nth 0 args []) with name. fold cmd.
  destruct (bytes_eqb cmd (bytes_of_string "COMMAND")).
  { split; [discriminate | intros _; known_reply]. }
  destruct (bytes_eqb cmd (bytes_of_string "PING")).
  { split; [discriminate | intros _].
    destruct (length args =? 1); [known_reply|].
    destruct (length args =? 2); known_reply. }
  destruct (bytes_eqb cmd (bytes_of_string "SET") && (length args =? 3)).
  { split; [discriminate | intros _; known_reply]. }
  destruct (bytes_eqb cmd (bytes_of_string "GET") && (length args =? 2)).
  { split; [discriminate | intros _].
    destruct (m_stringData p !! nth 1 args []); known_reply. }
  destruct (bytes_eqb cmd (bytes_of_string "DEL") && (2 <=? length args)).
  { split; [discriminate | intros _].
    destruct (erase_all (skipn 1 args) (m_stringData p) 0). known_reply. }
  destruct (bytes_eqb cmd (bytes_of_string "KEYS") && (length args =? 2)).
  { split; [discriminate | intros _; known_reply]. }
  split; [intros _; reflexivity | discriminate].
Qed.

(** The claim as stated fails: none of LPUSH, LPOP, LRANGE, HSET, HGET and
    HKEYS is executed against the store; each is answered with the
    unknown-command error and the store stays empty. *)
Lemma C3_list_and_hash_commands_unknown :
  map (executeRedisCommand PureRedisProtocol.create) list_and_hash_commands
  = map (fun cmd => (unknown_reply (bytes_of_string cmd),
                     PureRedisProtocol.create))
        ["LPUSH"; "LPOP"; "LRANGE"; "HSET"; "HGET"; "HKEYS"].
Proof. vm_compute. reflexivity. Qed.

(** The string commands do reach the store (scenario 3 of the spec). *)
Example set_then_get :
  onClientDataReceived 3 PureRedisProtocol.create 5
    (Samples.lines ["*3"; "$3"; "SET"; "$1"; "k"; "$1"; "v";
                    "*2"; "$3"; "GET"; "$1"; "k"])
  = Some (Returned 47
            {| m_clientBuffers := {[5%Z := []]};
               m_stringData := {[bytes_of_string "k" := bytes_of_string "v"]} |}
            [(5%Z, bytes_of_string "+OK" ++ CRLF);
             (5%Z, bytes_of_string "$1" ++ CRLF ++ bytes_of_string "v" ++ CRLF)]).
Proof. vm_compute. reflexivity. Qed.

(** ** Searching a string *)

Lemma starts_with_app (needle post : bytes) :
  starts_with needle (needle ++ post) = true.
Proof.
  induction needle as [|n needle IH]; simpl; [reflexivity|].
  rewrite Z.eqb_refl. exact IH.
Qed.

Lemma starts_with_inv (needle s : bytes) :
  starts_with needle s = true -> exists post, s = needle ++ post.
Proof.
  revert s. induction needle as [|n needle IH]; intros s H; simpl in *.
  - exists s. reflexivity.
  - destruct s as [|c s]; [discriminate|].
    apply andb_true_iff in H. destruct H as [Hc Hs].
    apply Z.eqb_eq in Hc. subst c.
    destruct (IH s Hs) as [post ->]. exists post. reflexivity.
Qed.

Lemma find_here_found (needle pre post : bytes) (idx : nat) :
  exists k, find_here needle (pre ++ needle ++ post) idx = Some k.
Proof.
  revert idx. induction pre as [|c pre IH]; intros idx.
  - simpl app. destruct (needle ++ post) as [|c t] eqn:E.
    + simpl. destruct needle; [eauto | discriminate].
    + simpl find_here. rewrite <- E, starts_with_app. eauto.
  - simpl. destruct (starts_with needle (c :: pre ++ needle ++ post)); eauto.
Qed.

Lemma find_here_contains (needle s : bytes) (idx k : nat) :
  find_here needle s idx = Some k -> contains needle s.
Proof.
  revert idx. induction s as [|c s IH]; intros idx H; simpl in H.
  - destruct needle; [|discriminate]. exists [], []. reflexivity.
  - destruct (starts_with needle (c :: s)) eqn:E.
    + destruct (starts_with_inv _ _ E) as [post Hp].
      exists [], post. exact Hp.
    + destruct (IH _ H) as (pre & post & ->).
      exists (c :: pre), post. reflexivity.
Qed.

(** [find] from the start is [npos] exactly when the needle does not occur. *)
Lemma find_npos (needle s : bytes) :
  ~ contains needle s -> find needle 0 s = None.
Proof.
  intros H. unfold find. rewrite drop_0. cbn [Nat.leb].
  destruct (find_here needle s 0) eqn:E; [|reflexivity].
  exfalso. apply H. eapply find_here_contains. exact E.
Qed.

Lemma find_some (needle s : bytes) :
  contains needle s -> exists k, find needle 0 s = Some k.
Proof.
  intros (pre & post & ->). unfold find. rewrite drop_0. cbn [Nat.leb].
  apply find_here_found.
Qed.

Lemma find_prefix (needle post : bytes) :
  exists k, find needle 0 (needle ++ post) = Some k
            /\ (needle <> [] -> k = 0).
Proof.
  unfold find. rewrite drop_0. cbn [Nat.leb].
  destruct (needle ++ post) as [|c t] eqn:E.
  - simpl. destruct needle; [|discriminate]. eexists. split; [reflexivity|].
    intros H. contradiction.
  - simpl. rewrite <- E, starts_with_app. eexists. split; reflexivity.
Qed.

(** ** The handshake *)

(** C4 (as amended): a read that does not yet hold the Upgrade header, the
    websocket keyword or the Sec-WebSocket-Key header fails the handshake:
    the instance goes to CLOSED with the error callback, no 101 response is
    made, and the next read is consumed without effect. A single read that
    starts with [GET ] and holds the three does complete: OPEN, buffer
    cleared, and one raw frame, the 101 response. *)
Theorem C4_handshake_in_one_read (ws : WebSocketProtocol.t) (r1 r2 : bytes) :
  state_ ws = CONNECTING ->
  ((~ contains (bytes_of_string "Upgrade:") r1
    /\ ~ contains (bytes_of_string "upgrade:") r1)
   \/ (~ contains (bytes_of_string "websocket") r1
       /\ ~ contains (bytes_of_string "WebSocket") r1)
   \/ (~ contains (bytes_of_string "Sec-WebSocket-Key:") r1
       /\ ~ contains (bytes_of_string "sec-websocket-key:") r1) ->
   onDataReceived ws r1
   = (length r1, setState ws CLOSED, call_error ws handshake_failed)
   /\ onDataReceived (setState ws CLOSED) r2
      = (length r2, setState ws CLOSED, []))
  /\ (rawFrameCallback_ ws = true ->
      (exists rest, r1 = bytes_of_string "GET " ++ rest) ->
      contains (bytes_of_string "Upgrade:") r1 ->
      contains (bytes_of_string "websocket") r1 ->
      contains (bytes_of_string "Sec-WebSocket-Key:") r1 ->
      exists clientKey,
        onDataReceived ws r1
        = (length r1, setBuffer (setState ws OPEN) [],
           [RawFrame (generateHandshakeResponse clientKey)])).
Proof.
  intros Hst. split.
  - intros Hmiss. split; [|reflexivity].
    unfold onDataReceived. rewrite Hst.
    assert (Hh : handleHandshake ws r1 = (false, [])).
    { unfold handleHandshake.
      destruct (negb _); [reflexivity|].
      destruct Hmiss as [[H1 H2] | [[H1 H2] | [H1 H2]]].
      - rewrite (find_npos _ _ H1), (find_npos _ _ H2). reflexivity.
      - destruct (is_npos _ && is_npos _); [reflexivity|].
        rewrite (find_npos _ _ H1), (find_npos _ _ H2). reflexivity.
      - destruct (is_npos _ && is_npos _); [reflexivity|].
        destruct (is_npos _ && is_npos _); [reflexivity|].
        unfold find_key_header.
        rewrite (find_npos _ _ H1), (find_npos _ _ H2). reflexivity. }
    rewrite Hh. reflexivity.
  - intros Hraw [rest Hget] Hup Hws Hkey.
    unfold onDataReceived. rewrite Hst.
    assert (Hh : exists clientKey,
               handleHandshake ws r1
               = (true, [RawFrame (generateHandshakeResponse clientKey)])).
    { unfold handleHandshake.
      destruct (find_prefix (bytes_of_string "GET ") rest) as (k & Hk & Hk0).
      rewrite <- Hget in Hk. rewrite Hk, Hk0 by discriminate. cbn [negb].
      destruct (find_some _ _ Hup) as [k1 ->].
      destruct (find_some _ _ Hws) as [k2 ->].
      cbn [is_npos andb].
      unfold find_key_header. destruct (find_some _ _ Hkey) as [k3 ->].
      rewrite Hraw. eexists. reflexivity. }
    destruct Hh as [clientKey ->]. exists clientKey. reflexivity.
Qed.

Lemma not_contains (needle s : bytes) :
  find needle 0 s = None -> ~ contains needle s.
Proof.
  intros H Hc. destruct (find_some _ _ Hc) as [k Hk]. congruence.
Qed.

Lemma C4_handshake_in_one_read_witness :
  state_ (Samples.instance CONNECTING []) = CONNECTING
  /\ ~ contains (bytes_of_string "Upgrade:") Samples.upgrade_first_read
  /\ ~ contains (bytes_of_string "upgrade:") Samples.upgrade_first_read
  /\ onDataReceived (Samples.instance CONNECTING []) Samples.upgrade_first_read
     = (length Samples.upgrade_first_read, Samples.instance CLOSED [],
        [Error handshake_failed])
  /\ onDataReceived (Samples.instance CLOSED []) Samples.upgrade_second_read
     = (length Samples.upgrade_second_read, Samples.instance CLOSED [], []).
Proof.
  assert (H1 : ~ contains (bytes_of_string "Upgrade:") Samples.upgrade_first_read)
    by (apply not_contains; reflexivity).
  assert (H2 : ~ contains (bytes_of_string "upgrade:") Samples.upgrade_first_read)
    by (apply not_contains; reflexivity).
  split; [reflexivity | split; [exact H1 | split; [exact H2 |]]].
  exact (proj1 (C4_handshake_in_one_read (Samples.instance CONNECTING [])
                  Samples.upgrade_first_read Samples.upgrade_second_read
                  eq_refl)
               (or_introl (conj H1 H2))).
Defined.

(** The claim as stated fails on the upgrade request of RFC 6455 cut inside
    the [Upgrade] header name: in one read it completes, in two reads the
    instance is CLOSED after the first, no 101 response is made, and the
    second read changes nothing. *)
Lemma C4_split_request_is_closed :
  onDataReceived (Samples.instance CONNECTING [])
    (Samples.upgrade_first_read ++ Samples.upgrade_second_read)
  = (length (Samples.upgrade_first_read ++ Samples.upgrade_second_read),
     Samples.instance OPEN [],
     [RawFrame (generateHandshakeResponse Samples.sample_key)])
  /\ onDataReceived (Samples.instance CONNECTING []) Samples.upgrade_first_read
     = (length Samples.upgrade_first_read, Samples.instance CLOSED [],
        [Error handshake_failed])
  /\ onDataReceived (Samples.instance CLOSED []) Samples.upgrade_second_read
     = (length Samples.upgrade_second_read, Samples.instance CLOSED [], []).
Proof. repeat split; vm_compute; reflexivity. Qed.

(** ** Decimal numbers *)

Lemma isdigit_digit (d : nat) : d < 10 -> isdigit (digit d) = true.
Proof.
  intros H. unfold isdigit, digit.
  apply andb_true_iff. split; apply Z.leb_le; lia.
Qed.

Lemma digits_fuel_app (fuel n : nat) (acc : bytes) :
  n < fuel ->
  exists d ds, digits_fuel fuel n acc = d :: ds ++ acc
               /\ Forall is_digit_byte (d :: ds).
Proof.
  revert n acc. induction fuel as [|f IH]; intros n acc Hn; [lia|].
  cbn [digits_fuel]. destruct (n <? 10) eqn:E.
  - apply Nat.ltb_lt in E. exists (digit n), []. split; [reflexivity|].
    repeat constructor; unfold digit; lia.
  - apply Nat.ltb_ge in E.
    assert (Hd : n / 10 < f).
    { pose proof (Nat.div_lt n 10). lia. }
    destruct (IH (n / 10) (digit (n mod 10) :: acc) Hd) as (d & ds & Heq & Hall).
    exists d, (ds ++ [digit (n mod 10)]). split.
    + rewrite Heq. rewrite <- app_assoc. reflexivity.
    + rewrite app_comm_cons. apply Forall_app. split; [exact Hall|].
      pose proof (Nat.mod_upper_bound n 10).
      repeat constructor; unfold digit; lia.
Qed.

Lemma digits_fuel_read (fuel n : nat) (acc : bytes) :
  n < fuel ->
  read_digits (digits_fuel fuel n acc) None
  = read_digits acc (Some (Z.of_nat n)).
Proof.
  revert n acc. induction fuel as [|f IH]; intros n acc Hn; [lia|].
  cbn [digits_fuel]. destruct (n <? 10) eqn:E.
  - apply Nat.ltb_lt in E. cbn [read_digits].
    rewrite isdigit_digit by assumption.
    do 2 f_equal. unfold digit. cbn [default from_option]. unfold id. lia.
  - apply Nat.ltb_ge in E.
    assert (Hd : n / 10 < f).
    { pose proof (Nat.div_lt n 10). lia. }
    rewrite IH by assumption. cbn [read_digits].
    pose proof (Nat.mod_upper_bound n 10).
    rewrite isdigit_digit by lia.
    do 2 f_equal. unfold digit. cbn [default from_option]. unfold id.
    pose proof (Nat.div_mod_eq n 10). lia.
Qed.

(** [stoll] reads back what [to_string] wrote, within [int64_t]. *)
Lemma stoll_to_string_nat_cases (n : nat) :
  stoll (to_string_nat n)
  = if (Z.of_nat n <=? INT64_MAX)%Z then Value (Z.of_nat n)
    else Throws out_of_range.
Proof.
  unfold stoll, to_string_nat.
  destruct (digits_fuel_app (S n) n [] (Nat.lt_succ_diag_r n))
    as (d & ds & Heq & Hall).
  pose proof (digits_fuel_read (S n) n [] (Nat.lt_succ_diag_r n)) as Hread.
  rewrite Heq in *. clear Heq.
  assert (Hd : is_digit_byte d) by (inversion Hall; assumption).
  unfold is_digit_byte in Hd.
  assert (Hsp : isspace d = false).
  { unfold isspace, mem. simpl.
    repeat (rewrite (proj2 (Z.eqb_neq _ _)) by lia). reflexivity. }
  simpl skip_space. rewrite Hsp.
  rewrite (proj2 (Z.eqb_neq d 45)) by lia.
  rewrite (proj2 (Z.eqb_neq d 43)) by lia.
  rewrite Hread. simpl read_digits.
  assert (Hmin : (INT64_MIN <=? Z.of_nat n)%Z = true)
    by (apply Z.leb_le; unfold INT64_MIN; lia).
  cbv beta iota. rewrite Hmin. reflexivity.
Qed.

Lemma stoll_to_string_nat (n : nat) :
  (Z.of_nat n <= INT64_MAX)%Z ->
  stoll (to_string_nat n) = Value (Z.of_nat n).
Proof.
  intros H. rewrite stoll_to_string_nat_cases.
  apply Z.leb_le in H. rewrite H. reflexivity.
Qed.

Lemma to_string_nat_no_CR (n : nat) :
  Forall (fun c => c <> CR) (to_string_nat n).
Proof.
  unfold to_string_nat.
  destruct (digits_fuel_app (S n) n [] (Nat.lt_succ_diag_r n))
    as (d & ds & -> & Hall).
  rewrite app_nil_r.
  eapply Forall_impl; [exact Hall|].
  unfold is_digit_byte, CR. intros c Hc. lia.
Qed.

(** ** RESP decoding *)

Lemma find_here_field (fld rest : bytes) (idx : nat) :
  Forall (fun c => c <> CR) fld ->
  find_here CRLF (fld ++ CRLF ++ rest) idx = Some (idx + length fld).
Proof.
  intros H. revert idx. induction H as [|c fld Hc _ IH]; intros idx.
  - simpl. f_equal. lia.
  - cbn [app find_here starts_with CRLF].
    rewrite (proj2 (Z.eqb_neq CR c)) by congruence. cbn [andb].
    rewrite IH. f_equal. simpl. lia.
Qed.

(** The first CRLF after a field that holds no CR is the one that ends it. *)
Lemma find_CRLF_field (head fld rest : bytes) :
  Forall (fun c => c <> CR) fld ->
  find CRLF (length head) (head ++ fld ++ CRLF ++ rest)
  = Some (length head + length fld).
Proof.
  intros H. unfold find.
  replace (length head <=? length (head ++ fld ++ CRLF ++ rest)) with true
    by (symmetry; apply Nat.leb_le; rewrite length_app; lia).
  rewrite drop_app_length. apply find_here_field. exact H.
Qed.

Lemma substr_middle (head mid rest : bytes) :
  substr (length head) (length mid) (head ++ mid ++ rest) = mid.
Proof. unfold substr. rewrite drop_app_length. apply take_app_length. Qed.

Lemma formatBulkString_length (x : bytes) :
  length (formatBulkString x)
  = 1 + length (to_string_nat (length x)) + 2 + length x + 2.
Proof. unfold formatBulkString. rewrite !length_app. simpl. lia. Qed.

(** One turn of the loop over a well-formed bulk string. *)
Lemma decode_bulks_step (n : nat) (head x tail : bytes) (out : list bytes) :
  (Z.of_nat (length (head ++ formatBulkString x ++ tail)) <= INT64_MAX)%Z ->
  decode_bulks (S n) (head ++ formatBulkString x ++ tail) (length head) out
  = decode_bulks n (head ++ formatBulkString x ++ tail)
      (length head + length (formatBulkString x)) (out ++ [x]).
Proof.
  intros Hmax.
  set (buf := head ++ formatBulkString x ++ tail) in *.
  set (ds := to_string_nat (length x)).
  assert (Hlen : length buf
                 = length head + (1 + length ds + 2 + length x + 2) + length tail).
  { unfold buf. rewrite !length_app, formatBulkString_length. fold ds. lia. }
  assert (Hbuf1 : buf = (head ++ [36%Z]) ++ ds ++ CRLF ++ (x ++ CRLF ++ tail)).
  { unfold buf, formatBulkString. fold ds. rewrite <- !app_assoc. reflexivity. }
  assert (Hbuf2 : buf = (head ++ [36%Z] ++ ds ++ CRLF) ++ x ++ (CRLF ++ tail)).
  { unfold buf, formatBulkString. fold ds. rewrite <- !app_assoc. reflexivity. }
  assert (Hbuf3 : buf = head ++ 36%Z :: (ds ++ CRLF ++ x ++ CRLF ++ tail)).
  { unfold buf, formatBulkString. fold ds. rewrite <- !app_assoc. reflexivity. }
  unfold INT64_MAX in Hmax.
  cbn [decode_bulks].
  replace (length buf <=? length head + 1) with false
    by (symmetry; apply Nat.leb_gt; lia).
  replace (nth (length head) buf 0%Z) with 36%Z
    by (rewrite Hbuf3, nth_middle; reflexivity).
  cbn [Z.eqb Pos.eqb negb].
  assert (Hfind : find CRLF (length head + 1) buf
                  = Some (length head + 1 + length ds)).
  { rewrite Hbuf1.
    replace (length head + 1) with (length (head ++ [36%Z]))
      by (rewrite length_app; reflexivity).
    apply find_CRLF_field, to_string_nat_no_CR. }
  rewrite Hfind.
  replace (length head + 1 + length ds - length head - 1) with (length ds) by lia.
  assert (Hsub : substr (length head + 1) (length ds) buf = ds).
  { rewrite Hbuf1.
    replace (length head + 1) with (length (head ++ [36%Z]))
      by (rewrite length_app; reflexivity).
    apply substr_middle. }
  rewrite Hsub. unfold ds at 1.
  rewrite stoll_to_string_nat by (unfold INT64_MAX; lia).
  set (pos1 := length head + 1 + length ds + 2).
  assert (Hpast : ((Z.of_nat pos1 + Z.of_nat (length x) + 2) mod SIZE_MOD
                   = Z.of_nat (pos1 + length x + 2))%Z).
  { unfold SIZE_MOD. rewrite Z.mod_small; unfold pos1; lia. }
  rewrite Hpast.
  replace (Z.of_nat (pos1 + length x + 2) >? Z.of_nat (length buf))%Z with false
    by (symmetry; rewrite Z.gtb_ltb; apply Z.ltb_ge; unfold pos1; lia).
  rewrite Nat2Z.id.
  assert (Hr : Z.to_nat (Z.min (Z.of_nat (length x) mod SIZE_MOD)
                               (Z.of_nat (length buf - pos1)))
               = length x).
  { unfold SIZE_MOD. rewrite Z.mod_small by lia. unfold pos1. lia. }
  rewrite Hr.
  assert (Hitem : substr pos1 (length x) buf = x).
  { rewrite Hbuf2.
    replace pos1 with (length (head ++ [36%Z] ++ ds ++ CRLF))
      by (unfold pos1; rewrite !length_app; simpl; lia).
    apply substr_middle. }
  rewrite Hitem.
  f_equal. rewrite formatBulkString_length. fold ds. unfold pos1. lia.
Qed.

(** The loop over a run of well-formed bulk strings, [m] turns being left
    for what follows them. *)
Lemma decode_bulks_prefix (pre : list bytes) (m : nat) (head tail : bytes)
    (out : list bytes) :
  (Z.of_nat (length (head ++ bulks pre ++ tail)) <= INT64_MAX)%Z ->
  decode_bulks (length pre + m) (head ++ bulks pre ++ tail) (length head) out
  = decode_bulks m (head ++ bulks pre ++ tail)
      (length head + length (bulks pre)) (out ++ pre).
Proof.
  revert head out. induction pre as [|x pre IH]; intros head out Hmax.
  - simpl. rewrite Nat.add_0_r, app_nil_r. reflexivity.
  - unfold bulks in *. cbn [map concat length Nat.add] in *.
    rewrite <- app_assoc in *.
    rewrite decode_bulks_step by exact Hmax.
    replace (head ++ formatBulkString x ++ concat (map formatBulkString pre) ++ tail)
      with ((head ++ formatBulkString x) ++ concat (map formatBulkString pre) ++ tail)
      in * by (rewrite <- app_assoc; reflexivity).
    replace (length head + length (formatBulkString x))
      with (length (head ++ formatBulkString x))
      by (rewrite length_app; reflexivity).
    rewrite IH by exact Hmax.
    f_equal; [rewrite !length_app; lia | rewrite <- app_assoc; reflexivity].
Qed.

Lemma formatArray_shape (l : list bytes) :
  formatArray l
  = ([42%Z] ++ to_string_nat (length l) ++ CRLF) ++ bulks l ++ [].
Proof. unfold formatArray, bulks. rewrite app_nil_r, <- !app_assoc. reflexivity. Qed.

(** The head of a message: the count line. *)
Lemma resp_decode_count (fld rest : bytes) :
  Forall (fun c => c <> CR) fld ->
  resp_decode ([42%Z] ++ fld ++ CRLF ++ rest)
  = match stoll fld with
    | Throws e => Raised e
    | Value count =>
        decode_bulks (Z.to_nat count) ([42%Z] ++ fld ++ CRLF ++ rest)
                     (length ([42%Z] ++ fld ++ CRLF)) []
    end.
Proof.
  intros H. unfold resp_decode. cbn [app Z.eqb Pos.eqb negb].
  change (42%Z :: fld ++ CRLF ++ rest) with ([42%Z] ++ fld ++ CRLF ++ rest).
  change 1 with (length [42%Z]) at 1.
  rewrite find_CRLF_field by exact H.
  replace (length [42%Z] + length fld - 1) with (length fld) by (simpl; lia).
  change 1 with (length [42%Z]) at 1. rewrite substr_middle.
  destruct (stoll fld); [|reflexivity].
  f_equal. cbn [length]. rewrite length_app. simpl. lia.
Qed.

(** C9: decoding the array encoding of a list of byte strings gives the list
    back and consumes exactly the encoding, for any list whose encoding has
    a size an [int64_t] can hold. *)
Theorem C9_resp_array_roundtrip (l : list bytes) :
  (Z.of_nat (length (formatArray l)) <= INT64_MAX)%Z ->
  resp_decode (formatArray l) = Decoded l (length (formatArray l)).
Proof.
  intros Hmax.
  assert (Hl : (Z.of_nat (length l) <= INT64_MAX)%Z).
  { pose proof (to_string_nat_no_CR (length l)).
    assert (length l <= length (bulks l)).
    { clear. induction l as [|x l IH]; [simpl; lia|].
      unfold bulks in *. cbn [map concat length].
      rewrite length_app, formatBulkString_length. lia. }
    rewrite formatArray_shape, !length_app in Hmax. lia. }
  unfold formatArray at 1. fold (bulks l).
  rewrite resp_decode_count by apply to_string_nat_no_CR.
  rewrite stoll_to_string_nat by exact Hl.
  rewrite Nat2Z.id.
  pose proof (decode_bulks_prefix l 0 ([42%Z] ++ to_string_nat (length l) ++ CRLF)
                [] []) as Hp.
  rewrite Nat.add_0_r, !app_nil_r in Hp.
  replace ([42%Z] ++ to_string_nat (length l) ++ CRLF ++ bulks l)
    with (([42%Z] ++ to_string_nat (length l) ++ CRLF) ++ bulks l)
    by (rewrite <- !app_assoc; reflexivity).
  rewrite Hp.
  - cbn [decode_bulks app]. f_equal.
    rewrite formatArray_shape, app_nil_r. symmetry. apply length_app.
  - rewrite formatArray_shape, app_nil_r in Hmax. exact Hmax.
Qed.

Lemma C9_resp_array_roundtrip_witness :
  (Z.of_nat (length (formatArray [[1; 13; 10; 2]; []; [36; 42; 0; 255]]%Z))
   <= INT64_MAX)%Z
  /\ resp_decode (formatArray [[1; 13; 10; 2]; []; [36; 42; 0; 255]]%Z)
     = Decoded [[1; 13; 10; 2]; []; [36; 42; 0; 255]]%Z
         (length (formatArray [[1; 13; 10; 2]; []; [36; 42; 0; 255]]%Z)).
Proof.
  assert (H : (Z.of_nat (length (formatArray [[1; 13; 10; 2]; []; [36; 42; 0; 255]]%Z))
               <= INT64_MAX)%Z) by (vm_compute; discriminate).
  split; [exact H|].
  exact (C9_resp_array_roundtrip [[1; 13; 10; 2]; []; [36; 42; 0; 255]]%Z H).
Defined.

Lemma decode_bulks_unreadable (n : nat) (head bad rest : bytes)
    (out : list bytes) (e : exception) :
  Forall (fun c => c <> CR) bad -> stoll bad = Throws e ->
  decode_bulks (S n) (head ++ [36%Z] ++ bad ++ CRLF ++ rest) (length head) out
  = Raised e.
Proof.
  intros Hcr Hbad.
  set (buf := head ++ [36%Z] ++ bad ++ CRLF ++ rest).
  assert (Hlen : length buf = length head + 1 + length bad + 2 + length rest).
  { unfold buf. rewrite !length_app. simpl. lia. }
  assert (Hbuf : buf = (head ++ [36%Z]) ++ bad ++ CRLF ++ rest).
  { unfold buf. rewrite <- !app_assoc. reflexivity. }
  cbn [decode_bulks].
  replace (length buf <=? length head + 1) with false
    by (symmetry; apply Nat.leb_gt; lia).
  replace (nth (length head) buf 0%Z) with 36%Z
    by (unfold buf; cbn [app]; rewrite nth_middle; reflexivity).
  cbn [Z.eqb Pos.eqb negb].
  rewrite Hbuf.
  replace (length head + 1) with (length (head ++ [36%Z]))
    by (rewrite length_app; reflexivity).
  rewrite find_CRLF_field by exact Hcr.
  replace (length (head ++ [36%Z]) + length bad - length head - 1)
    with (length bad) by (rewrite length_app; simpl; lia).
  rewrite substr_middle, Hbad. reflexivity.
Qed.

(** The length field of the next bulk string after well-formed ones, when
    [std::stoll] finds no number in it. *)
Lemma unreadable_bulk_length_raises (bad rest : bytes) (e : exception)
    (count : nat) (pre : list bytes) :
  Forall (fun c => c <> CR) bad -> stoll bad = Throws e ->
  length pre < count -> (Z.of_nat count <= INT64_MAX)%Z ->
  (Z.of_nat (length ([42%Z] ++ to_string_nat count ++ CRLF ++ bulks pre
                     ++ [36%Z] ++ bad ++ CRLF ++ rest)) <= INT64_MAX)%Z ->
  resp_decode ([42%Z] ++ to_string_nat count ++ CRLF ++ bulks pre
               ++ [36%Z] ++ bad ++ CRLF ++ rest)
  = Raised e.
Proof.
  intros Hcr Hbad Hpre Hcount Hmax.
  rewrite resp_decode_count by apply to_string_nat_no_CR.
  rewrite stoll_to_string_nat by exact Hcount.
  rewrite Nat2Z.id.
  replace count with (length pre + S (count - length pre - 1)) at 1 by lia.
  set (head := [42%Z] ++ to_string_nat count ++ CRLF).
  replace ([42%Z] ++ to_string_nat count ++ CRLF ++ bulks pre
           ++ [36%Z] ++ bad ++ CRLF ++ rest)
    with (head ++ bulks pre ++ ([36%Z] ++ bad ++ CRLF ++ rest)) in *
    by (unfold head; rewrite <- !app_assoc; reflexivity).
  rewrite decode_bulks_prefix by exact Hmax.
  replace (head ++ bulks pre ++ [36%Z] ++ bad ++ CRLF ++ rest)
    with ((head ++ bulks pre) ++ [36%Z] ++ bad ++ CRLF ++ rest)
    by (rewrite <- !app_assoc; reflexivity).
  replace (length head + length (bulks pre)) with (length (head ++ bulks pre))
    by (rewrite length_app; reflexivity).
  apply decode_bulks_unreadable; assumption.
Qed.

(** A count that [std::stoll] reads as zero or negative is decoded as an
    empty command that takes the count line only. *)
Lemma count_not_positive (fld rest : bytes) (count : Z) :
  Forall (fun c => c <> CR) fld -> stoll fld = Value count ->
  (count <= 0)%Z ->
  resp_decode ([42%Z] ++ fld ++ CRLF ++ rest) = Decoded [] (length fld + 3).
Proof.
  intros Hfld Hval Hcount.
  rewrite resp_decode_count by exact Hfld. rewrite Hval.
  replace (Z.to_nat count) with 0 by lia.
  cbn [decode_bulks]. f_equal. rewrite !length_app. simpl. lia.
Qed.

(** Why the receive loop carries fuel: a negative bulk length can bring
    [consumed] to 0, the same command is then decoded again on the same
    buffer, and no number of turns ends the loop. *)
Lemma commandLoop_may_not_end (fuel : nat) :
  forall p clientFd totalProcessed sent,
    commandLoop fuel p clientFd Samples.rewinding_message totalProcessed sent
    = None.
Proof.
  induction fuel as [|f IH]; intros p clientFd totalProcessed sent;
    [reflexivity|].
  cbn [commandLoop].
  assert (H : resp_decode Samples.rewinding_message = Decoded [[88; 88]%Z] 0)
    by (vm_compute; reflexivity).
  rewrite H. destruct (executeRedisCommand p [[88; 88]%Z]) as [response p1].
  rewrite drop_0. apply IH.
Qed.

(** ** The send queue *)

Import TcpServer.

Lemma drain_ledger (kernel : nat -> send_result) (q : list bytes) :
  forall calls taken q' calls' taken' failed,
    drain kernel q calls taken = (q', calls', taken', failed) ->
    taken' ++ concat q' = taken ++ concat q.
Proof.
  induction q as [|buffer rest IH]; intros calls taken q' calls' taken' failed H.
  - simpl in H. inversion H; subst. reflexivity.
  - cbn [drain] in H. destruct (kernel calls) as [sent| |].
    + destruct (sent <? length buffer).
      * inversion H; subst. cbn [concat].
        rewrite <- app_assoc, (app_assoc (firstn sent buffer)), take_drop.
        reflexivity.
      * rewrite (IH _ _ _ _ _ _ H). cbn [concat].
        rewrite <- app_assoc. reflexivity.
    + inversion H; subst. reflexivity.
    + inversion H; subst. reflexivity.
Qed.

(** What a flush of a non-empty queue leaves, as long as the connection is
    not torn down by a failed [send]. *)
Lemma flush_alive (kernel : nat -> send_result) (s : TcpServer.t) (fd : Z) :
  is_Some (m_clients s !! fd) ->
  is_Some (m_clients (flushSendBuffer kernel s fd) !! fd) ->
  wire (flushSendBuffer kernel s fd) fd
    ++ concat (queue (flushSendBuffer kernel s fd) fd)
  = wire s fd ++ concat (queue s fd)
  /\ (queue (flushSendBuffer kernel s fd) fd <> [] ->
      m_io (flushSendBuffer kernel s fd) !! fd = m_io s !! fd)
  /\ (queue s fd <> [] -> queue (flushSendBuffer kernel s fd) fd = [] ->
      m_io (flushSendBuffer kernel s fd) !! fd = Some READ).
Proof.
  intros Hin. unfold flushSendBuffer, queue.
  destruct (m_sendBuffers s !! fd) as [[|b q]|] eqn:Hq.
  - intros _. rewrite Hq. cbn. repeat split; congruence.
  - destruct (drain kernel (b :: q) (send_calls s) []) as [[[q' calls] taken] failed] eqn:Hd.
    pose proof (drain_ledger _ _ _ _ _ _ _ _ Hd) as Hl. cbn [app] in Hl.
    destruct failed.
    + unfold handleClose_under_send_lock, handleClose. cbn [m_clients].
      destruct Hin as [c Hc]. rewrite Hc.
      cbn [record_fault m_clients]. rewrite lookup_delete_eq.
      intros [? ?]. discriminate.
    + intros _. destruct q' as [|b' q'].
      * unfold wire. cbn. rewrite !lookup_insert_eq. cbn.
        repeat split; try congruence.
        cbn [concat] in Hl. rewrite app_nil_r in Hl.
        rewrite app_nil_r, Hl. reflexivity.
      * unfold wire. cbn [m_sendBuffers written m_io]. rewrite !lookup_insert_eq.
        cbn [default from_option]. unfold id.
        repeat split; try congruence.
        rewrite <- app_assoc, Hl. reflexivity.
  - intros _. rewrite Hq. cbn. repeat split; congruence.
Qed.

Lemma queue_setQueue (s : TcpServer.t) (fd : Z) (q : list bytes) :
  queue (setQueue s fd q) fd = q.
Proof. unfold queue, setQueue. cbn. rewrite lookup_insert_eq. reflexivity. Qed.

Lemma wire_setQueue (s : TcpServer.t) (fd : Z) (q : list bytes) :
  wire (setQueue s fd q) fd = wire s fd.
Proof. reflexivity. Qed.

Lemma wire_modifyFd (s : TcpServer.t) (fd : Z) (mask : interest) :
  wire (modifyFd s fd mask) fd = wire s fd.
Proof. reflexivity. Qed.

Lemma queue_modifyFd (s : TcpServer.t) (fd : Z) (mask : interest) :
  queue (modifyFd s fd mask) fd = queue s fd.
Proof. reflexivity. Qed.

Lemma write_registered_modifyFd (s : TcpServer.t) (fd : Z) (mask : interest) :
  write_registered (modifyFd s fd mask) fd = want_write mask.
Proof. unfold write_registered, modifyFd. cbn. rewrite lookup_insert_eq. reflexivity. Qed.

Lemma write_registered_io (s s' : TcpServer.t) (fd : Z) :
  m_io s' !! fd = m_io s !! fd -> write_registered s' fd = write_registered s fd.
Proof. unfold write_registered. intros ->. reflexivity. Qed.

(** One step of the send path: an enqueue, a flush, and the case of a
    partial [send]. *)
Lemma send_queue_step (kernel : nat -> send_result)
    (s : TcpServer.t) (fd : Z) :
  is_Some (m_clients s !! fd) ->
  (queue s fd <> [] -> write_registered s fd = true) ->
  (forall data, data <> [] ->
     is_Some (m_clients (sendData kernel s fd data) !! fd) ->
     wire (sendData kernel s fd data) fd
       ++ concat (queue (sendData kernel s fd data) fd)
     = wire s fd ++ concat (queue s fd) ++ data
     /\ write_registered (sendData kernel s fd data) fd
        = negb (is_nil (queue (sendData kernel s fd data) fd)))
  /\ (is_Some (m_clients (flushSendBuffer kernel s fd) !! fd) ->
      wire (flushSendBuffer kernel s fd) fd
        ++ concat (queue (flushSendBuffer kernel s fd) fd)
      = wire s fd ++ concat (queue s fd)
      /\ (queue (flushSendBuffer kernel s fd) fd <> [] ->
          write_registered (flushSendBuffer kernel s fd) fd = true)
      /\ (queue s fd <> [] -> queue (flushSendBuffer kernel s fd) fd = [] ->
          write_registered (flushSendBuffer kernel s fd) fd = false))
  /\ (forall head rest n,
        queue s fd = head :: rest ->
        kernel (send_calls s) = Sent n -> n < length head ->
        queue (flushSendBuffer kernel s fd) fd = skipn n head :: rest
        /\ wire (flushSendBuffer kernel s fd) fd = wire s fd ++ firstn n head
        /\ write_registered (flushSendBuffer kernel s fd) fd = true).
Proof.
  intros Hin Hinv. split; [|split].
  - intros data Hdata. unfold sendData.
    destruct (length data =? 0) eqn:E.
    { apply Nat.eqb_eq in E. destruct data; [contradiction|discriminate]. }
    set (s1 := setQueue s fd (queue s fd ++ [data])).
    set (s2 := flushSendBuffer kernel s1 fd).
    rewrite queue_setQueue.
    assert (Hq1 : queue s1 fd = queue s fd ++ [data]) by apply queue_setQueue.
    assert (Hne1 : queue s1 fd <> []).
    { rewrite Hq1. destruct (queue s fd); discriminate. }
    assert (Halive : is_Some (m_clients s2 !! fd) ->
                     wire s2 fd ++ concat (queue s2 fd)
                     = wire s fd ++ concat (queue s fd) ++ data
                     /\ (queue s2 fd = [] -> m_io s2 !! fd = Some READ)).
    { intros H2. destruct (flush_alive kernel s1 fd Hin H2) as (Hl & _ & Hio).
      fold s2 in Hl, Hio. split.
      - rewrite Hl, Hq1, concat_app. cbn [concat]. rewrite app_nil_r.
        reflexivity.
      - intros Hnil. apply Hio; assumption. }
    destruct (queue s2 fd) as [|b q] eqn:Hq2.
    + intros H. destruct (Halive H) as [Hl Hio]. split.
      * rewrite wire_setQueue, queue_setQueue. exact Hl.
      * rewrite queue_setQueue. cbn [is_nil negb].
        rewrite (write_registered_io s2 (setQueue s2 fd []) fd eq_refl).
        unfold write_registered. rewrite (Hio eq_refl). reflexivity.
    + intros H. destruct (Halive H) as [Hl Hio]. split.
      * rewrite wire_modifyFd, queue_modifyFd, wire_setQueue, queue_setQueue.
        exact Hl.
      * rewrite write_registered_modifyFd, queue_modifyFd, queue_setQueue.
        reflexivity.
  - intros H. destruct (flush_alive kernel s fd Hin H) as (Hl & Hkeep & Hclear).
    split; [exact Hl|]. split.
    + intros Hne. rewrite (write_registered_io s _ fd (Hkeep Hne)).
      apply Hinv. intros Hnil. apply Hne.
      unfold flushSendBuffer. unfold queue in Hnil.
      destruct (m_sendBuffers s !! fd) as [[|? ?]|] eqn:Hq;
        try discriminate; unfold queue; rewrite Hq; reflexivity.
    + intros Hne Hnil. unfold write_registered.
      rewrite (Hclear Hne Hnil). reflexivity.
  - intros head rest n Hq Hk Hn. unfold queue in Hq.
    destruct (m_sendBuffers s !! fd) as [q|] eqn:Hsb; [|discriminate].
    cbn in Hq. subst q.
    unfold flushSendBuffer. rewrite Hsb. cbn [drain]. rewrite Hk.
    apply Nat.ltb_lt in Hn. rewrite Hn.
    unfold queue, wire, write_registered. cbn.
    rewrite !lookup_insert_eq. cbn. repeat split.
    apply Hinv. unfold queue. rewrite Hsb. discriminate.
Qed.


(** Scenario 5 of the spec: the kernel takes 3 bytes of a 10-byte frame; the
    other 7 stay at the head and WRITE is registered; the next flush sends
    them and clears WRITE. *)
Example partial_send_backpressure :
  queue Samples.backlogged 7 = [[4; 5; 6; 7; 8; 9; 10]%Z]
  /\ wire Samples.backlogged 7 = [1; 2; 3]%Z
  /\ m_io Samples.backlogged !! 7%Z = Some READ_WRITE
  /\ queue (flushSendBuffer Samples.kernel_3_then_7 Samples.backlogged 7) 7 = []
  /\ wire (flushSendBuffer Samples.kernel_3_then_7 Samples.backlogged 7) 7
     = Samples.ten_bytes
  /\ m_io (flushSendBuffer Samples.kernel_3_then_7 Samples.backlogged 7) !! 7%Z
     = Some READ.
Proof. repeat split; vm_compute; reflexivity. Qed.


Lemma flush_empty (kernel : nat -> send_result) (s : TcpServer.t) (fd : Z) :
  queue s fd = [] -> flushSendBuffer kernel s fd = s.
Proof.
  unfold queue, flushSendBuffer.
  destruct (m_sendBuffers s !! fd) as [[|b q]|]; cbn; congruence.
Qed.

Lemma flush_clients (kernel : nat -> send_result) (s : TcpServer.t) (fd : Z) :
  is_Some (m_clients (flushSendBuffer kernel s fd) !! fd) ->
  is_Some (m_clients s !! fd).
Proof.
  unfold flushSendBuffer.
  destruct (m_sendBuffers s !! fd) as [[|b q]|]; try (intros H; exact H).
  destruct (drain kernel (b :: q) (send_calls s) []) as [[[q' calls] taken] failed].
  destruct failed.
  - unfold handleClose_under_send_lock, handleClose. cbn [m_clients].
    destruct (m_clients s !! fd) eqn:E; [eauto|].
    cbn [m_clients]. rewrite E. intros H. exact H.
  - destruct q'; intros H; exact H.
Qed.

Lemma apply_op_clients (kernel : nat -> send_result) (s : TcpServer.t)
    (fd : Z) (op : send_op) :
  is_Some (m_clients (apply_op kernel fd s op) !! fd) ->
  is_Some (m_clients s !! fd).
Proof.
  destruct op as [data|]; cbn [apply_op]; [|apply flush_clients].
  unfold sendData. destruct (length data =? 0); [intros H; exact H|].
  match goal with
  | |- context [match ?q with [] => _ | _ :: _ => _ end] => destruct q
  end; cbn [m_clients setQueue modifyFd]; intros H;
    apply flush_clients in H; exact H.
Qed.

(** Along any run of enqueues and WRITE-ready flushes from an accepted
    connection, while the connection is up: what the kernel took followed
    by what is queued is what was enqueued, in order, and WRITE is
    registered exactly when the queue is not empty. So the hypotheses of
    [send_queue_step] hold at every step of every run. *)
Lemma send_queue_invariant (kernel : nat -> send_result) (fd : Z)
    (ops : list send_op) :
  is_Some (m_clients (run kernel fd ops (accepted fd)) !! fd) ->
  wire (run kernel fd ops (accepted fd)) fd
    ++ concat (queue (run kernel fd ops (accepted fd)) fd)
  = concat (map enqueued ops)
  /\ write_registered (run kernel fd ops (accepted fd)) fd
     = negb (is_nil (queue (run kernel fd ops (accepted fd)) fd)).
Proof.
  induction ops as [|op ops IH] using rev_ind.
  - intros _. unfold run, accepted, wire, queue, write_registered. cbn.
    rewrite !lookup_empty, lookup_singleton_eq. split; reflexivity.
  - unfold run in *. rewrite fold_left_app. cbn [fold_left].
    set (s := fold_left (apply_op kernel fd) ops (accepted fd)) in *.
    intros Hup. pose proof (apply_op_clients _ _ _ _ Hup) as Hs.
    destruct (IH Hs) as [Hl Hw].
    assert (Hinv : queue s fd <> [] -> write_registered s fd = true).
    { intros Hne. rewrite Hw. destruct (queue s fd); [contradiction|reflexivity]. }
    destruct (send_queue_step kernel s fd Hs Hinv) as (Hsend & Hflush & _).
    rewrite map_app, concat_app. cbn [map concat]. rewrite app_nil_r.
    destruct op as [data|]; cbn [apply_op enqueued] in *.
    + destruct data as [|d data].
      * cbn [sendData length Nat.eqb]. rewrite app_nil_r. split; assumption.
      * destruct (Hsend (d :: data) ltac:(discriminate) Hup) as [Hl' Hw'].
        split; [|exact Hw'].
        rewrite Hl', app_assoc, Hl. reflexivity.
    + destruct (Hflush Hup) as (Hl' & Hkeep & Hclear).
      rewrite app_nil_r. split; [rewrite Hl'; exact Hl|].
      destruct (queue (flushSendBuffer kernel s fd) fd) as [|b q] eqn:Hq'.
      * cbn [is_nil negb]. destruct (queue s fd) as [|b0 q0] eqn:Hq.
        -- rewrite (flush_empty kernel s fd Hq). rewrite Hw. reflexivity.
        -- apply Hclear; [discriminate | reflexivity].
      * cbn [is_nil negb]. apply Hkeep. discriminate.
Qed.

(** * Further properties of the code *)

(** ** Integers on the wire *)

Lemma split_low_byte (x : Z) :
  Z.lor (Z.shiftl (Z.shiftr x 8) 8) (Z.land x 255) = x.
Proof.
  apply Z.bits_inj'. intros n Hn.
  rewrite Z.lor_spec, Z.land_spec.
  change 255%Z with (Z.ones 8).
  destruct (Z.lt_ge_cases n 8) as [Hlt | Hge].
  - rewrite Z.shiftl_spec_low by lia.
    rewrite Z.ones_spec_low by lia.
    rewrite andb_true_r. reflexivity.
  - rewrite Z.shiftl_spec by lia.
    rewrite Z.shiftr_spec by lia.
    rewrite Z.ones_spec_high by lia.
    rewrite andb_false_r, orb_false_r. f_equal. lia.
Qed.

Lemma land_255_small (x : Z) : (0 <= x < 256)%Z -> Z.land x 255 = x.
Proof.
  intros H. change 255%Z with (Z.ones 8).
  rewrite Z.land_ones by lia. apply Z.mod_small. lia.
Qed.

Lemma shiftr_bound (v : Z) (k n : Z) :
  (0 <= k)%Z -> (0 <= n)%Z -> (0 <= v < 2 ^ (n + k))%Z ->
  (0 <= Z.shiftr v k < 2 ^ n)%Z.
Proof.
  intros Hk Hn Hv. rewrite Z.shiftr_div_pow2 by lia.
  rewrite Z.pow_add_r in Hv by lia.
  split; [apply Z.div_pos; lia|].
  apply Z.div_lt_upper_bound; lia.
Qed.

Lemma fold_left_step {A B} (f : A -> B -> A) (b : B) (l : list B) (a : A) :
  fold_left f (b :: l) a = fold_left f l (f a b).
Proof. reflexivity. Qed.

(** One byte more of a big-endian value. *)
Lemma be_step (v j j' : Z) :
  (0 <= v < 2 ^ 64)%Z -> (0 <= j)%Z -> j' = (j + 8)%Z ->
  (Z.lor (Z.shiftl (Z.shiftr v j') 8) (Z.land (Z.shiftr v j) 255)
   mod 2 ^ 64)%Z
  = Z.shiftr v j.
Proof.
  intros Hv Hj ->.
  replace (Z.shiftr v (j + 8)) with (Z.shiftr (Z.shiftr v j) 8)
    by (rewrite Z.shiftr_shiftr by lia; reflexivity).
  rewrite split_low_byte.
  apply Z.mod_small. rewrite Z.shiftr_div_pow2 by lia.
  split; [apply Z.div_pos; lia|].
  apply Z.div_lt_upper_bound; [lia|].
  assert (1 <= 2 ^ j)%Z by (apply Z.pow_le_mono_r with (b := 0%Z); lia).
  nia.
Qed.

Lemma writeUint64_bytes (buffer : bytes) (v : Z) :
  writeUint64 buffer v
  = buffer ++ [Z.land (Z.shiftr v 56) 255; Z.land (Z.shiftr v 48) 255;
               Z.land (Z.shiftr v 40) 255; Z.land (Z.shiftr v 32) 255;
               Z.land (Z.shiftr v 24) 255; Z.land (Z.shiftr v 16) 255;
               Z.land (Z.shiftr v 8) 255; Z.land (Z.shiftr v 0) 255].
Proof. reflexivity. Qed.

Lemma readUint16_writeUint16 (v : Z) (rest : bytes) :
  (0 <= v < 2 ^ 16)%Z -> readUint16 (writeUint16 [] v ++ rest) = v.
Proof.
  intros Hv. unfold readUint16, writeUint16. cbn [app nth].
  pose proof (shiftr_bound v 8 8 ltac:(lia) ltac:(lia) Hv) as Hs.
  rewrite (land_255_small (Z.shiftr v 8))
    by (change (2 ^ 8)%Z with 256%Z in Hs; lia).
  rewrite split_low_byte. apply Z.mod_small. lia.
Qed.

Lemma readUint64_writeUint64 (v : Z) (rest : bytes) :
  (0 <= v < 2 ^ 64)%Z -> readUint64 (writeUint64 [] v ++ rest) = v.
Proof.
  intros Hv. rewrite writeUint64_bytes. unfold readUint64.
  cbn [app firstn]. rewrite take_0.
  rewrite fold_left_step. cbv beta.
  assert (H0 : (Z.lor (Z.shiftl 0 8) (Z.land (Z.shiftr v 56) 255) mod 2 ^ 64
                = Z.shiftr v 56)%Z).
  { rewrite Z.shiftl_0_l, Z.lor_0_l.
    pose proof (shiftr_bound v 56 8 ltac:(lia) ltac:(lia) Hv) as Hs.
    change (2 ^ 8)%Z with 256%Z in Hs.
    rewrite land_255_small by lia.
    apply Z.mod_small. lia. }
  rewrite H0.
  rewrite fold_left_step. cbv beta. rewrite (be_step v 48 56 Hv) by lia.
  rewrite fold_left_step. cbv beta. rewrite (be_step v 40 48 Hv) by lia.
  rewrite fold_left_step. cbv beta. rewrite (be_step v 32 40 Hv) by lia.
  rewrite fold_left_step. cbv beta. rewrite (be_step v 24 32 Hv) by lia.
  rewrite fold_left_step. cbv beta. rewrite (be_step v 16 24 Hv) by lia.
  rewrite fold_left_step. cbv beta. rewrite (be_step v 8 16 Hv) by lia.
  rewrite fold_left_step. cbv beta. rewrite (be_step v 0 8 Hv) by lia.
  cbn [fold_left]. apply Z.shiftr_0_r.
Qed.

(** X1: what [writeUint16] and [writeUint64] append is read back by
    [readUint16] and [readUint64], whatever follows it, for every value of
    the width. *)
Theorem wire_integers_roundtrip (v : Z) (rest : bytes) :
  ((0 <= v < 2 ^ 16)%Z -> readUint16 (writeUint16 [] v ++ rest) = v)
  /\ ((0 <= v < 2 ^ 64)%Z -> readUint64 (writeUint64 [] v ++ rest) = v).
Proof.
  split; [apply readUint16_writeUint16 | apply readUint64_writeUint64].
Qed.

Lemma wire_integers_roundtrip_witness :
  (0 <= 65535 < 2 ^ 16)%Z
  /\ readUint16 (writeUint16 [] 65535 ++ [7%Z]) = 65535%Z
  /\ (0 <= 10485761 < 2 ^ 64)%Z
  /\ readUint64 (writeUint64 [] 10485761 ++ [7%Z]) = 10485761%Z.
Proof.
  assert (H1 : (0 <= 65535 < 2 ^ 16)%Z) by lia.
  assert (H2 : (0 <= 10485761 < 2 ^ 64)%Z) by lia.
  split; [exact H1 | split; [| split; [exact H2 |]]].
  - exact (proj1 (wire_integers_roundtrip 65535 [7%Z]) H1).
  - exact (proj2 (wire_integers_roundtrip 10485761 [7%Z]) H2).
Defined.

(** ** Frames the engine builds *)

Lemma first_byte_shape (op : Z) (fin : bool) :
  (0 <= op <= 15)%Z ->
  Z.land (to_char (Z.lor (if fin then 128 else 0) op)) 15 = op
  /\ negb (Z.land (to_char (Z.lor (if fin then 128 else 0) op)) 128 =? 0)%Z = fin.
Proof.
  intros Hop.
  pose proof (byte_forall
    (fun op => implb (op <=? 15)%Z
       ((Z.land (to_char (Z.lor 128 op)) 15 =? op)%Z
        && (Z.land (to_char (Z.lor 0 op)) 15 =? op)%Z
        && negb (Z.land (to_char (Z.lor 128 op)) 128 =? 0)%Z
        && (Z.land (to_char (Z.lor 0 op)) 128 =? 0)%Z))
    ltac:(vm_compute; reflexivity) op ltac:(lia)) as H.
  cbv beta in H.
  replace (op <=? 15)%Z with true in H by (symmetry; apply Z.leb_le; lia).
  cbn [implb] in H.
  apply andb_true_iff in H. destruct H as [H H4].
  apply andb_true_iff in H. destruct H as [H H3].
  apply andb_true_iff in H. destruct H as [H1 H2].
  apply Z.eqb_eq in H1, H2.
  destruct fin; split; try assumption.
  rewrite H4. reflexivity.
Qed.

Lemma short_length_byte (n : Z) :
  (0 <= n < 126)%Z ->
  to_char n = n /\ (Z.land n 128 =? 0)%Z = true /\ Z.land n 127 = n.
Proof.
  intros Hn.
  pose proof (byte_forall
    (fun n => implb (n <? 126)%Z
       ((Z.land n 128 =? 0)%Z && (Z.land n 127 =? n)%Z))
    ltac:(vm_compute; reflexivity) n ltac:(lia)) as H.
  cbv beta in H.
  replace (n <? 126)%Z with true in H by (symmetry; apply Z.ltb_lt; lia).
  cbn [implb] in H. apply andb_true_iff in H. destruct H as [H1 H2].
  apply Z.eqb_eq in H2.
  split; [apply Z.mod_small; lia | split; assumption].
Qed.

(** The header of a frame made by [createFrame], as [parseFrameHeader]
    reads it. *)
Lemma parseFrameHeader_createFrame (ws : WebSocketProtocol.t) (op : Z)
    (P rest : bytes) (fin' : bool) :
  (0 <= op <= 15)%Z -> (Z.of_nat (length P) <= MAX_FRAME_SIZE)%Z ->
  exists h headerSize,
    parseFrameHeader ws (createFrame op P fin' ++ rest)
    = (Some (h, headerSize), [])
    /\ createFrame op P fin' = firstn headerSize (createFrame op P fin') ++ P
    /\ length (createFrame op P fin') = headerSize + length P
    /\ fin h = fin' /\ opcode h = op /\ masked h = false
    /\ payload_length h = Z.of_nat (length P).
Proof.
  intros Hop Hmax. unfold MAX_FRAME_SIZE in Hmax.
  destruct (first_byte_shape op fin' Hop) as [Hopc Hfin].
  set (b1 := to_char (Z.lor (if fin' then 128 else 0) op)) in *.
  unfold createFrame. fold b1.
  set (n := Z.of_nat (length P)) in *.
  destruct (n <? 126)%Z eqn:E1.
  - apply Z.ltb_lt in E1.
    destruct (short_length_byte n ltac:(lia)) as (Hc & H128 & H127).
    rewrite Hc. cbn [app]. unfold parseFrameHeader.
    rewrite H128, H127.
    replace (n =? 126)%Z with false by (symmetry; apply Z.eqb_neq; lia).
    replace (n =? 127)%Z with false by (symmetry; apply Z.eqb_neq; lia).
    cbn [negb].
    replace (n >? MAX_FRAME_SIZE)%Z with false
      by (symmetry; rewrite Z.gtb_ltb; apply Z.ltb_ge; unfold MAX_FRAME_SIZE; lia).
    do 2 eexists. split; [reflexivity|].
    cbn [firstn app length fin opcode masked payload_length].
    repeat split; try assumption; reflexivity.
  - apply Z.ltb_ge in E1. destruct (n <=? 65535)%Z eqn:E2.
    + apply Z.leb_le in E2.
      rewrite (Z.mod_small n (2 ^ 16)) by lia.
      unfold writeUint16 at 1. cbn [app]. unfold parseFrameHeader.
      change (Z.land 126 128 =? 0)%Z with true.
      change (Z.land 126 127 =? 126)%Z with true.
      cbn [negb length Nat.ltb Nat.leb Nat.add skipn].
      change (Z.land (Z.shiftr n 8) 255 :: Z.land n 255 :: P ++ rest)
        with (writeUint16 [] n ++ P ++ rest).
      rewrite readUint16_writeUint16 by lia.
      replace (n >? MAX_FRAME_SIZE)%Z with false
        by (symmetry; rewrite Z.gtb_ltb; apply Z.ltb_ge; unfold MAX_FRAME_SIZE; lia).
      do 2 eexists. split; [reflexivity|].
      unfold writeUint16.
      cbn [firstn app length fin opcode masked payload_length Nat.add].
      repeat split; try assumption; reflexivity.
    + apply Z.leb_gt in E2.
      rewrite (Z.mod_small n (2 ^ 64)) by lia.
      rewrite writeUint64_bytes. cbn [app]. unfold parseFrameHeader.
      change (Z.land 127 128 =? 0)%Z with true.
      change (Z.land 127 127 =? 126)%Z with false.
      change (Z.land 127 127 =? 127)%Z with true.
      cbn [negb length Nat.ltb Nat.leb Nat.add skipn].
      match goal with
      | |- context [readUint64 ?l] =>
          change l with (writeUint64 [] n ++ P ++ rest)
      end.
      rewrite readUint64_writeUint64 by lia.
      replace (n >? MAX_FRAME_SIZE)%Z with false
        by (symmetry; rewrite Z.gtb_ltb; apply Z.ltb_ge; unfold MAX_FRAME_SIZE; lia).
      do 2 eexists. split; [reflexivity|].
      cbn [firstn app length fin opcode masked payload_length Nat.add].
      repeat split; try assumption; reflexivity.
Qed.

Lemma parseFrame_createFrame (ws : WebSocketProtocol.t) (op : Z)
    (P rest : bytes) (fin' : bool) :
  (0 <= op <= 10)%Z -> (Z.of_nat (length P) <= MAX_FRAME_SIZE)%Z ->
  parseFrame ws (createFrame op P fin' ++ rest)
  = dispatchFrame ws op P (length (createFrame op P fin')).
Proof.
  intros Hop Hmax.
  destruct (parseFrameHeader_createFrame ws op P rest fin' ltac:(lia) Hmax)
    as (h & hs & Hh & Hsplit & Hlen & _ & Hopc & Hmask & Hplen).
  destruct (first_byte_shape op fin' ltac:(lia)) as [Hb1 _].
  unfold parseFrame. rewrite Hh.
  assert (Hlen2 : length (createFrame op P fin' ++ rest)
                  = hs + length P + length rest)
    by (rewrite length_app, Hlen; reflexivity).
  replace (length (createFrame op P fin' ++ rest) <? 2) with false.
  2:{ symmetry. apply Nat.ltb_ge.
      pose proof (parseFrameHeader_size _ _ _ _ _ Hh). lia. }
  assert (Hn0 : nth 0 (createFrame op P fin' ++ rest) 0%Z
                = to_char (Z.lor (if fin' then 128 else 0) op)).
  { unfold createFrame.
    destruct (Z.of_nat (length P) <? 126)%Z; [reflexivity|].
    destruct (Z.of_nat (length P) <=? 65535)%Z; reflexivity. }
  rewrite Hn0, Hb1.
  replace (op >? 10)%Z with false
    by (symmetry; rewrite Z.gtb_ltb; apply Z.ltb_ge; lia).
  rewrite Hplen, Nat2Z.id, Hmask, Hopc.
  replace (length (createFrame op P fin' ++ rest) <? hs + length P) with false
    by (symmetry; apply Nat.ltb_ge; lia).
  assert (Hpay : firstn (length P) (skipn hs (createFrame op P fin' ++ rest)) = P).
  { rewrite Hsplit at 1. rewrite <- app_assoc.
    assert (Hhs : length (firstn hs (createFrame op P fin')) = hs)
      by (rewrite length_take; lia).
    rewrite <- Hhs at 1. rewrite drop_app_length. apply take_app_length. }
  rewrite Hpay, Hlen.
  destruct (dispatchFrame ws op P (hs + length P)) as [[[ok n] ws'] ev].
  reflexivity.
Qed.

(** X2: a TEXT frame made by [packTextMessage] (so with valid UTF-8) or a
    BINARY frame made by [packBinaryMessage], of any payload up to the
    10 MiB limit and whatever bytes follow it, is parsed back by
    [parseFrame] as that payload handed to the packet callback, taking
    exactly the bytes of the frame and leaving the instance as it was. *)
Theorem packed_message_roundtrip (ws : WebSocketProtocol.t)
    (P rest frame : bytes) :
  (Z.of_nat (length P) <= MAX_FRAME_SIZE)%Z ->
  packTextMessage P [] = (true, frame) \/ packBinaryMessage P [] = (true, frame) ->
  parseFrame ws (frame ++ rest) = (true, length frame, ws, call_packet ws P).
Proof.
  intros Hmax [Ht | Hb].
  - unfold packTextMessage in Ht.
    destruct (isValidUtf8 P) eqn:Hv; cbn [negb] in Ht; [|discriminate].
    inversion Ht; subst frame. cbn [app]. unfold packMessage.
    rewrite parseFrame_createFrame by (unfold TEXT; lia || assumption).
    apply (proj2 (proj2 (proj2 (proj2
             (dispatchFrame_data_and_control ws P _))))). exact Hv.
  - unfold packBinaryMessage in Hb. inversion Hb; subst frame.
    cbn [app]. unfold packMessage.
    rewrite parseFrame_createFrame by (unfold BINARY; lia || assumption).
    apply (proj1 (dispatchFrame_data_and_control ws P _)).
Qed.

Lemma packed_message_roundtrip_witness :
  parseFrame (Samples.instance OPEN [])
             (packMessage [104; 105]%Z TEXT ++ [129]%Z)
  = (true, 4, Samples.instance OPEN [], [Packet [104; 105]%Z]).
Proof.
  apply (packed_message_roundtrip (Samples.instance OPEN []) [104; 105]%Z
           [129]%Z (packMessage [104; 105]%Z TEXT)).
  - vm_compute. discriminate.
  - left. reflexivity.
Defined.

(** X3: a frame [createFrame] builds never has the MASK bit set, whatever
    the payload, and carries the payload as its last bytes behind a header
    of 2, 4 or 10 bytes, by the size of the payload. *)
Theorem created_frames_are_unmasked (op : Z) (P : bytes) (fin' : bool) :
  Z.land (nth 1 (createFrame op P fin') 0%Z) 128 = 0%Z
  /\ skipn (length (createFrame op P fin') - length P) (createFrame op P fin') = P
  /\ length (createFrame op P fin')
     = (if (Z.of_nat (length P) <? 126)%Z then 2
        else if (Z.of_nat (length P) <=? 65535)%Z then 4 else 10)
       + length P.
Proof.
  unfold createFrame.
  destruct (Z.of_nat (length P) <? 126)%Z eqn:E1.
  - apply Z.ltb_lt in E1.
    destruct (short_length_byte (Z.of_nat (length P)) ltac:(lia)) as (Hc & Hm & _).
    cbn [app nth length]. rewrite Hc. apply Z.eqb_eq in Hm.
    split; [exact Hm|]. split; [|lia].
    replace (S (S (length P)) - length P) with 2 by lia. reflexivity.
  - destruct (Z.of_nat (length P) <=? 65535)%Z eqn:E2.
    + unfold writeUint16. cbn [app nth length].
      split; [reflexivity|]. split; [|lia].
      replace (S (S (S (S (length P)))) - length P) with 4 by lia. reflexivity.
    + unfold writeUint64. cbn [app nth length map].
      split; [reflexivity|]. split; [|lia].
      replace (S (S (S (S (S (S (S (S (S (S (length P)))))))))) - length P)
        with 10 by lia.
      reflexivity.
Qed.

(** ** Frames a client sends *)

Lemma masked_length_byte (n : Z) :
  (0 <= n < 126)%Z ->
  (Z.land (Z.lor 128 n) 128 =? 0)%Z = false /\ Z.land (Z.lor 128 n) 127 = n.
Proof.
  intros Hn.
  pose proof (byte_forall
    (fun n => implb (n <? 126)%Z
       (negb (Z.land (Z.lor 128 n) 128 =? 0)%Z
        && (Z.land (Z.lor 128 n) 127 =? n)%Z))
    ltac:(vm_compute; reflexivity) n ltac:(lia)) as H.
  cbv beta in H.
  replace (n <? 126)%Z with true in H by (symmetry; apply Z.ltb_lt; lia).
  cbn [implb] in H. apply andb_true_iff in H. destruct H as [H1 H2].
  apply Z.eqb_eq in H2. apply negb_true_iff in H1. split; assumption.
Qed.

Lemma parseFrameHeader_masked_short (ws : WebSocketProtocol.t)
    (byte1 byte2 : Z) (K rest : bytes) :
  length K = 4 -> Z.land byte2 128 <> 0%Z -> (Z.land byte2 127 < 126)%Z ->
  exists h, parseFrameHeader ws (byte1 :: byte2 :: K ++ rest)
            = (Some (h, 6), [])
            /\ masking_key h = K /\ masked h = true
            /\ opcode h = Z.land byte1 15
            /\ payload_length h = Z.land byte2 127.
Proof.
  intros HlenK Hmask Hlen.
  destruct K as [|k0 [|k1 [|k2 [|k3 [|? ?]]]]]; simpl in HlenK; try lia.
  unfold parseFrameHeader.
  apply Z.eqb_neq in Hmask. rewrite Hmask.
  assert (H126 : (Z.land byte2 127 =? 126)%Z = false) by (apply Z.eqb_neq; lia).
  assert (H127 : (Z.land byte2 127 =? 127)%Z = false) by (apply Z.eqb_neq; lia).
  rewrite H126, H127.
  cbn [negb length app Nat.ltb Nat.leb Nat.add substr skipn firstn].
  assert (Hmax : (Z.land byte2 127 >? MAX_FRAME_SIZE)%Z = false).
  { unfold MAX_FRAME_SIZE. rewrite Z.gtb_ltb. apply Z.ltb_ge. lia. }
  rewrite Hmax. eexists. repeat split; reflexivity.
Qed.

(** A masked frame with a 7-bit length: two header bytes, the key, the
    payload XORed with the key. [parseFrame] dispatches the payload. *)
Lemma parseFrame_masked_short (ws : WebSocketProtocol.t) (byte1 : Z)
    (K P rest : bytes) :
  (Z.land byte1 15 <= 10)%Z ->
  length K = 4 -> Forall is_byte K -> Forall is_byte P -> length P < 126 ->
  parseFrame ws ([byte1; Z.lor 128 (Z.of_nat (length P))] ++ K
                 ++ unmaskPayload P (length P) K ++ rest)
  = dispatchFrame ws (Z.land byte1 15) P (6 + length P).
Proof.
  intros Hop HlenK HK HP Hn.
  destruct (masked_length_byte (Z.of_nat (length P)) ltac:(lia)) as [Hm Hl].
  apply Z.eqb_neq in Hm.
  unfold unmaskPayload at 1. rewrite firstn_all.
  set (M := unmask_from 0 P K).
  assert (HM : length M = length P) by apply unmask_from_length.
  destruct (parseFrameHeader_masked_short ws byte1
              (Z.lor 128 (Z.of_nat (length P))) K (M ++ rest) HlenK Hm
              ltac:(lia))
    as (h & Hh & Hkey & Hmasked & Hopc & Hplen).
  cbn [app]. unfold parseFrame. rewrite Hh.
  rewrite Hmasked, Hopc, Hplen, Hkey, Hl, Nat2Z.id.
  assert (Hlen : length (byte1 :: Z.lor 128 (Z.of_nat (length P))
                         :: K ++ M ++ rest)
                 = 6 + length P + length rest)
    by (cbn [length]; rewrite !length_app; lia).
  rewrite Hlen.
  replace (6 + length P + length rest <? 2) with false
    by (symmetry; apply Nat.ltb_ge; lia).
  replace (6 + length P + length rest <? 6 + length P) with false
    by (symmetry; apply Nat.ltb_ge; lia).
  cbn [nth].
  replace (Z.land byte1 15 >? 10)%Z with false
    by (symmetry; rewrite Z.gtb_ltb; apply Z.ltb_ge; lia).
  assert (Hdrop : skipn 6 (byte1 :: Z.lor 128 (Z.of_nat (length P))
                           :: K ++ M ++ rest) = M ++ rest).
  { change (skipn 6 (?a :: ?b :: ?l)) with (skipn 4 l).
    rewrite <- HlenK. apply drop_app_length. }
  rewrite Hdrop.
  unfold unmaskPayload. rewrite <- HM, take_app_length.
  unfold M at 1. rewrite unmask_from_twice by assumption.
  destruct (dispatchFrame ws (Z.land byte1 15) P (6 + length M))
    as [[[ok n] ws'] ev].
  reflexivity.
Qed.

(** X4: a masked PING from a client, whatever its FIN and RSV bits, with a
    payload of up to 125 bytes, is answered at once: [parseFrame] takes the
    whole frame, keeps the state, and hands the raw-frame callback the
    unmasked PONG frame [8A len payload] with the same payload. *)
Theorem masked_ping_answered_by_pong (ws : WebSocketProtocol.t) (byte1 : Z)
    (K P rest : bytes) :
  Z.land byte1 15 = PING ->
  length K = 4 -> Forall is_byte K -> Forall is_byte P -> length P < 126 ->
  parseFrame ws ([byte1; Z.lor 128 (Z.of_nat (length P))] ++ K
                 ++ unmaskPayload P (length P) K ++ rest)
  = (true, 6 + length P, ws,
     call_raw ws ([138; Z.of_nat (length P)]%Z ++ P)).
Proof.
  intros Hop HlenK HK HP Hn.
  rewrite parseFrame_masked_short by (try assumption; rewrite Hop; unfold PING; lia).
  rewrite Hop.
  rewrite (proj1 (proj2 (dispatchFrame_data_and_control ws P _))).
  unfold packPong, packMessage, createFrame.
  replace (Z.of_nat (length P) <? 126)%Z with true
    by (symmetry; apply Z.ltb_lt; lia).
  destruct (short_length_byte (Z.of_nat (length P)) ltac:(lia)) as (Hc & _).
  rewrite Hc. reflexivity.
Qed.

Lemma masked_ping_answered_by_pong_witness :
  parseFrame (Samples.instance OPEN [])
             (Samples.client_frame 137 [112; 105; 110; 103]%Z ++ [129]%Z)
  = (true, 10, Samples.instance OPEN [],
     [RawFrame [138; 4; 112; 105; 110; 103]%Z]).
Proof.
  apply (masked_ping_answered_by_pong (Samples.instance OPEN []) 137
           Samples.sample_mask [112; 105; 110; 103]%Z [129]%Z).
  - reflexivity.
  - reflexivity.
  - repeat constructor; unfold is_byte; lia.
  - repeat constructor; unfold is_byte; lia.
  - simpl. lia.
Defined.

(** X5: a masked TEXT frame whose payload passes [isValidUtf8], or a masked
    BINARY frame with any payload, of up to 125 bytes and whatever its FIN
    and RSV bits, is handed to the packet callback unmasked; the frame is
    taken whole and the instance is left as it was. *)
Theorem masked_data_frame_delivered (ws : WebSocketProtocol.t) (byte1 : Z)
    (K P rest : bytes) :
  (Z.land byte1 15 = TEXT /\ isValidUtf8 P = true) \/ Z.land byte1 15 = BINARY ->
  length K = 4 -> Forall is_byte K -> Forall is_byte P -> length P < 126 ->
  parseFrame ws ([byte1; Z.lor 128 (Z.of_nat (length P))] ++ K
                 ++ unmaskPayload P (length P) K ++ rest)
  = (true, 6 + length P, ws, call_packet ws P).
Proof.
  intros Hop HlenK HK HP Hn.
  rewrite parseFrame_masked_short
    by (try assumption; destruct Hop as [[-> _] | ->]; unfold TEXT, BINARY; lia).
  destruct Hop as [[-> Hv] | ->].
  - apply (proj2 (proj2 (proj2 (proj2
             (dispatchFrame_data_and_control ws P _))))). exact Hv.
  - apply (proj1 (dispatchFrame_data_and_control ws P _)).
Qed.

Lemma masked_data_frame_delivered_witness :
  parseFrame (Samples.instance OPEN [])
             (Samples.client_frame 129 [104; 105]%Z ++ [129]%Z)
  = (true, 8, Samples.instance OPEN [], [Packet [104; 105]%Z]).
Proof.
  apply (masked_data_frame_delivered (Samples.instance OPEN []) 129
           Samples.sample_mask [104; 105]%Z [129]%Z).
  - left. split; reflexivity.
  - reflexivity.
  - repeat constructor; unfold is_byte; lia.
  - repeat constructor; unfold is_byte; lia.
  - simpl. lia.
Defined.

(** ** Frames over the size limit *)

Lemma writeUint64_length (v : Z) : length (writeUint64 [] v) = 8.
Proof. reflexivity. Qed.

Lemma parseFrameHeader_oversize (ws : WebSocketProtocol.t)
    (byte1 byte2 v : Z) (rest : bytes) :
  (MAX_FRAME_SIZE < v < 2 ^ 64)%Z ->
  byte2 = 127%Z \/ (byte2 = 255%Z /\ 4 <= length rest) ->
  parseFrameHeader ws (byte1 :: byte2 :: writeUint64 [] v ++ rest)
  = (None, call_error ws (bytes_of_string "Frame too large")).
Proof.
  intros Hv Hb2. unfold parseFrameHeader.
  assert (Hlen : length (byte1 :: byte2 :: writeUint64 [] v ++ rest)
                 = 10 + length rest)
    by (cbn [length]; rewrite length_app, writeUint64_length; lia).
  rewrite Hlen. cbn [skipn]. rewrite !drop_0.
  assert (Hr : readUint64 (writeUint64 [] v ++ rest) = v)
    by (apply readUint64_writeUint64; unfold MAX_FRAME_SIZE in Hv; lia).
  assert (Hbig : (v >? MAX_FRAME_SIZE)%Z = true) by (apply Z.gtb_gt; lia).
  assert (H10 : (10 + length rest <? 2 + 8) = false)
    by (apply Nat.ltb_ge; lia).
  destruct Hb2 as [-> | [-> Hrest]].
  - change (Z.land 127 128 =? 0)%Z with true.
    change (Z.land 127 127 =? 126)%Z with false.
    change (Z.land 127 127 =? 127)%Z with true.
    cbv beta iota. rewrite H10, Hr. cbn [negb]. rewrite Hbig. reflexivity.
  - change (Z.land 255 128 =? 0)%Z with false.
    change (Z.land 255 127 =? 126)%Z with false.
    change (Z.land 255 127 =? 127)%Z with true.
    cbv beta iota. rewrite H10, Hr. cbn [negb].
    replace (10 + length rest <? 2 + 8 + 4) with false
      by (symmetry; apply Nat.ltb_ge; lia).
    rewrite Hbig. reflexivity.
Qed.

(** X6: a frame whose 64-bit length field is over the 10 MiB limit is never
    consumed. In the OPEN or CLOSING state, once the buffer starts with such
    a header, a read reports [Frame too large], keeps the state, keeps the
    whole buffer with the new bytes appended, and still returns the length
    of the input; so every later read reports the error again. *)
Theorem oversize_frame_never_consumed (ws : WebSocketProtocol.t)
    (byte1 byte2 v : Z) (rest data : bytes) :
  state_ ws = OPEN \/ state_ ws = CLOSING ->
  (Z.land byte1 15 <= 10)%Z ->
  (MAX_FRAME_SIZE < v < 2 ^ 64)%Z ->
  byte2 = 127%Z \/ (byte2 = 255%Z /\ 4 <= length rest) ->
  buffer_ ws ++ data = byte1 :: byte2 :: writeUint64 [] v ++ rest ->
  onDataReceived ws data
  = (length data, setBuffer ws (buffer_ ws ++ data),
     call_error ws (bytes_of_string "Frame too large")).
Proof.
  intros Hst Hop Hv Hb2 Hbuf.
  assert (Hlen : length (buffer_ ws ++ data) = 10 + length rest)
    by (rewrite Hbuf; cbn [length]; rewrite length_app, writeUint64_length; lia).
  assert (Hloop :
    frameLoop (length (buffer_ ws ++ data)) (setBuffer ws (buffer_ ws ++ data))
              (length data) 0 []
    = (length data, setBuffer ws (buffer_ ws ++ data),
       call_error ws (bytes_of_string "Frame too large"))).
  { rewrite Hlen. change (10 + length rest) with (S (9 + length rest)).
    cbn [frameLoop buffer_ setBuffer]. rewrite Hlen, drop_0.
    replace (0 <? 10 + length rest) with true
      by (symmetry; apply Nat.ltb_lt; lia).
    unfold parseFrame. rewrite Hlen, Hbuf.
    replace (10 + length rest <? 2) with false
      by (symmetry; apply Nat.ltb_ge; lia).
    cbn [nth].
    replace (Z.land byte1 15 >? 10)%Z with false
      by (symmetry; rewrite Z.gtb_ltb; apply Z.ltb_ge; lia).
    rewrite parseFrameHeader_oversize by assumption.
    reflexivity. }
  unfold onDataReceived.
  destruct Hst as [-> | ->]; cbn [buffer_ setBuffer]; exact Hloop.
Qed.

Lemma oversize_frame_never_consumed_witness :
  onDataReceived (Samples.instance OPEN [])
    ([130; 127]%Z ++ writeUint64 [] 10485761 ++ [1; 2; 3]%Z)
  = (13,
     Samples.instance OPEN
       ([130; 127]%Z ++ writeUint64 [] 10485761 ++ [1; 2; 3]%Z),
     [Error (bytes_of_string "Frame too large")]).
Proof.
  apply (oversize_frame_never_consumed (Samples.instance OPEN []) 130 127
           10485761 [1; 2; 3]%Z
           ([130; 127]%Z ++ writeUint64 [] 10485761 ++ [1; 2; 3]%Z)).
  - left. reflexivity.
  - vm_compute. discriminate.
  - split; vm_compute; reflexivity.
  - left. reflexivity.
  - reflexivity.
Defined.

(** ** Reads that cut the stream anywhere *)

(** [parseFrame] looks at the callbacks and the state, never at the buffer:
    the instance it returns is the one it was given, or that one CLOSED. *)
Lemma dispatchFrame_instance (ws : WebSocketProtocol.t) (op : Z)
    (payloadData : bytes) (n : nat) :
  exists ok ws' ev,
    dispatchFrame ws op payloadData n = (ok, n, ws', ev)
    /\ (forall b, dispatchFrame (setBuffer ws b) op payloadData n
                  = (ok, n, setBuffer ws' b, ev))
    /\ (ok = true -> ws' = ws)
    /\ (ok = false -> state_ ws' = CLOSED).
Proof.
  unfold dispatchFrame.
  destruct (op =? TEXT)%Z.
  - destruct (isValidUtf8 payloadData); cbn [negb].
    + do 3 eexists. repeat split; try reflexivity; discriminate.
    + destruct (State_eqb (state_ ws) CLOSED) eqn:E.
      * do 3 eexists. split; [reflexivity|]. split; [|split].
        -- intros b. cbn [state_ setBuffer]. rewrite E. reflexivity.
        -- discriminate.
        -- intros _. destruct (state_ ws); try discriminate; reflexivity.
      * do 3 eexists. split; [reflexivity|]. split; [|split].
        -- intros b. cbn [state_ setBuffer]. rewrite E. reflexivity.
        -- discriminate.
        -- reflexivity.
  - destruct (op =? BINARY)%Z;
      [do 3 eexists; repeat split; try reflexivity; discriminate|].
    destruct (op =? PING)%Z;
      [do 3 eexists; repeat split; try reflexivity; discriminate|].
    destruct (op =? PONG)%Z;
      [do 3 eexists; repeat split; try reflexivity; discriminate|].
    destruct (op =? CLOSE)%Z;
      do 3 eexists; repeat split; try reflexivity; discriminate.
Qed.

Lemma parseFrameHeader_setBuffer (ws : WebSocketProtocol.t) (b data : bytes) :
  parseFrameHeader (setBuffer ws b) data = parseFrameHeader ws data.
Proof. reflexivity. Qed.

Lemma parseFrame_setBuffer (ws ws' : WebSocketProtocol.t) (b data : bytes)
    (ok : bool) (n : nat) (ev : list Event) :
  parseFrame ws data = (ok, n, ws', ev) ->
  parseFrame (setBuffer ws b) data = (ok, n, setBuffer ws' b, ev).
Proof.
  unfold parseFrame. rewrite parseFrameHeader_setBuffer.
  destruct (length data <? 2);
    [intros H; inversion H; reflexivity|].
  destruct (Z.land (nth 0 data 0) 15 >? 10)%Z;
    [intros H; inversion H; reflexivity|].
  destruct (parseFrameHeader ws data) as [[[h hs]|] ev0];
    [|intros H; inversion H; reflexivity].
  destruct (length data <? hs + Z.to_nat (payload_length h));
    [intros H; inversion H; reflexivity|].
  match goal with
  | |- context [dispatchFrame ws ?o ?p ?t] =>
      destruct (dispatchFrame_instance ws o p t)
        as (ok' & w' & ev' & -> & Hb & _)
  end.
  rewrite Hb. intros H. inversion H. reflexivity.
Qed.

(** What a call of [parseFrame] can give: a frame taken whole, with the
    instance untouched; a frame taken whole that closes the connection; or
    nothing taken and nothing changed, with no callback but, possibly, the
    error of the size limit. *)
Lemma parseFrame_outcomes (ws ws' : WebSocketProtocol.t) (data : bytes)
    (ok : bool) (n : nat) (ev : list Event) :
  parseFrame ws data = (ok, n, ws', ev) ->
  (ok = true /\ ws' = ws /\ 2 <= n <= length data)
  \/ (ok = false /\ state_ ws' = CLOSED /\ 2 <= n <= length data)
  \/ (ok = false /\ ws' = ws /\ n = 0
      /\ (ev = [] \/ ev = call_error ws (bytes_of_string "Frame too large"))).
Proof.
  unfold parseFrame.
  destruct (length data <? 2) eqn:E2;
    [intros H; inversion H; right; right; auto|].
  destruct (Z.land (nth 0 data 0) 15 >? 10)%Z;
    [intros H; inversion H; right; right; auto|].
  destruct (parseFrameHeader ws data) as [[[h hs]|] ev0] eqn:Hh.
  - pose proof (parseFrameHeader_size _ _ _ _ _ Hh) as Hhs.
    assert (Hev0 : ev0 = []).
    { revert Hh. unfold parseFrameHeader.
      repeat match goal with
             | |- context [match ?x with _ => _ end] => destruct x
             end; intros H; inversion H; reflexivity. }
    subst ev0.
    destruct (length data <? hs + Z.to_nat (payload_length h)) eqn:El;
      [intros H; inversion H; right; right; auto|].
    apply Nat.ltb_ge in El.
    match goal with
    | |- context [dispatchFrame ws ?o ?p ?t] =>
        destruct (dispatchFrame_instance ws o p t)
          as (ok' & w' & ev' & -> & _ & Ht & Hf)
    end.
    intros H. inversion H; subst. destruct ok.
    + left. repeat split; auto; lia.
    + right. left. repeat split; auto; lia.
  - intros H. inversion H; subst. right. right. repeat split; auto.
    revert Hh. unfold parseFrameHeader.
    repeat match goal with
           | |- context [match ?x with _ => _ end] => destruct x
           end; intros H'; inversion H'; auto.
Qed.

(** A header that was read is read the same with more bytes behind it. *)
Lemma parseFrameHeader_more (ws : WebSocketProtocol.t) (data more : bytes)
    (h : FrameHeader) (headerSize : nat) (ev : list Event) :
  parseFrameHeader ws data = (Some (h, headerSize), ev) ->
  parseFrameHeader ws (data ++ more) = (Some (h, headerSize), ev).
Proof.
  unfold parseFrameHeader.
  destruct data as [|b1 [|b2 r]]; try discriminate.
  cbn [app skipn]. rewrite !drop_0.
  assert (Hlen : length (b1 :: b2 :: r ++ more) = length (b1 :: b2 :: r) + length more)
    by (cbn [length]; rewrite length_app; lia).
  rewrite Hlen.
  set (n := length (b1 :: b2 :: r)).
  assert (Hn : n = 2 + length r) by reflexivity.
  assert (Hsub : forall pos, (n <? pos + 4) = false ->
            substr pos 4 (b1 :: b2 :: r ++ more) = substr pos 4 (b1 :: b2 :: r)).
  { intros pos Hp. apply Nat.ltb_ge in Hp. unfold substr.
    change (b1 :: b2 :: r ++ more) with ((b1 :: b2 :: r) ++ more).
    rewrite skipn_app. rewrite firstn_app.
    replace (4 - length (skipn pos (b1 :: b2 :: r))) with 0
      by (rewrite length_skipn; fold n; lia).
    rewrite take_0, app_nil_r. reflexivity. }
  assert (Hkey : forall pos, (n <? pos + 4) = false ->
            (n + length more <? pos + 4) = false)
    by (intros pos Hp; apply Nat.ltb_ge in Hp; apply Nat.ltb_ge; lia).
  destruct (Z.land b2 127 =? 126)%Z.
  - destruct (n <? 2 + 2) eqn:E; [discriminate|].
    apply Nat.ltb_ge in E.
    replace (n + length more <? 2 + 2) with false
      by (symmetry; apply Nat.ltb_ge; lia).
    assert (Hr : readUint16 (r ++ more) = readUint16 r).
    { unfold readUint16. rewrite !app_nth1 by lia. reflexivity. }
    rewrite Hr.
    destruct (negb (Z.land b2 128 =? 0)%Z); [|exact (fun H => H)].
    destruct (n <? 2 + 2 + 4) eqn:E4; [discriminate|].
    rewrite (Hkey _ E4), (Hsub _ E4). exact (fun H => H).
  - destruct (Z.land b2 127 =? 127)%Z.
    + destruct (n <? 2 + 8) eqn:E; [discriminate|].
      apply Nat.ltb_ge in E.
      replace (n + length more <? 2 + 8) with false
        by (symmetry; apply Nat.ltb_ge; lia).
      assert (Hr : readUint64 (r ++ more) = readUint64 r).
      { unfold readUint64. rewrite firstn_app.
        replace (8 - length r) with 0 by lia.
        rewrite take_0, app_nil_r. reflexivity. }
      rewrite Hr.
      destruct (negb (Z.land b2 128 =? 0)%Z); [|exact (fun H => H)].
      destruct (n <? 2 + 8 + 4) eqn:E4; [discriminate|].
      rewrite (Hkey _ E4), (Hsub _ E4). exact (fun H => H).
    + destruct (negb (Z.land b2 128 =? 0)%Z); [|exact (fun H => H)].
      destruct (n <? 2 + 4) eqn:E4; [discriminate|].
      rewrite (Hkey _ E4), (Hsub _ E4). exact (fun H => H).
Qed.

(** A frame that was taken is taken the same with more bytes behind it. *)
Lemma parseFrame_more (ws ws' : WebSocketProtocol.t) (data more : bytes)
    (ok : bool) (n : nat) (ev : list Event) :
  parseFrame ws data = (ok, n, ws', ev) -> 0 < n ->
  parseFrame ws (data ++ more) = (ok, n, ws', ev).
Proof.
  unfold parseFrame.
  destruct (length data <? 2) eqn:E2;
    [intros H; inversion H; lia|].
  apply Nat.ltb_ge in E2.
  replace (length (data ++ more) <? 2) with false
    by (symmetry; apply Nat.ltb_ge; rewrite length_app; lia).
  rewrite app_nth1 by lia.
  destruct (Z.land (nth 0 data 0) 15 >? 10)%Z;
    [intros H; inversion H; lia|].
  destruct (parseFrameHeader ws data) as [[[h hs]|] ev0] eqn:Hh;
    [|intros H; inversion H; lia].
  rewrite (parseFrameHeader_more _ _ more _ _ _ Hh).
  destruct (length data <? hs + Z.to_nat (payload_length h)) eqn:El;
    [intros H; inversion H; lia|].
  apply Nat.ltb_ge in El.
  replace (length (data ++ more) <? hs + Z.to_nat (payload_length h))
    with false
    by (symmetry; apply Nat.ltb_ge; rewrite length_app; lia).
  assert (Hpay : firstn (Z.to_nat (payload_length h)) (skipn hs (data ++ more))
                 = firstn (Z.to_nat (payload_length h)) (skipn hs data)).
  { rewrite skipn_app, firstn_app.
    replace (Z.to_nat (payload_length h) - length (skipn hs data)) with 0
      by (rewrite length_skipn; lia).
    rewrite take_0, app_nil_r. reflexivity. }
  unfold unmaskPayload. rewrite Hpay. exact (fun H _ => H).
Qed.

Lemma skipn_prefix (pre X : bytes) (k : nat) :
  skipn (length pre + k) (pre ++ X) = skipn k X.
Proof. rewrite <- drop_drop, drop_app_length. reflexivity. Qed.

Lemma erase_consumed_shift (ws : WebSocketProtocol.t) (pre X : bytes) (k : nat) :
  erase_consumed (setBuffer ws (pre ++ X)) (length pre + k)
  = erase_consumed (setBuffer ws X) k.
Proof.
  unfold erase_consumed. cbn [buffer_ setBuffer].
  destruct (0 <? length pre + k) eqn:E.
  - rewrite skipn_prefix. destruct (0 <? k) eqn:Ek; [reflexivity|].
    apply Nat.ltb_ge in Ek. replace k with 0 by lia.
    rewrite drop_0. reflexivity.
  - apply Nat.ltb_ge in E.
    assert (length pre = 0) by lia. assert (k = 0) by lia. subst k.
    destruct pre; [reflexivity | simpl in *; lia].
Qed.

(** The loop over a buffer from a position behind a prefix is the loop over
    the buffer without the prefix. *)
Lemma frameLoop_shift (fuel : nat) (ws : WebSocketProtocol.t) (pre X : bytes)
    (lenA lenB t : nat) (evsA evsB : list Event) :
  exists nA nB w e,
    frameLoop fuel (setBuffer ws (pre ++ X)) lenA (length pre + t) evsA
    = (nA, w, evsA ++ e)
    /\ frameLoop fuel (setBuffer ws X) lenB t evsB = (nB, w, evsB ++ e).
Proof.
  revert ws t evsA evsB.
  induction fuel as [|f IH]; intros ws t evsA evsB; cbn [frameLoop].
  - do 2 eexists. exists (erase_consumed (setBuffer ws X) t), [].
    rewrite erase_consumed_shift, !app_nil_r. split; reflexivity.
  - cbn [buffer_ setBuffer].
    replace (length pre + t <? length (pre ++ X)) with (t <? length X).
    2:{ rewrite length_app. destruct (t <? length X) eqn:E; symmetry.
        - apply Nat.ltb_lt in E. apply Nat.ltb_lt. lia.
        - apply Nat.ltb_ge in E. apply Nat.ltb_ge. lia. }
    destruct (t <? length X).
    + rewrite skipn_prefix.
      destruct (parseFrame ws (skipn t X)) as [[[ok n] ws'] ev] eqn:Hp.
      rewrite (parseFrame_setBuffer _ _ (pre ++ X) _ _ _ _ Hp).
      rewrite (parseFrame_setBuffer _ _ X _ _ _ _ Hp).
      destruct ok; cbn [negb].
      * destruct (IH ws' (t + n) (evsA ++ ev) (evsB ++ ev))
          as (nA & nB & w & e & HA & HB).
        exists nA, nB, w, (ev ++ e).
        rewrite Nat.add_assoc in HA. rewrite HA, HB, !app_assoc.
        split; reflexivity.
      * do 2 eexists.
        exists (erase_consumed (setBuffer ws' X)
                  (if 0 <? n then t + n else t)), ev.
        split; [|reflexivity].
        replace (if 0 <? n then length pre + t + n else length pre + t)
          with (length pre + (if 0 <? n then t + n else t))
          by (destruct (0 <? n); lia).
        rewrite erase_consumed_shift. reflexivity.
    + do 2 eexists. exists (erase_consumed (setBuffer ws X) t), [].
      rewrite erase_consumed_shift, !app_nil_r. split; reflexivity.
Qed.

(** A read that neither closes the connection nor reports an error stops at
    a position [T] of the buffer, and a loop over the same buffer with more
    bytes behind it comes to the same position with the same callbacks
    made. *)
Lemma frameLoop_first_read (fuel : nat) (ws : WebSocketProtocol.t)
    (len tc : nat) (evs : list Event)
    (n1 : nat) (ws1 : WebSocketProtocol.t) (ev1 : list Event) :
  frameLoop fuel ws len tc evs = (n1, ws1, ev1) ->
  length (buffer_ ws) - tc <= fuel -> tc <= length (buffer_ ws) ->
  state_ ws1 <> CLOSED -> (forall m, ~ In (Error m) ev1) ->
  exists T, tc <= T <= length (buffer_ ws)
    /\ ws1 = erase_consumed ws T
    /\ forall d2 len' fuel',
         length (buffer_ ws) + length d2 - tc <= fuel' ->
         frameLoop fuel' (setBuffer ws (buffer_ ws ++ d2)) len' tc evs
         = frameLoop (length (buffer_ ws) + length d2 - T)
                     (setBuffer ws (buffer_ ws ++ d2)) len' T ev1.
Proof.
  revert tc evs.
  induction fuel as [|f IH]; intros tc evs Hrun Hfuel Htc Hst Herr.
  - cbn [frameLoop] in Hrun. injection Hrun as <- <- <-.
    exists tc. split; [lia|]. split; [reflexivity|].
    intros d2 len' fuel' Hf.
    apply frameLoop_enough_fuel; cbn [buffer_ setBuffer];
      rewrite length_app; lia.
  - cbn [frameLoop] in Hrun.
    destruct (tc <? length (buffer_ ws)) eqn:E.
    2:{ injection Hrun as <- <- <-.
        exists tc. split; [lia|]. split; [reflexivity|].
        intros d2 len' fuel' Hf.
        apply frameLoop_enough_fuel; cbn [buffer_ setBuffer];
          rewrite length_app; lia. }
    apply Nat.ltb_lt in E.
    destruct (parseFrame ws (skipn tc (buffer_ ws)))
      as [[[ok n] ws'] ev] eqn:Hp.
    destruct (parseFrame_outcomes _ _ _ _ _ _ Hp)
      as [(-> & -> & Hn) | [(-> & Hcl & Hn) | (-> & -> & -> & Hev)]];
      cbn [negb] in Hrun.
    + rewrite length_skipn in Hn.
      destruct (IH (tc + n) (evs ++ ev) Hrun ltac:(lia) ltac:(lia) Hst Herr)
        as (T & HT & Hws1 & Hmore).
      exists T. split; [lia|]. split; [exact Hws1|].
      intros d2 len' fuel' Hf.
      destruct fuel' as [|f']; [lia|].
      cbn [frameLoop buffer_ setBuffer].
      replace (tc <? length (buffer_ ws ++ d2)) with true
        by (symmetry; apply Nat.ltb_lt; rewrite length_app; lia).
      rewrite skipn_app.
      replace (tc - length (buffer_ ws)) with 0 by lia. rewrite drop_0.
      rewrite (parseFrame_setBuffer _ _ (buffer_ ws ++ d2) _ _ _ _
                 (parseFrame_more _ _ _ d2 _ _ _ Hp ltac:(lia))).
      cbn [negb]. apply Hmore. lia.
    + injection Hrun as _ <- _. exfalso. apply Hst.
      unfold erase_consumed. destruct (0 <? n); destruct (0 <? _); exact Hcl.
    + cbn [Nat.ltb Nat.leb] in Hrun. injection Hrun as <- <- <-.
      assert (Hnil : ev = []).
      { destruct Hev as [-> | ->]; [reflexivity|].
        unfold call_error in *. destruct (errorCallback_ ws); [|reflexivity].
        exfalso. apply (Herr (bytes_of_string "Frame too large")).
        apply in_or_app. right. left. reflexivity. }
      subst ev. rewrite app_nil_r.
      exists tc. split; [lia|]. split; [reflexivity|].
      intros d2 len' fuel' Hf.
      apply frameLoop_enough_fuel; cbn [buffer_ setBuffer];
        rewrite length_app; lia.
Qed.

Lemma erase_consumed_fields (ws : WebSocketProtocol.t) (k : nat) :
  buffer_ (erase_consumed ws k) = skipn k (buffer_ ws)
  /\ state_ (erase_consumed ws k) = state_ ws
  /\ forall b, setBuffer (erase_consumed ws k) b = setBuffer ws b.
Proof.
  unfold erase_consumed. destruct (0 <? k) eqn:E.
  - repeat split; reflexivity.
  - apply Nat.ltb_ge in E. replace k with 0 by lia. rewrite drop_0.
    repeat split; reflexivity.
Qed.

(** X7: the frame loop does not depend on where the reads cut the stream.
    In the OPEN or CLOSING state, if a read of [d1] neither closes the
    connection nor reports an error, then reading [d2] next leaves the
    instance, buffer included, exactly as one read of [d1 ++ d2] would, and
    the two reads make the same callbacks in the same order. *)
Theorem reads_can_be_cut_anywhere (ws ws1 ws2 : WebSocketProtocol.t)
    (d1 d2 : bytes) (n1 n2 : nat) (ev1 ev2 : list Event) :
  state_ ws = OPEN \/ state_ ws = CLOSING ->
  onDataReceived ws d1 = (n1, ws1, ev1) ->
  state_ ws1 <> CLOSED -> (forall m, ~ In (Error m) ev1) ->
  onDataReceived ws1 d2 = (n2, ws2, ev2) ->
  exists n, onDataReceived ws (d1 ++ d2) = (n, ws2, ev1 ++ ev2).
Proof.
  intros Hstate H1 Hopen Hnoerr H2.
  set (W := setBuffer ws (buffer_ ws ++ d1)).
  assert (H1' : frameLoop (length (buffer_ W)) W (length d1) 0 []
                = (n1, ws1, ev1)).
  { unfold onDataReceived in H1. destruct Hstate as [E | E];
      rewrite E in H1; exact H1. }
  destruct (frameLoop_first_read _ _ _ _ _ _ _ _ H1' ltac:(lia) ltac:(lia)
              Hopen Hnoerr) as (T & HT & Hws1 & Hmore).
  destruct (erase_consumed_fields W T) as (Hbuf & Hst1 & Hset).
  rewrite <- Hws1 in Hbuf, Hst1, Hset.
  set (X := skipn T (buffer_ W) ++ d2).
  assert (H2' : frameLoop (length X) (setBuffer W X) (length d2) 0 []
                = (n2, ws2, ev2)).
  { unfold onDataReceived in H2. rewrite Hst1 in H2.
    cbn [state_ setBuffer W] in H2. rewrite Hbuf, !Hset in H2.
    cbn [buffer_ setBuffer] in H2.
    destruct Hstate as [E | E]; rewrite E in H2; exact H2. }
  assert (Hcomb : onDataReceived ws (d1 ++ d2)
                  = frameLoop (length X)
                      (setBuffer W (firstn T (buffer_ W) ++ X))
                      (length (d1 ++ d2))
                      (length (firstn T (buffer_ W)) + 0) ev1).
  { assert (Hall : firstn T (buffer_ W) ++ X = buffer_ W ++ d2)
      by (unfold X; rewrite app_assoc, take_drop; reflexivity).
    rewrite Hall, length_take, Nat.add_0_r, Nat.min_l by lia.
    replace (length X) with (length (buffer_ W) + length d2 - T)
      by (unfold X; rewrite length_app, length_skipn; lia).
    rewrite <- (Hmore d2 (length (d1 ++ d2))
                  (length (buffer_ W ++ d2)))
      by (rewrite length_app; lia).
    unfold onDataReceived. cbn [buffer_ setBuffer W].
    rewrite <- app_assoc.
    destruct Hstate as [E | E]; rewrite E; reflexivity. }
  destruct (frameLoop_shift (length X) W (firstn T (buffer_ W)) X
              (length (d1 ++ d2)) (length d2) 0 ev1 [])
    as (nA & nB & w & e & HA & HB).
  rewrite H2' in HB. cbn [app] in HB. injection HB as _ <- <-.
  exists nA. rewrite Hcomb. exact HA.
Qed.

Lemma reads_can_be_cut_anywhere_witness :
  exists n,
    onDataReceived (Samples.instance OPEN [])
      (firstn 3 (Samples.client_frame 129 [104; 105]%Z)
       ++ skipn 3 (Samples.client_frame 129 [104; 105]%Z))
    = (n, Samples.instance OPEN [], [] ++ [Packet [104; 105]%Z]).
Proof.
  apply (reads_can_be_cut_anywhere
           (Samples.instance OPEN [])
           (Samples.instance OPEN
              (firstn 3 (Samples.client_frame 129 [104; 105]%Z)))
           (Samples.instance OPEN [])
           (firstn 3 (Samples.client_frame 129 [104; 105]%Z))
           (skipn 3 (Samples.client_frame 129 [104; 105]%Z))
           3 8 [] [Packet [104; 105]%Z]).
  - left. reflexivity.
  - vm_compute. reflexivity.
  - discriminate.
  - intros m [].
  - vm_compute. reflexivity.
Defined.

(** ** The state machine *)

Lemma parseFrame_instance (ws ws' : WebSocketProtocol.t) (data : bytes)
    (ok : bool) (n : nat) (ev : list Event) :
  parseFrame ws data = (ok, n, ws', ev) ->
  ws' = ws \/ ws' = setState ws CLOSED.
Proof.
  unfold parseFrame.
  destruct (length data <? 2); [intros H; inversion H; auto|].
  destruct (Z.land (nth 0 data 0) 15 >? 10)%Z; [intros H; inversion H; auto|].
  destruct (parseFrameHeader ws data) as [[[h hs]|] ev0];
    [|intros H; inversion H; auto].
  destruct (length data <? hs + Z.to_nat (payload_length h));
    [intros H; inversion H; auto|].
  unfold dispatchFrame.
  repeat match goal with
         | |- context [if ?b then _ else _] => destruct b
         end; intros H; inversion H; auto.
Qed.

Lemma frameLoop_invariant (fuel : nat) (ws : WebSocketProtocol.t)
    (len tc : nat) (evs : list Event)
    (n : nat) (ws' : WebSocketProtocol.t) (ev : list Event) :
  frameLoop fuel ws len tc evs = (n, ws', ev) ->
  tc <= length (buffer_ ws) ->
  (state_ ws' = state_ ws \/ state_ ws' = CLOSED)
  /\ rawFrameCallback_ ws' = rawFrameCallback_ ws
  /\ packetCallback_ ws' = packetCallback_ ws
  /\ errorCallback_ ws' = errorCallback_ ws
  /\ exists k, tc <= k <= length (buffer_ ws)
       /\ buffer_ ws' = skipn k (buffer_ ws)
       /\ (n = k \/ (k = 0 /\ n = len)).
Proof.
  assert (Hstop : forall w k,
            (state_ (erase_consumed w k) = state_ w)
            /\ rawFrameCallback_ (erase_consumed w k) = rawFrameCallback_ w
            /\ packetCallback_ (erase_consumed w k) = packetCallback_ w
            /\ errorCallback_ (erase_consumed w k) = errorCallback_ w
            /\ buffer_ (erase_consumed w k) = skipn k (buffer_ w)).
  { intros w k. unfold erase_consumed. destruct (0 <? k) eqn:E.
    - repeat split; reflexivity.
    - apply Nat.ltb_ge in E. replace k with 0 by lia. rewrite drop_0.
      repeat split; reflexivity. }
  revert tc evs.
  induction fuel as [|f IH]; intros tc evs Hrun Htc; cbn [frameLoop] in Hrun.
  - injection Hrun as <- <- <-.
    destruct (Hstop ws tc) as (H1 & H2 & H3 & H4 & H5).
    repeat split; auto. exists tc. repeat split; auto; lia.
  - destruct (tc <? length (buffer_ ws)) eqn:E.
    2:{ injection Hrun as <- <- <-.
        destruct (Hstop ws tc) as (H1 & H2 & H3 & H4 & H5).
        repeat split; auto. exists tc. repeat split; auto; lia. }
    destruct (parseFrame ws (skipn tc (buffer_ ws)))
      as [[[ok m] w] e] eqn:Hp.
    pose proof (parseFrame_instance _ _ _ _ _ _ Hp) as Hw.
    destruct (parseFrame_outcomes _ _ _ _ _ _ Hp)
      as [(-> & -> & Hm) | [(-> & Hcl & Hm) | (-> & -> & -> & _)]];
      cbn [negb] in Hrun; try rewrite length_skipn in Hm.
    + destruct (IH (tc + m) (evs ++ e) Hrun ltac:(lia))
        as (H1 & H2 & H3 & H4 & k & Hk & Hb & Hn).
      repeat split; auto. exists k. repeat split; auto; lia.
    + replace (0 <? m) with true in Hrun by (symmetry; apply Nat.ltb_lt; lia).
      replace (0 <? tc + m) with true in Hrun
        by (symmetry; apply Nat.ltb_lt; lia).
      injection Hrun as <- <- <-.
      destruct (Hstop w (tc + m)) as (H1 & H2 & H3 & H4 & H5).
      rewrite H1, H2, H3, H4, H5.
      destruct Hw as [-> | ->]; cbn [state_ buffer_ rawFrameCallback_
        packetCallback_ errorCallback_ setState];
        (repeat split; auto; exists (tc + m); repeat split; auto; lia).
    + change (0 <? 0) with false in Hrun. cbv iota in Hrun.
      injection Hrun as <- <- <-.
      destruct (Hstop ws tc) as (H1 & H2 & H3 & H4 & H5).
      repeat split; auto. exists tc. repeat split; auto; try lia.
      destruct (0 <? tc) eqn:E0; [left; reflexivity|].
      apply Nat.ltb_ge in E0. right. split; lia.
Qed.

(** X8: the transitions of the state machine. A read never leaves the
    instance in CONNECTING; once past the handshake the state stays as it
    is or becomes CLOSED; the callbacks stay as they were set; and in the
    OPEN or CLOSING state the buffer afterwards is what is left of the old
    buffer plus the input after [k] bytes, with the returned count being
    [k] or, when nothing was taken, possibly the length of the input. *)
Theorem onDataReceived_transitions (ws ws' : WebSocketProtocol.t)
    (data : bytes) (n : nat) (ev : list Event) :
  onDataReceived ws data = (n, ws', ev) ->
  state_ ws' <> CONNECTING
  /\ (state_ ws <> CONNECTING ->
      state_ ws' = state_ ws \/ state_ ws' = CLOSED)
  /\ rawFrameCallback_ ws' = rawFrameCallback_ ws
  /\ packetCallback_ ws' = packetCallback_ ws
  /\ errorCallback_ ws' = errorCallback_ ws
  /\ (state_ ws = OPEN \/ state_ ws = CLOSING ->
      exists k, k <= length (buffer_ ws ++ data)
        /\ buffer_ ws' = skipn k (buffer_ ws ++ data)
        /\ (n = k \/ (k = 0 /\ n = length data))).
Proof.
  unfold onDataReceived. intros H.
  destruct (state_ ws) eqn:Est.
  - destruct (handleHandshake ws data) as [[|] e];
      injection H as <- <- <-; cbn [state_ setState setBuffer
        rawFrameCallback_ packetCallback_ errorCallback_];
      repeat split; try discriminate; try reflexivity;
      try (intros Hc; congruence); intros [Hc | Hc]; discriminate.
  - apply frameLoop_invariant in H; [|lia].
    cbn [state_ buffer_ setBuffer rawFrameCallback_ packetCallback_
         errorCallback_] in H.
    destruct H as (H1 & H2 & H3 & H4 & k & Hk & Hb & Hn). rewrite Est in H1.
    repeat split; auto.
    + destruct H1 as [-> | ->]; discriminate.
    + intros _. exists k. repeat split; auto; lia.
  - apply frameLoop_invariant in H; [|lia].
    cbn [state_ buffer_ setBuffer rawFrameCallback_ packetCallback_
         errorCallback_] in H.
    destruct H as (H1 & H2 & H3 & H4 & k & Hk & Hb & Hn). rewrite Est in H1.
    repeat split; auto.
    + destruct H1 as [-> | ->]; discriminate.
    + intros _. exists k. repeat split; auto; lia.
  - injection H as <- <- <-. rewrite Est.
    repeat split; auto; try discriminate. intros [Hc | Hc]; discriminate.
Qed.

Lemma onDataReceived_transitions_witness :
  state_ (Samples.instance CLOSED []) <> CONNECTING.
Proof.
  exact (proj1 (onDataReceived_transitions
                  (Samples.instance OPEN []) (Samples.instance CLOSED [])
                  (Samples.client_frame 136 []) 6 [] eq_refl)).
Defined.

(** ** Text *)

(** X9: text that is strictly valid UTF-8 is never refused: it passes
    [isValidUtf8], so [pack] and [packTextMessage] return [true] and append
    one TEXT frame with the text as payload to the output. *)
Theorem valid_text_is_packed (text out : bytes) :
  Utf8.strict_utf8 text = true ->
  isValidUtf8 text = true
  /\ pack text out = (true, out ++ createFrame TEXT text true)
  /\ packTextMessage text out = (true, out ++ createFrame TEXT text true).
Proof.
  intros H. apply strict_utf8_accepted in H.
  unfold pack, packTextMessage, packMessage. rewrite H. auto.
Qed.

Lemma valid_text_is_packed_witness :
  pack [195; 169]%Z [7]%Z = (true, [7; 129; 2; 195; 169]%Z).
Proof.
  exact (proj1 (proj2 (valid_text_is_packed [195; 169]%Z [7]%Z eq_refl))).
Defined.

Lemma isValidUtf8_app_bounded (n : nat) :
  forall a b, length a <= n -> isValidUtf8 a = true ->
              isValidUtf8 (a ++ b) = isValidUtf8 b.
Proof.
  induction n as [|n IH]; intros a b Hlen Ha.
  - destruct a; [reflexivity | simpl in Hlen; lia].
  - destruct a as [|c r1]; [reflexivity|].
    cbn [isValidUtf8 app] in *. cbn [length] in Hlen.
    destruct (c <? 128)%Z; [apply IH; [lia | exact Ha]|].
    destruct (Z.land c 224 =? 192)%Z.
    { destruct r1 as [|c1 r2]; [discriminate|]. cbn [app].
      destruct (negb (is_cont c1)); [discriminate|].
      apply IH; [cbn [length] in Hlen; lia | exact Ha]. }
    destruct (Z.land c 240 =? 224)%Z.
    { destruct r1 as [|c1 [|c2 r3]]; try discriminate. cbn [app].
      destruct (negb (is_cont c1) || negb (is_cont c2)); [discriminate|].
      apply IH; [cbn [length] in Hlen; lia | exact Ha]. }
    destruct (Z.land c 248 =? 240)%Z; [|discriminate].
    destruct r1 as [|c1 [|c2 [|c3 r4]]]; try discriminate. cbn [app].
    destruct (negb (is_cont c1) || negb (is_cont c2) || negb (is_cont c3));
      [discriminate|].
    apply IH; [cbn [length] in Hlen; lia | exact Ha].
Qed.

(** X10: [isValidUtf8] reads a string sequence by sequence: behind a prefix
    that passes, the whole string passes exactly when the rest does. So two
    texts that pass still pass when joined, and an accepted text followed by
    a refused one is refused. *)
Theorem isValidUtf8_app (a b : bytes) :
  isValidUtf8 a = true -> isValidUtf8 (a ++ b) = isValidUtf8 b.
Proof. apply (isValidUtf8_app_bounded (length a)). lia. Qed.

Lemma isValidUtf8_app_witness :
  isValidUtf8 ([195; 169]%Z ++ [195; 40]%Z) = isValidUtf8 [195; 40]%Z.
Proof. exact (isValidUtf8_app [195; 169]%Z [195; 40]%Z eq_refl). Defined.

(** ** Close frames *)

(** X11: for a 16-bit status code and a reason of at most 123 bytes, the
    close frame that [WebSocketServer::sendCloseFrame] writes by hand is the
    frame [packClose] builds: [88], the length [2 + |reason|], the code big
    end first, the reason; and [readUint16] reads the code back from its
    payload. *)
Theorem close_frame_layout (code : Z) (reason : bytes) :
  (0 <= code < 2 ^ 16)%Z -> length reason <= 123 ->
  packClose code reason
  = [136; 2 + Z.of_nat (length reason); Z.shiftr code 8; Z.land code 255]%Z
    ++ reason
  /\ WebSocketServer.sendCloseFrame code reason = packClose code reason
  /\ readUint16 (skipn 2 (packClose code reason)) = code.
Proof.
  intros Hcode Hlen.
  assert (Hhi : (0 <= Z.shiftr code 8 < 256)%Z)
    by exact (shiftr_bound code 8 8 ltac:(lia) ltac:(lia) Hcode).
  assert (Hlo : (0 <= Z.land code 255 < 256)%Z).
  { change 255%Z with (Z.ones 8). rewrite Z.land_ones by lia.
    apply Z.mod_pos_bound. lia. }
  assert (Hpack : packClose code reason
    = [136; 2 + Z.of_nat (length reason); Z.shiftr code 8; Z.land code 255]%Z
      ++ reason).
  { unfold packClose, createFrame, writeUint16. cbn [app length].
    replace (Z.of_nat (S (S (length reason))) <? 126)%Z with true
      by (symmetry; apply Z.ltb_lt; lia).
    replace (Z.of_nat (S (S (length reason))))
      with (2 + Z.of_nat (length reason))%Z by lia.
    change (to_char (Z.lor 128 CLOSE)) with 136%Z.
    rewrite to_char_byte by (unfold is_byte; lia).
    rewrite (land_255_small (Z.shiftr code 8)) by lia. reflexivity. }
  split; [exact Hpack|]. split.
  - rewrite Hpack. unfold WebSocketServer.sendCloseFrame, to_char.
    rewrite (Z.mod_small (2 + _)) by lia.
    rewrite (Z.mod_small (Z.shiftr code 8)) by lia.
    rewrite (Z.mod_small (Z.land code 255)) by lia.
    reflexivity.
  - rewrite Hpack. cbn [app skipn].
    rewrite <- (land_255_small (Z.shiftr code 8)) at 1 by lia.
    apply (readUint16_writeUint16 code reason). lia.
Qed.

Lemma close_frame_layout_witness :
  WebSocketServer.sendCloseFrame 1007
    (bytes_of_string "Invalid UTF-8 in TEXT frame")
  = packClose 1007 (bytes_of_string "Invalid UTF-8 in TEXT frame").
Proof.
  refine (proj1 (proj2 (close_frame_layout 1007
            (bytes_of_string "Invalid UTF-8 in TEXT frame") _ _))).
  - lia.
  - vm_compute. lia.
Defined.

(** ** The key-value store *)

(** The tests on the command name, for a name that is one of the six. *)
Ltac decide_names :=
  repeat match goal with
         | |- context [bytes_eqb (bytes_of_string ?a) (bytes_of_string ?b)] =>
             let v := eval vm_compute in
                        (bytes_eqb (bytes_of_string a) (bytes_of_string b)) in
             change (bytes_eqb (bytes_of_string a) (bytes_of_string b)) with v
         end.

Lemma execute_SET (p : PureRedisProtocol.t) (name k v : bytes) :
  map toupper name = bytes_of_string "SET" ->
  executeRedisCommand p [name; k; v]
  = (formatSimpleString (bytes_of_string "OK"),
     setStringData p (<[k := v]> (m_stringData p))).
Proof.
  intros H. unfold executeRedisCommand. cbn [nth length]. rewrite H.
  decide_names. reflexivity.
Qed.

Lemma execute_GET (p : PureRedisProtocol.t) (name k : bytes) :
  map toupper name = bytes_of_string "GET" ->
  executeRedisCommand p [name; k]
  = (match m_stringData p !! k with
     | None => formatNull
     | Some v => formatBulkString v
     end, p).
Proof.
  intros H. unfold executeRedisCommand. cbn [nth length]. rewrite H.
  decide_names. cbn [andb Nat.eqb].
  destruct (m_stringData p !! k); reflexivity.
Qed.

Lemma execute_DEL (p : PureRedisProtocol.t) (name k : bytes)
    (keys : list bytes) :
  map toupper name = bytes_of_string "DEL" ->
  executeRedisCommand p (name :: k :: keys)
  = (formatInteger (snd (erase_all (k :: keys) (m_stringData p) 0)),
     setStringData p (fst (erase_all (k :: keys) (m_stringData p) 0))).
Proof.
  intros H. unfold executeRedisCommand. cbn [nth length skipn]. rewrite H.
  decide_names. cbn [andb Nat.eqb Nat.leb].
  destruct (erase_all (k :: keys) (m_stringData p) 0). reflexivity.
Qed.

(** X12: the store behaves as a map under SET, GET and DEL, whatever the
    letter case of the command names. After [SET k v], [GET k] answers the
    bulk string [v] and the answer for any other key is as before; [DEL k]
    then answers [:1], after which [GET k] answers the null bulk [$-1] and
    a second [DEL k] answers [:0]. *)
Theorem set_get_del_laws (p : PureRedisProtocol.t) (set get del k v : bytes) :
  map toupper set = bytes_of_string "SET" ->
  map toupper get = bytes_of_string "GET" ->
  map toupper del = bytes_of_string "DEL" ->
  let p1 := snd (executeRedisCommand p [set; k; v]) in
  let p2 := snd (executeRedisCommand p1 [del; k]) in
  fst (executeRedisCommand p [set; k; v]) = bytes_of_string "+OK" ++ CRLF
  /\ fst (executeRedisCommand p1 [get; k]) = formatBulkString v
  /\ (forall k', k' <> k ->
        fst (executeRedisCommand p1 [get; k'])
        = fst (executeRedisCommand p [get; k']))
  /\ fst (executeRedisCommand p1 [del; k]) = bytes_of_string ":1" ++ CRLF
  /\ fst (executeRedisCommand p2 [get; k]) = bytes_of_string "$-1" ++ CRLF
  /\ fst (executeRedisCommand p2 [del; k]) = bytes_of_string ":0" ++ CRLF.
Proof.
  intros Hset Hget Hdel p1 p2. subst p1 p2.
  rewrite (execute_SET _ _ _ _ Hset). cbn [fst snd].
  rewrite !(execute_DEL _ _ _ _ Hdel). cbn [fst snd erase_all].
  rewrite !(execute_GET _ _ _ Hget). cbn [fst snd m_stringData setStringData].
  rewrite lookup_insert_eq. cbn [fst snd m_stringData setStringData].
  rewrite lookup_delete_eq. cbn [fst snd].
  repeat split; try reflexivity.
  intros k' Hk. rewrite !(execute_GET _ _ _ Hget).
  cbn [fst m_stringData setStringData].
  rewrite lookup_insert_ne by congruence. reflexivity.
Qed.

Lemma set_get_del_laws_witness :
  fst (executeRedisCommand
         (snd (executeRedisCommand PureRedisProtocol.create
                 (map bytes_of_string ["set"; "k"; "v"])))
         (map bytes_of_string ["Get"; "k"]))
  = formatBulkString (bytes_of_string "v").
Proof.
  exact (proj1 (proj2 (set_get_del_laws PureRedisProtocol.create
                  (bytes_of_string "set") (bytes_of_string "Get")
                  (bytes_of_string "dEL") (bytes_of_string "k")
                  (bytes_of_string "v") eq_refl eq_refl eq_refl))).
Defined.

Lemma erase_all_spec (keys : list bytes) (m : gmap bytes bytes) (d : Z) :
  (forall k, fst (erase_all keys m d) !! k
             = if bool_decide (k ∈ keys) then None else m !! k)
  /\ snd (erase_all keys m d)
     = (d + Z.of_nat (size m) - Z.of_nat (size (fst (erase_all keys m d))))%Z.
Proof.
  revert m d. induction keys as [|k0 keys IH]; intros m d; cbn [erase_all].
  - split; [|cbn [fst snd]; lia].
    intros k. rewrite bool_decide_eq_false_2 by apply not_elem_of_nil.
    reflexivity.
  - destruct (m !! k0) as [v|] eqn:E.
    + destruct (IH (delete k0 m) (d + 1)%Z) as [H1 H2]. split.
      * intros k. rewrite H1.
        destruct (decide (k = k0)) as [-> | Hne].
        -- rewrite lookup_delete_eq.
           rewrite (bool_decide_eq_true_2 (k0 ∈ k0 :: keys))
             by apply list_elem_of_here.
           destruct (bool_decide (k0 ∈ keys)); reflexivity.
        -- rewrite lookup_delete_ne by congruence.
           destruct (bool_decide (k ∈ keys)) eqn:Ek.
           ++ apply bool_decide_eq_true in Ek.
              rewrite bool_decide_eq_true_2
                by (apply list_elem_of_further; exact Ek).
              reflexivity.
           ++ apply bool_decide_eq_false in Ek.
              rewrite bool_decide_eq_false_2; [reflexivity|].
              intros Hin. apply elem_of_cons in Hin.
              destruct Hin; [congruence | contradiction].
      * rewrite H2.
        pose proof (map_size_delete_Some k0 m (mk_is_Some _ _ E)) as Hs.
        assert (size m <> 0).
        { apply map_size_ne_0_lookup. exists k0. eauto. }
        lia.
    + destruct (IH m d) as [H1 H2]. split; [|exact H2].
      intros k. rewrite H1.
      destruct (decide (k = k0)) as [-> | Hne].
      * rewrite (bool_decide_eq_true_2 (k0 ∈ k0 :: keys))
          by apply list_elem_of_here.
        rewrite E. destruct (bool_decide (k0 ∈ keys)); reflexivity.
      * destruct (bool_decide (k ∈ keys)) eqn:Ek.
        -- apply bool_decide_eq_true in Ek.
           rewrite bool_decide_eq_true_2
             by (apply list_elem_of_further; exact Ek).
           reflexivity.
        -- apply bool_decide_eq_false in Ek.
           rewrite bool_decide_eq_false_2; [reflexivity|].
           intros Hin. apply elem_of_cons in Hin.
           destruct Hin; [congruence | contradiction].
Qed.

(** X13: [DEL] with any number of keys removes exactly the listed keys and
    answers the number of entries that went away, so a key listed twice or
    a key that is not there counts for nothing; the other entries and the
    receive buffers stay as they were. *)
Theorem del_removes_and_counts (p : PureRedisProtocol.t) (del k0 : bytes)
    (keys : list bytes) :
  map toupper del = bytes_of_string "DEL" ->
  let reply := fst (executeRedisCommand p (del :: k0 :: keys)) in
  let p' := snd (executeRedisCommand p (del :: k0 :: keys)) in
  reply = formatInteger (Z.of_nat (size (m_stringData p))
                         - Z.of_nat (size (m_stringData p')))
  /\ (forall k, k ∈ k0 :: keys -> m_stringData p' !! k = None)
  /\ (forall k, k ∉ k0 :: keys -> m_stringData p' !! k = m_stringData p !! k)
  /\ m_clientBuffers p' = m_clientBuffers p.
Proof.
  intros Hdel reply p'. subst reply p'.
  rewrite (execute_DEL _ _ _ _ Hdel). cbn [fst snd m_stringData setStringData
                                           m_clientBuffers].
  destruct (erase_all_spec (k0 :: keys) (m_stringData p) 0) as [H1 H2].
  repeat split.
  - rewrite H2. f_equal; lia.
  - intros k Hk. rewrite H1, bool_decide_eq_true_2 by exact Hk. reflexivity.
  - intros k Hk. rewrite H1, bool_decide_eq_false_2 by exact Hk. reflexivity.
Qed.

Lemma del_removes_and_counts_witness :
  fst (executeRedisCommand
         (snd (executeRedisCommand PureRedisProtocol.create
                 (map bytes_of_string ["SET"; "a"; "1"])))
         (map bytes_of_string ["del"; "a"; "a"; "b"]))
  = formatInteger (1 - 0).
Proof.
  exact (proj1 (del_removes_and_counts
                  (snd (executeRedisCommand PureRedisProtocol.create
                          (map bytes_of_string ["SET"; "a"; "1"])))
                  (bytes_of_string "del") (bytes_of_string "a")
                  (map bytes_of_string ["a"; "b"]) eq_refl)).
Defined.

(** X14: every reply of [executeRedisCommand] starts with one of the five
    RESP type bytes, so [sendDirectResponse] never drops a reply for its
    first byte: for a positive descriptor exactly the reply is handed to
    [send], and for a descriptor that is zero or negative nothing is. *)
Theorem every_reply_is_sent (p : PureRedisProtocol.t) (args : list bytes)
    (clientFd : Z) :
  args <> [] ->
  sendDirectResponse clientFd (fst (executeRedisCommand p args))
  = if (clientFd >? 0)%Z
    then [(clientFd, fst (executeRedisCommand p args))] else [].
Proof.
  intros _. unfold executeRedisCommand.
  repeat match goal with
         | |- context [if ?b then _ else _] =>
             lazymatch b with
             | (clientFd >? 0)%Z => fail
             | _ => destruct b
             end
         | |- context [match ?m !! ?k with _ => _ end] => destruct (m !! k)
         | |- context [let '(_, _) := ?e in _] => destruct e
         end; reflexivity.
Qed.

Lemma every_reply_is_sent_witness :
  sendDirectResponse 5
    (fst (executeRedisCommand PureRedisProtocol.create
            (map bytes_of_string ["GET"; "k"])))
  = [(5%Z, Samples.lines ["$-1"])].
Proof.
  refine (every_reply_is_sent PureRedisProtocol.create
            (map bytes_of_string ["GET"; "k"]) 5 _).
  discriminate.
Defined.

(** X15: only [SET] and [DEL] write. A command under any other name leaves
    the instance as it was, and no command touches the receive buffers. *)
Theorem only_set_and_del_write (p : PureRedisProtocol.t) (args : list bytes) :
  args <> [] ->
  m_clientBuffers (snd (executeRedisCommand p args)) = m_clientBuffers p
  /\ (map toupper (nth 0 args []) <> bytes_of_string "SET" ->
      map toupper (nth 0 args []) <> bytes_of_string "DEL" ->
      snd (executeRedisCommand p args) = p).
Proof.
  intros _. unfold executeRedisCommand.
  set (cmd := map toupper (nth 0 args [])).
  destruct (bytes_eqb cmd (bytes_of_string "COMMAND")); [split; reflexivity|].
  destruct (bytes_eqb cmd (bytes_of_string "PING")).
  { destruct (length args =? 1); [split; reflexivity|].
    destruct (length args =? 2); split; reflexivity. }
  destruct (bytes_eqb cmd (bytes_of_string "SET")) eqn:Eset.
  { apply bytes_eqb_eq in Eset.
    destruct (length args =? 3); cbn [andb].
    - split; [reflexivity | intros H; contradiction].
    - split; [|intros H; contradiction].
      repeat match goal with
             | |- context [if ?b then _ else _] => destruct b
             | |- context [match ?m !! ?k with _ => _ end] => destruct (m !! k)
             | |- context [let '(_, _) := ?e in _] => destruct e
             end; reflexivity. }
  cbn [andb].
  destruct (bytes_eqb cmd (bytes_of_string "GET") && (length args =? 2)).
  { destruct (m_stringData p !! nth 1 args []); split; reflexivity. }
  destruct (bytes_eqb cmd (bytes_of_string "DEL")) eqn:Edel.
  { apply bytes_eqb_eq in Edel.
    destruct (2 <=? length args); cbn [andb].
    - destruct (erase_all (skipn 1 args) (m_stringData p) 0).
      split; [reflexivity | intros _ H; contradiction].
    - split; [|intros _ H; contradiction].
      destruct (bytes_eqb cmd (bytes_of_string "KEYS") && (length args =? 2));
        reflexivity. }
  cbn [andb].
  destruct (bytes_eqb cmd (bytes_of_string "KEYS") && (length args =? 2));
    split; reflexivity.
Qed.

Lemma only_set_and_del_write_witness :
  snd (executeRedisCommand PureRedisProtocol.create
         (map bytes_of_string ["FLUSHALL"]))
  = PureRedisProtocol.create.
Proof.
  refine (proj2 (only_set_and_del_write PureRedisProtocol.create
                   (map bytes_of_string ["FLUSHALL"]) _) _ _);
    vm_compute; discriminate.
Defined.

(** X16: [KEYS] answers the array of all keys of the store, each once,
    whatever the pattern given: the pattern is never looked at. *)
Theorem keys_lists_every_key (p : PureRedisProtocol.t) (keys pattern : bytes) :
  map toupper keys = bytes_of_string "KEYS" ->
  exists l,
    executeRedisCommand p [keys; pattern] = (formatArray l, p)
    /\ NoDup l
    /\ (forall k, k ∈ l <-> is_Some (m_stringData p !! k)).
Proof.
  intros H. exists (map fst (map_to_list (m_stringData p))). split; [|split].
  - unfold executeRedisCommand. cbn [nth length]. rewrite H.
    decide_names. reflexivity.
  - apply NoDup_fst_map_to_list.
  - intros k. split.
    + intros Hin. apply list_elem_of_fmap in Hin.
      destruct Hin as ([k' v] & -> & Hin).
      apply elem_of_map_to_list in Hin. cbn [fst]. eauto.
    + intros [v Hv]. apply list_elem_of_fmap. exists (k, v).
      split; [reflexivity|]. apply elem_of_map_to_list. exact Hv.
Qed.

Lemma keys_lists_every_key_witness :
  exists l,
    executeRedisCommand PureRedisProtocol.create
      (map bytes_of_string ["keys"; "user:*"])
    = (formatArray l, PureRedisProtocol.create)
    /\ NoDup l
    /\ (forall k, k ∈ l
                  <-> is_Some (m_stringData PureRedisProtocol.create !! k)).
Proof.
  exact (keys_lists_every_key PureRedisProtocol.create (bytes_of_string "keys")
           (bytes_of_string "user:*") eq_refl).
Defined.

(** ** Commands in a row *)

Lemma formatArray_head (l : list bytes) :
  exists r, formatArray l = 42%Z :: r.
Proof. unfold formatArray. cbn [app]. eauto. Qed.

(** A complete RESP array is decoded with more bytes behind it. *)
Lemma resp_decode_more (l : list bytes) (tail : bytes) :
  (Z.of_nat (length (formatArray l ++ tail)) <= INT64_MAX)%Z ->
  resp_decode (formatArray l ++ tail) = Decoded l (length (formatArray l)).
Proof.
  intros Hmax.
  assert (Hshape : formatArray l ++ tail
                   = ([42%Z] ++ to_string_nat (length l) ++ CRLF)
                     ++ bulks l ++ tail).
  { unfold formatArray, bulks. rewrite <- !app_assoc. reflexivity. }
  assert (Hl : (Z.of_nat (length l) <= INT64_MAX)%Z).
  { assert (length l <= length (bulks l)).
    { clear. induction l as [|x l IH]; [simpl; lia|].
      unfold bulks in *. cbn [map concat length].
      rewrite length_app, formatBulkString_length. lia. }
    rewrite Hshape, !length_app in Hmax. lia. }
  replace (formatArray l ++ tail)
    with ([42%Z] ++ to_string_nat (length l) ++ CRLF ++ bulks l ++ tail)
    by (rewrite Hshape, <- !app_assoc; reflexivity).
  rewrite resp_decode_count by apply to_string_nat_no_CR.
  rewrite stoll_to_string_nat by exact Hl.
  rewrite Nat2Z.id.
  pose proof (decode_bulks_prefix l 0
                ([42%Z] ++ to_string_nat (length l) ++ CRLF) tail []) as Hp.
  rewrite Nat.add_0_r in Hp.
  replace ([42%Z] ++ to_string_nat (length l) ++ CRLF ++ bulks l ++ tail)
    with (([42%Z] ++ to_string_nat (length l) ++ CRLF) ++ bulks l ++ tail)
    by (rewrite <- !app_assoc; reflexivity).
  rewrite Hp by (rewrite <- Hshape; exact Hmax).
  cbn [decode_bulks app]. f_equal.
  rewrite formatArray_shape, app_nil_r, length_app. reflexivity.
Qed.

Lemma commandLoop_pipeline (commands : list (list bytes)) (tail : bytes)
    (clientFd : Z) :
  resp_decode tail = NotDecoded ->
  forall (p : PureRedisProtocol.t) (fuel totalProcessed : nat)
         (sent : list (Z * bytes)),
    length commands < fuel ->
    (Z.of_nat (length (pipeline commands ++ tail)) <= INT64_MAX)%Z ->
    commandLoop fuel p clientFd (pipeline commands ++ tail) totalProcessed sent
    = Some (Returned (totalProcessed + length (pipeline commands))
              (setClientBuffer (fst (run_commands p clientFd commands))
                               clientFd tail)
              (sent ++ snd (run_commands p clientFd commands))).
Proof.
  intros Htail.
  induction commands as [|args rest IH]; intros p fuel tot sent Hfuel Hmax;
    (destruct fuel as [|f]; [cbn [length] in Hfuel; lia|]).
  - cbn [pipeline map concat app commandLoop run_commands fst snd length].
    rewrite Htail, Nat.add_0_r, app_nil_r. reflexivity.
  - unfold pipeline in *. cbn [map concat] in *. rewrite <- app_assoc in *.
    cbn [commandLoop]. rewrite (resp_decode_more _ _ Hmax).
    rewrite drop_app_length.
    assert (Hstep :
      (match args with
       | [] => (p, [])
       | _ :: _ =>
           let '(response, p1) := executeRedisCommand p args in
           (p1, sendDirectResponse clientFd response)
       end) = processRedisCommand p clientFd args) by reflexivity.
    rewrite Hstep. cbn [run_commands].
    destruct (processRedisCommand p clientFd args) as [p1 out].
    rewrite IH.
    + destruct (run_commands p1 clientFd rest) as [p2 outs]. cbn [fst snd].
      rewrite length_app, Nat.add_assoc, app_assoc. reflexivity.
    + cbn [length] in Hfuel. lia.
    + rewrite length_app in Hmax. lia.
Qed.

(** ** What is stripped before decoding *)

(** A byte that differs from the expected one sends the match of
    [filterHeartbeat] to its default branch. *)
Ltac other_byte H :=
  match type of H with
  | ?a <> _ =>
      destruct a as [|q|q]; try reflexivity;
      do 8 (try (destruct q as [q|q|]; try reflexivity));
      exfalso; apply H; reflexivity
  end.

Lemma filterHeartbeat_other1 (a : Z) (r : bytes) :
  a <> 250%Z -> filterHeartbeat (a :: r) = a :: r.
Proof. intros H. other_byte H. Qed.

Lemma filterHeartbeat_other2 (b : Z) (r : bytes) :
  b <> 251%Z -> filterHeartbeat (250%Z :: b :: r) = 250%Z :: b :: r.
Proof. intros H. other_byte H. Qed.

Lemma filterHeartbeat_other3 (c : Z) (r : bytes) :
  c <> 252%Z ->
  filterHeartbeat (250%Z :: 251%Z :: c :: r) = 250%Z :: 251%Z :: c :: r.
Proof. intros H. other_byte H. Qed.

Lemma filterHeartbeat_other4 (d : Z) (r : bytes) :
  d <> 253%Z ->
  filterHeartbeat (250%Z :: 251%Z :: 252%Z :: d :: r)
  = 250%Z :: 251%Z :: 252%Z :: d :: r.
Proof. intros H. other_byte H. Qed.

(** [filterHeartbeat] by its loop: while the first four bytes are the
    magic number, drop them. *)
Lemma filterHeartbeat_unfold (data : bytes) :
  filterHeartbeat data
  = if bytes_eqb (firstn 4 data) [250; 251; 252; 253]%Z
    then filterHeartbeat (skipn 4 data) else data.
Proof.
  assert (Hne : forall l : bytes, l <> [250; 251; 252; 253]%Z ->
                  bytes_eqb l [250; 251; 252; 253]%Z = false)
    by (intros l Hl; apply bool_decide_eq_false_2; exact Hl).
  destruct data as [|a r]; [reflexivity|].
  destruct (decide (a = 250%Z)) as [-> | Ha].
  2:{ rewrite filterHeartbeat_other1 by exact Ha.
      rewrite Hne; [reflexivity|]. destruct r as [|? [|? [|? ?]]]; simpl;
        intros E; inversion E; congruence. }
  destruct r as [|b r]; [reflexivity|].
  destruct (decide (b = 251%Z)) as [-> | Hb].
  2:{ rewrite filterHeartbeat_other2 by exact Hb.
      rewrite Hne; [reflexivity|]. destruct r as [|? [|? ?]]; simpl;
        intros E; inversion E; congruence. }
  destruct r as [|c r]; [reflexivity|].
  destruct (decide (c = 252%Z)) as [-> | Hc].
  2:{ rewrite filterHeartbeat_other3 by exact Hc.
      rewrite Hne; [reflexivity|]. destruct r as [|? ?]; simpl;
        intros E; inversion E; congruence. }
  destruct r as [|d r]; [reflexivity|].
  destruct (decide (d = 253%Z)) as [-> | Hd].
  2:{ rewrite filterHeartbeat_other4 by exact Hd.
      rewrite Hne; [reflexivity|]. simpl.
      intros E; inversion E; congruence. }
  reflexivity.
Qed.

Lemma filterHeartbeat_length (n : nat) :
  forall data, length data <= n ->
    length (filterHeartbeat data) <= length data
    /\ (length (filterHeartbeat data) = length data ->
        filterHeartbeat data = data).
Proof.
  induction n as [|n IH]; intros data Hn.
  - destruct data; [split; reflexivity | simpl in Hn; lia].
  - rewrite filterHeartbeat_unfold.
    destruct (bytes_eqb (firstn 4 data) [250; 251; 252; 253]%Z) eqn:E;
      [|split; reflexivity].
    apply bytes_eqb_eq in E.
    assert (Hlen : 4 <= length data).
    { apply (f_equal (@length Z)) in E. rewrite length_take in E.
      cbn [length] in E. lia. }
    destruct (IH (skipn 4 data) ltac:(rewrite length_skipn; lia)) as [H1 _].
    rewrite length_skipn in H1. split; lia.
Qed.

Lemma filterNullBytes_length (data : bytes) :
  length (filterNullBytes data) <= length data
  /\ (length (filterNullBytes data) = length data ->
      filterNullBytes data = data).
Proof.
  unfold filterNullBytes. induction data as [|c r [IH1 IH2]];
    [split; reflexivity|].
  destruct (decide (c <> 0%Z)) as [Hc | Hc].
  - rewrite filter_cons_True by exact Hc. cbn [length]. split; [lia|].
    intros H. f_equal. apply IH2. lia.
  - rewrite filter_cons_False by exact Hc. cbn [length]. split; lia.
Qed.

Lemma filterNullBytes_clean (data : bytes) :
  Forall (fun c => c <> 0%Z) (filterNullBytes data).
Proof.
  unfold filterNullBytes. induction data as [|c r IH]; [constructor|].
  destruct (decide (c <> 0%Z)) as [Hc | Hc].
  - rewrite filter_cons_True by exact Hc. constructor; assumption.
  - rewrite filter_cons_False by exact Hc. exact IH.
Qed.

Lemma filterNullBytes_id (data : bytes) :
  Forall (fun c => c <> 0%Z) data -> filterNullBytes data = data.
Proof.
  unfold filterNullBytes. induction 1 as [|c r Hc _ IH]; [reflexivity|].
  rewrite filter_cons_True by exact Hc. f_equal. exact IH.
Qed.

(** The buffer that [onClientDataReceived] decodes. *)
Lemma decoded_buffer (fuel : nat) (p : PureRedisProtocol.t) (clientFd : Z)
    (data : bytes) :
  onClientDataReceived fuel p clientFd data
  = commandLoop fuel p clientFd
      (filterNullBytes
         (filterHeartbeat (default [] (m_clientBuffers p !! clientFd) ++ data)))
      0 [].
Proof.
  unfold onClientDataReceived.
  set (buffer := default [] (m_clientBuffers p !! clientFd) ++ data).
  destruct (length (filterNullBytes (filterHeartbeat buffer)) =? length buffer)
    eqn:E; [|reflexivity].
  apply Nat.eqb_eq in E. cbn [negb].
  destruct (filterHeartbeat_length (length buffer) buffer ltac:(lia))
    as [H1 H2].
  destruct (filterNullBytes_length (filterHeartbeat buffer)) as [H3 H4].
  rewrite H4 by lia. rewrite H2 by lia. reflexivity.
Qed.

(** X17: commands that arrive together are all run, in the order they were
    sent. When the stored buffer plus the input is a run of complete RESP
    arrays followed by bytes that do not decode yet, with no NUL byte and
    no heartbeat in front, [onClientDataReceived] applies every command
    with [processRedisCommand] in turn, sends each reply, reports the size
    of the arrays as processed and keeps exactly the undecoded bytes for
    the next read. *)
Theorem pipelined_commands_run_in_order (p : PureRedisProtocol.t)
    (clientFd : Z) (data : bytes) (commands : list (list bytes))
    (tail : bytes) (fuel : nat) :
  default [] (m_clientBuffers p !! clientFd) ++ data = pipeline commands ++ tail ->
  Forall (fun c => c <> 0%Z) (pipeline commands ++ tail) ->
  firstn 4 tail <> [250; 251; 252; 253]%Z ->
  resp_decode tail = NotDecoded ->
  (Z.of_nat (length (pipeline commands ++ tail)) <= INT64_MAX)%Z ->
  length commands < fuel ->
  onClientDataReceived fuel p clientFd data
  = Some (Returned (length (pipeline commands))
            (setClientBuffer (fst (run_commands p clientFd commands))
                             clientFd tail)
            (snd (run_commands p clientFd commands))).
Proof.
  intros Hbuf Hnul Hmagic Htail Hmax Hfuel.
  rewrite decoded_buffer, Hbuf.
  assert (Hhb : filterHeartbeat (pipeline commands ++ tail)
                = pipeline commands ++ tail).
  { destruct commands as [|args rest].
    - cbn [pipeline map concat app]. rewrite filterHeartbeat_unfold.
      unfold bytes_eqb. rewrite (bool_decide_eq_false_2 _ Hmagic).
      reflexivity.
    - unfold pipeline. cbn [map concat].
      destruct (formatArray_head args) as [r ->]. reflexivity. }
  rewrite Hhb, (filterNullBytes_id _ Hnul).
  rewrite (commandLoop_pipeline commands tail clientFd Htail p fuel 0 []
             Hfuel Hmax).
  reflexivity.
Qed.

Lemma pipelined_commands_run_in_order_witness :
  onClientDataReceived 3 PureRedisProtocol.create 5
    (pipeline [map bytes_of_string ["SET"; "k"; "v"];
               map bytes_of_string ["GET"; "k"]]
     ++ Samples.lines ["*2"; "$3"])
  = Some (Returned 47
            {| m_clientBuffers := {[5%Z := Samples.lines ["*2"; "$3"]]};
               m_stringData :=
                 {[bytes_of_string "k" := bytes_of_string "v"]} |}
            [(5%Z, Samples.lines ["+OK"]);
             (5%Z, Samples.lines ["$1"; "v"])]).
Proof.
  refine (pipelined_commands_run_in_order PureRedisProtocol.create 5 _
            [map bytes_of_string ["SET"; "k"; "v"];
             map bytes_of_string ["GET"; "k"]]
            (Samples.lines ["*2"; "$3"]) 3 _ _ _ _ _ _).
  - reflexivity.
  - vm_compute. repeat constructor; discriminate.
  - vm_compute. discriminate.
  - vm_compute. reflexivity.
  - vm_compute. discriminate.
  - simpl. lia.
Defined.

(** X18: leading heartbeats, however many, and then every NUL byte are
    taken out before anything is decoded: when the stored buffer plus the
    input is [n] heartbeat groups [FA FB FC FD] followed by [rest], the
    loop runs on [rest] without its NUL bytes. A heartbeat that is not at
    the front stays. *)
Theorem received_bytes_are_filtered (fuel : nat) (p : PureRedisProtocol.t)
    (clientFd : Z) (data rest : bytes) (n : nat) :
  default [] (m_clientBuffers p !! clientFd) ++ data
  = concat (repeat [250; 251; 252; 253]%Z n) ++ rest ->
  firstn 4 rest <> [250; 251; 252; 253]%Z ->
  onClientDataReceived fuel p clientFd data
  = commandLoop fuel p clientFd (filterNullBytes rest) 0 []
  /\ Forall (fun c => c <> 0%Z) (filterNullBytes rest).
Proof.
  intros Hbuf Hrest. split; [|apply filterNullBytes_clean].
  rewrite decoded_buffer, Hbuf. f_equal. f_equal.
  clear Hbuf. induction n as [|n IH].
  - cbn [repeat concat app]. rewrite filterHeartbeat_unfold.
    unfold bytes_eqb. rewrite (bool_decide_eq_false_2 _ Hrest). reflexivity.
  - cbn [repeat concat app]. exact IH.
Qed.

Lemma received_bytes_are_filtered_witness :
  onClientDataReceived 2 PureRedisProtocol.create 5
    ([250; 251; 252; 253; 250; 251; 252; 253]%Z
     ++ [42; 0; 49; 13; 10; 250; 251; 252; 253]%Z)
  = commandLoop 2 PureRedisProtocol.create 5
      [42; 49; 13; 10; 250; 251; 252; 253]%Z 0 [].
Proof.
  refine (proj1 (received_bytes_are_filtered 2 PureRedisProtocol.create 5 _
                   [42; 0; 49; 13; 10; 250; 251; 252; 253]%Z 2 _ _)).
  - reflexivity.
  - vm_compute. discriminate.
Defined.

(** ** What the decoder reports *)

Lemma starts_with_length (needle s : bytes) :
  starts_with needle s = true -> length needle <= length s.
Proof.
  revert s. induction needle as [|n ns IH]; intros s H; [simpl; lia|].
  destruct s as [|c cs]; [discriminate|]. cbn [starts_with] in H.
  apply andb_true_iff in H. destruct H as [_ H]. apply IH in H.
  cbn [length]. lia.
Qed.

Lemma find_here_bound (needle s : bytes) (idx k : nat) :
  find_here needle s idx = Some k -> k + length needle <= idx + length s.
Proof.
  revert idx. induction s as [|c s IH]; intros idx H; cbn [find_here] in H.
  - destruct (starts_with needle []) eqn:E; [|discriminate].
    apply starts_with_length in E. injection H as <-. lia.
  - destruct (starts_with needle (c :: s)) eqn:E.
    + apply starts_with_length in E. injection H as <-. lia.
    + apply IH in H. cbn [length]. lia.
Qed.

Lemma find_bound (needle s : bytes) (from k : nat) :
  find needle from s = Some k -> k + length needle <= length s.
Proof.
  unfold find. destruct (from <=? length s) eqn:E; [|discriminate].
  apply Nat.leb_le in E. intros H. apply find_here_bound in H.
  rewrite length_skipn in H. lia.
Qed.

Lemma decode_bulks_bound (n : nat) (buf : bytes) :
  forall pos out out' consumed,
    pos <= length buf ->
    decode_bulks n buf pos out = Decoded out' consumed ->
    consumed <= length buf.
Proof.
  induction n as [|n IH]; intros pos out out' consumed Hpos H;
    cbn [decode_bulks] in H.
  - injection H as _ <-. exact Hpos.
  - destruct (length buf <=? pos + 1); [discriminate|].
    destruct (negb (nth pos buf 0 =? 36)%Z); [discriminate|].
    destruct (find CRLF (pos + 1) buf) as [le|]; [|discriminate].
    destruct (stoll _) as [len|e]; [|discriminate].
    destruct (_ >? Z.of_nat (length buf))%Z eqn:E; [discriminate|].
    rewrite Z.gtb_ltb in E. apply Z.ltb_ge in E.
    apply IH in H; [exact H | lia].
Qed.

(** X19: a decoded command never claims more bytes than the buffer holds:
    the [consumed] that [resp_decode] reports with success, and so what
    [isCompleteRedisCommand] returns, is at most the size of the buffer,
    whatever the lengths written in the message. *)
Theorem consumed_is_within_the_buffer (buf : bytes) :
  (forall out consumed,
     resp_decode buf = Decoded out consumed -> consumed <= length buf)
  /\ (forall n, isCompleteRedisCommand buf = inr n -> n <= length buf).
Proof.
  assert (H : forall out consumed,
             resp_decode buf = Decoded out consumed -> consumed <= length buf).
  { intros out consumed. unfold resp_decode.
    destruct buf as [|c r]; [discriminate|].
    destruct (negb (c =? 42)%Z); [discriminate|].
    destruct (find CRLF 1 (c :: r)) as [le|] eqn:Ef; [|discriminate].
    apply find_bound in Ef. cbn [length CRLF] in Ef.
    destruct (stoll _) as [count|e]; [|discriminate].
    apply decode_bulks_bound. cbn [length]. lia. }
  split; [exact H|].
  intros n. unfold isCompleteRedisCommand.
  destruct (resp_decode buf) as [out c| |e]; try discriminate.
  - intros Hn. injection Hn as <-. exact (H _ _ eq_refl).
  - intros Hn. injection Hn as <-. lia.
Qed.

(** X20: the receive loop does not always end. When [resp_decode] reports
    success with [consumed] = 0, which a negative bulk length can bring
    about, nothing is erased, the same command is decoded and applied
    again, and no number of turns ends the loop. *)
Theorem zero_consumed_never_ends (buffer : bytes) (args : list bytes) :
  resp_decode buffer = Decoded args 0 ->
  forall fuel p clientFd totalProcessed sent,
    commandLoop fuel p clientFd buffer totalProcessed sent = None.
Proof.
  intros H fuel.
  induction fuel as [|f IH]; intros p clientFd totalProcessed sent;
    [reflexivity|].
  cbn [commandLoop]. rewrite H, drop_0.
  destruct args as [|a r]; [apply IH|].
  destruct (executeRedisCommand p (a :: r)) as [response p1]. apply IH.
Qed.

Lemma zero_consumed_never_ends_witness :
  commandLoop 1000 PureRedisProtocol.create 5 Samples.rewinding_message 0 []
  = None.
Proof.
  refine (zero_consumed_never_ends Samples.rewinding_message [[88; 88]%Z] _
            1000 PureRedisProtocol.create 5 0 []).
  vm_compute. reflexivity.
Defined.

Lemma consumed_is_within_the_buffer_witness :
  0 <= length Samples.rewinding_message.
Proof.
  refine (proj1 (consumed_is_within_the_buffer Samples.rewinding_message)
            [[88; 88]%Z] 0 _).
  vm_compute. reflexivity.
Defined.

(** ** NUL bytes *)

Lemma decode_bulks_clean (n : nat) (buf : bytes) :
  Forall (fun c => c <> 0%Z) buf ->
  forall pos out out' consumed,
    Forall (Forall (fun c => c <> 0%Z)) out ->
    decode_bulks n buf pos out = Decoded out' consumed ->
    Forall (Forall (fun c => c <> 0%Z)) out'.
Proof.
  intros Hbuf.
  induction n as [|n IH]; intros pos out out' consumed Hout H;
    cbn [decode_bulks] in H.
  - injection H as <- _. exact Hout.
  - destruct (length buf <=? pos + 1); [discriminate|].
    destruct (negb (nth pos buf 0 =? 36)%Z); [discriminate|].
    destruct (find CRLF (pos + 1) buf) as [le|]; [|discriminate].
    destruct (stoll _) as [len|e]; [|discriminate].
    destruct (_ >? Z.of_nat (length buf))%Z; [discriminate|].
    apply IH in H; [exact H|].
    apply Forall_app. split; [exact Hout|].
    constructor; [|constructor].
    unfold substr. apply Forall_take, Forall_drop, Hbuf.
Qed.

Lemma resp_decode_clean (buf : bytes) (args : list bytes) (consumed : nat) :
  Forall (fun c => c <> 0%Z) buf ->
  resp_decode buf = Decoded args consumed ->
  Forall (Forall (fun c => c <> 0%Z)) args.
Proof.
  intros Hbuf. unfold resp_decode.
  destruct buf as [|c r]; [discriminate|].
  destruct (negb (c =? 42)%Z); [discriminate|].
  destruct (find CRLF 1 (c :: r)) as [le|]; [|discriminate].
  destruct (stoll _) as [count|e]; [|discriminate].
  apply decode_bulks_clean; [exact Hbuf | constructor].
Qed.

Lemma nth_clean (args : list bytes) (i : nat) :
  Forall (Forall (fun c => c <> 0%Z)) args ->
  Forall (fun c => c <> 0%Z) (nth i args []).
Proof.
  intros H. revert i. induction H as [|a args Ha _ IH]; intros [|i];
    cbn [nth]; auto.
Qed.

Lemma erase_all_clean (P : bytes -> bytes -> Prop) (keys : list bytes) :
  forall m d, map_Forall P m -> map_Forall P (fst (erase_all keys m d)).
Proof.
  induction keys as [|k keys IH]; intros m d Hm; cbn [erase_all];
    [exact Hm|].
  destruct (m !! k); [apply IH, map_Forall_delete, Hm | apply IH, Hm].
Qed.

Lemma executeRedisCommand_clean (p : PureRedisProtocol.t) (args : list bytes) :
  let clean := fun k v : bytes =>
    Forall (fun c => c <> 0%Z) k /\ Forall (fun c => c <> 0%Z) v in
  map_Forall clean (m_stringData p) ->
  Forall (Forall (fun c => c <> 0%Z)) args ->
  map_Forall clean (m_stringData (snd (executeRedisCommand p args))).
Proof.
  intros clean Hp Hargs. unfold executeRedisCommand.
  set (cmd := map toupper (nth 0 args [])).
  destruct (bytes_eqb cmd (bytes_of_string "COMMAND")); [exact Hp|].
  destruct (bytes_eqb cmd (bytes_of_string "PING")).
  { destruct (length args =? 1); [exact Hp|].
    destruct (length args =? 2); exact Hp. }
  destruct (bytes_eqb cmd (bytes_of_string "SET") && (length args =? 3)).
  { cbn [snd m_stringData setStringData].
    apply map_Forall_insert_2; [|exact Hp].
    split; apply nth_clean, Hargs. }
  destruct (bytes_eqb cmd (bytes_of_string "GET") && (length args =? 2)).
  { destruct (m_stringData p !! nth 1 args []); exact Hp. }
  destruct (bytes_eqb cmd (bytes_of_string "DEL") && (2 <=? length args)).
  { pose proof (erase_all_clean clean (skipn 1 args) (m_stringData p) 0 Hp)
      as He.
    destruct (erase_all (skipn 1 args) (m_stringData p) 0). exact He. }
  destruct (bytes_eqb cmd (bytes_of_string "KEYS") && (length args =? 2));
    exact Hp.
Qed.

Lemma commandLoop_clean (fuel : nat) (clientFd : Z) :
  let clean := fun k v : bytes =>
    Forall (fun c => c <> 0%Z) k /\ Forall (fun c => c <> 0%Z) v in
  forall p buffer totalProcessed sent r,
    Forall (fun c => c <> 0%Z) buffer ->
    map_Forall clean (m_stringData p) ->
    commandLoop fuel p clientFd buffer totalProcessed sent = Some r ->
    map_Forall clean (m_stringData (received_instance r)).
Proof.
  intros clean.
  induction fuel as [|f IH]; intros p buffer tot sent r Hbuf Hp H;
    [discriminate|].
  cbn [commandLoop] in H.
  destruct (resp_decode buffer) as [args consumed| |e] eqn:E.
  - pose proof (resp_decode_clean _ _ _ Hbuf E) as Hargs.
    destruct args as [|a rest].
    + apply IH in H; [exact H | apply Forall_drop, Hbuf | exact Hp].
    + pose proof (executeRedisCommand_clean p (a :: rest) Hp Hargs) as Hc.
      destruct (executeRedisCommand p (a :: rest)) as [response p1].
      apply IH in H; [exact H | apply Forall_drop, Hbuf | exact Hc].
  - injection H as <-. exact Hp.
  - injection H as <-. exact Hp.
Qed.

(** X21: no NUL byte ever reaches the store. If no key and no value of
    the store holds a NUL byte before [onClientDataReceived], none does
    afterwards, however the call ends and whatever was received: the NUL
    bytes are taken out of the whole buffer, message framing included,
    before a command is decoded, so a value with a NUL byte in it is never
    stored as it was sent. *)
Theorem store_never_holds_a_NUL (fuel : nat) (p : PureRedisProtocol.t)
    (clientFd : Z) (data : bytes) (r : received) :
  let clean := fun k v : bytes =>
    Forall (fun c => c <> 0%Z) k /\ Forall (fun c => c <> 0%Z) v in
  map_Forall clean (m_stringData p) ->
  onClientDataReceived fuel p clientFd data = Some r ->
  map_Forall clean (m_stringData (received_instance r)).
Proof.
  intros clean Hp H. rewrite decoded_buffer in H.
  exact (commandLoop_clean fuel clientFd p _ 0 [] r
           (filterNullBytes_clean _) Hp H).
Qed.

Lemma store_never_holds_a_NUL_witness :
  m_stringData
    (received_instance
       (Returned 29
          {| m_clientBuffers := {[5%Z := []]};
             m_stringData :=
               {[bytes_of_string "k" := [97; 98; 13]%Z]} |}
          [(5%Z, Samples.lines ["+OK"])]))
  !! bytes_of_string "k" = Some [97; 98; 13]%Z
  /\ map_Forall
       (fun k v : bytes =>
          Forall (fun c => c <> 0%Z) k /\ Forall (fun c => c <> 0%Z) v)
       (m_stringData
          (received_instance
             (Returned 29
                {| m_clientBuffers := {[5%Z := []]};
                   m_stringData :=
                     {[bytes_of_string "k" := [97; 98; 13]%Z]} |}
                [(5%Z, Samples.lines ["+OK"])]))).
Proof.
  split; [reflexivity|].
  refine (store_never_holds_a_NUL 2 PureRedisProtocol.create 5
            (Samples.lines ["*3"; "$3"; "SET"; "$1"; "k"; "$3"]
             ++ [97; 0; 98]%Z ++ CRLF ++ [10]%Z) _ _ _).
  - apply map_Forall_empty.
  - vm_compute. reflexivity.
Defined.

(** ** Inline commands *)

Lemma parse_chars_word (w rest : bytes) (args : list bytes) (cur : bytes) :
  Forall (fun c => c <> 32%Z /\ c <> 34%Z /\ c <> 39%Z) w ->
  parse_chars (w ++ rest) args cur false 0%Z
  = parse_chars rest args (cur ++ w) false 0%Z.
Proof.
  intros H. revert cur. induction H as [|c w (H1 & H2 & H3) _ IH]; intros cur.
  - rewrite app_nil_r. reflexivity.
  - cbn [app parse_chars].
    apply Z.eqb_neq in H1, H2, H3. rewrite H1, H2, H3. cbn [andb orb].
    rewrite IH, <- app_assoc. reflexivity.
Qed.

Lemma parse_chars_quoted (q rest : bytes) (args : list bytes) (cur : bytes) :
  Forall (fun c => c <> 34%Z) q ->
  parse_chars (q ++ rest) args cur true 34%Z
  = parse_chars rest args (cur ++ q) true 34%Z.
Proof.
  intros H. revert cur. induction H as [|c q Hc _ IH]; intros cur.
  - rewrite app_nil_r. reflexivity.
  - cbn [app parse_chars]. cbn [negb andb].
    rewrite andb_false_r.
    apply Z.eqb_neq in Hc. rewrite Hc.
    change (34 =? 0)%Z with false. cbn [orb].
    rewrite andb_false_r.
    rewrite IH, <- app_assoc. reflexivity.
Qed.

Lemma parse_chars_words (words : list bytes) :
  Forall (fun w => w <> []
                   /\ Forall (fun c => c <> 32%Z /\ c <> 34%Z /\ c <> 39%Z) w)
         words ->
  forall args tail,
    parse_chars (join_words words ++ tail) args [] false 0%Z
    = match words with
      | [] => parse_chars tail args [] false 0%Z
      | _ :: _ =>
          parse_chars tail (args ++ List.removelast words) (List.last words []) false 0%Z
      end.
Proof.
  induction 1 as [|w words (Hne & Hw) Hrest IH]; intros args tail;
    [reflexivity|].
  destruct words as [|w' words'].
  - cbn [join_words List.removelast List.last]. rewrite parse_chars_word by exact Hw.
    rewrite app_nil_r. reflexivity.
  - change (join_words (w :: w' :: words'))
      with (w ++ [32%Z] ++ join_words (w' :: words')).
    rewrite <- !app_assoc. rewrite parse_chars_word by exact Hw.
    cbn [app parse_chars Z.eqb Pos.eqb negb andb].
    destruct w as [|c w]; [contradiction|]. cbn [app].
    rewrite IH.
    change (List.removelast ((c :: w) :: w' :: words'))
      with ((c :: w) :: List.removelast (w' :: words')).
    change (List.last ((c :: w) :: w' :: words') [])
      with (List.last (w' :: words') []).
    rewrite <- app_assoc. reflexivity.
Qed.

(** X22: [parseRedisCommand] splits a line at spaces and takes a quoted
    stretch as part of one argument. Words without space or quote, joined
    by single spaces, come back as they were; and when a double-quoted
    stretch follows them, it comes back as one more argument with its
    spaces and single quotes kept and the double quotes gone. *)
Theorem parseRedisCommand_words_and_quotes (words : list bytes) (q : bytes) :
  Forall (fun w => w <> []
                   /\ Forall (fun c => c <> 32%Z /\ c <> 34%Z /\ c <> 39%Z) w)
         words ->
  q <> [] -> Forall (fun c => c <> 34%Z) q ->
  parseRedisCommand (join_words words) = words
  /\ parseRedisCommand (join_words words ++ [32; 34]%Z ++ q ++ [34]%Z)
     = words ++ [q].
Proof.
  intros Hwords Hq Hquote. unfold parseRedisCommand.
  assert (Hlast : forall (l : list bytes), l <> [] ->
            List.removelast l ++ [List.last l []] = l).
  { intros l Hl. symmetry. apply app_removelast_last. exact Hl. }
  assert (Hnonempty : forall (w : bytes) ws,
            In (List.last (w :: ws) []) (w :: ws)).
  { intros w ws. revert w. induction ws as [|w' ws IH]; intros w;
      [left; reflexivity|].
    right. apply (IH w'). }
  split.
  - rewrite <- (app_nil_r (join_words words)).
    rewrite (parse_chars_words words Hwords [] []).
    destruct words as [|w ws]; [reflexivity|].
    cbn [parse_chars app].
    destruct (List.last (w :: ws) []) eqn:El.
    + exfalso. rewrite Forall_forall in Hwords.
      pose proof (Hnonempty w ws) as Hin. rewrite El in Hin.
      apply list_elem_of_In in Hin.
      destruct (Hwords _ Hin) as [Hne _]. contradiction.
    + rewrite <- El. apply Hlast. discriminate.
  - rewrite (parse_chars_words words Hwords [] ([32; 34]%Z ++ q ++ [34]%Z)).
    assert (Hq' : forall args,
              parse_chars (q ++ [34%Z]) args [] true 34%Z = args ++ [q]).
    { intros args. rewrite parse_chars_quoted by exact Hquote.
      cbn [app parse_chars Z.eqb Pos.eqb negb andb orb].
      destruct q; [contradiction | reflexivity]. }
    destruct words as [|w ws].
    + cbn [app parse_chars Z.eqb Pos.eqb negb andb orb]. apply Hq'.
    + cbn [app parse_chars Z.eqb Pos.eqb negb andb orb].
      destruct (List.last (w :: ws) []) eqn:El.
      * exfalso. rewrite Forall_forall in Hwords.
        pose proof (Hnonempty w ws) as Hin. rewrite El in Hin.
        apply list_elem_of_In in Hin.
        destruct (Hwords _ Hin) as [Hne _]. contradiction.
      * cbn [app parse_chars Z.eqb Pos.eqb negb andb orb].
        rewrite Hq', <- El. cbn [app]. rewrite Hlast by discriminate.
        reflexivity.
Qed.

Lemma parseRedisCommand_words_and_quotes_witness :
  parseRedisCommand (bytes_of_string "SET greeting" ++ [32; 34]%Z
                     ++ bytes_of_string "it's  there" ++ [34]%Z)
  = map bytes_of_string ["SET"; "greeting"; "it's  there"].
Proof.
  refine (proj2 (parseRedisCommand_words_and_quotes
                   (map bytes_of_string ["SET"; "greeting"])
                   (bytes_of_string "it's  there") _ _ _)).
  - repeat constructor; vm_compute; discriminate.
  - discriminate.
  - repeat constructor; vm_compute; discriminate.
Defined.

(** ** Several connections *)








(** ** Connections that go away *)



(** X25: [handleClose] forgets a connection once. For a descriptor in the
    client table it removes the client entry, the send queue and the
    multiplexer registration and records one close; a second call, or a
    call for a descriptor that is not in the table, changes nothing. *)
Theorem handleClose_closes_once (s : TcpServer.t) (fd : Z) :
  (is_Some (m_clients s !! fd) ->
   m_clients (handleClose s fd) !! fd = None
   /\ m_sendBuffers (handleClose s fd) !! fd = None
   /\ m_io (handleClose s fd) !! fd = None
   /\ closed (handleClose s fd) = closed s ++ [fd])
  /\ (m_clients s !! fd = None -> handleClose s fd = s)
  /\ handleClose (handleClose s fd) fd = handleClose s fd.
Proof.
  assert (Hnone : forall s0, m_clients s0 !! fd = None -> handleClose s0 fd = s0).
  { intros s0 H. unfold handleClose. rewrite H. reflexivity. }
  assert (Hsome : is_Some (m_clients s !! fd) ->
            m_clients (handleClose s fd) !! fd = None
            /\ m_sendBuffers (handleClose s fd) !! fd = None
            /\ m_io (handleClose s fd) !! fd = None
            /\ closed (handleClose s fd) = closed s ++ [fd]).
  { intros [c Hc]. unfold handleClose. rewrite Hc.
    cbn [m_clients m_sendBuffers m_io closed].
    rewrite !lookup_delete_eq. repeat split; reflexivity. }
  split; [exact Hsome|]. split; [apply Hnone|].
  destruct (m_clients s !! fd) as [c|] eqn:Hc.
  - apply Hnone. apply Hsome. eauto.
  - rewrite (Hnone s Hc). apply Hnone, Hc.
Qed.

Lemma handleClose_closes_once_witness :
  closed (handleClose Samples.two_connections 7)
  = closed Samples.two_connections ++ [7%Z].
Proof.
  refine (proj2 (proj2 (proj2 (proj1 (handleClose_closes_once
                   Samples.two_connections 7) _)))).
  vm_compute. eexists. reflexivity.
Defined.

(** X26: [sendData] never looks at the client table. For a descriptor that
    is not a client (never accepted, or closed before) and has nothing
    queued, the data is queued and handed to [send] all the same: when the
    kernel takes it whole, it is on the wire of that descriptor. *)
Theorem sendData_ignores_the_client_table (kernel : nat -> send_result)
    (s : TcpServer.t) (fd : Z) (data : bytes) (n : nat) :
  m_clients s !! fd = None -> queue s fd = [] -> data <> [] ->
  kernel (send_calls s) = Sent n -> length data <= n ->
  wire (sendData kernel s fd data) fd = wire s fd ++ data
  /\ m_clients (sendData kernel s fd data) !! fd = None.
Proof.
  intros Hc Hq Hdata Hk Hn. unfold sendData.
  replace (length data =? 0) with false
    by (symmetry; apply Nat.eqb_neq; destruct data; [contradiction | discriminate]).
  rewrite Hq. cbn [app].
  assert (Hflush :
    flushSendBuffer kernel (setQueue s fd [data]) fd
    = modifyFd
        {| m_clients := m_clients s;
           m_sendBuffers := <[fd := []]> (<[fd := [data]]> (m_sendBuffers s));
           m_io := m_io s;
           written := <[fd := wire s fd ++ ([] ++ data)]> (written s);
           send_calls := S (send_calls s); closed := closed s;
           faults := faults s |} fd READ).
  { unfold flushSendBuffer. cbn [setQueue m_sendBuffers send_calls].
    rewrite lookup_insert_eq. cbn [drain]. rewrite Hk.
    replace (n <? length data) with false
      by (symmetry; apply Nat.ltb_ge; exact Hn).
    reflexivity. }
  rewrite Hflush. clear Hflush.
  match goal with
  | |- context [setQueue ?r fd (queue ?r fd)] => set (s2 := r)
  end.
  assert (Hq2 : queue s2 fd = []).
  { unfold queue, s2. cbn [modifyFd m_sendBuffers]. rewrite lookup_insert_eq.
    reflexivity. }
  rewrite Hq2, queue_setQueue.
  unfold wire, s2. cbn [modifyFd setQueue m_clients written].
  rewrite lookup_insert_eq. cbn [default from_option app]. unfold id.
  split; [reflexivity | exact Hc].
Qed.

Lemma sendData_ignores_the_client_table_witness :
  wire (sendData (fun _ => Sent 3) Samples.two_connections 11 [1; 2; 3]%Z) 11
  = wire Samples.two_connections 11 ++ [1; 2; 3]%Z.
Proof.
  refine (proj1 (sendData_ignores_the_client_table (fun _ => Sent 3)
                   Samples.two_connections 11 [1; 2; 3]%Z 3 _ _ _ _ _)).
  - reflexivity.
  - reflexivity.
  - discriminate.
  - reflexivity.
  - simpl. lia.
Defined.

(** ** Heartbeats *)

Lemma skip_heartbeats_spec (fuel : nat) (data : bytes) :
  forall processed,
    processed <= length data -> length data - processed <= 4 * fuel ->
    skip_heartbeats fuel data processed <= length data
    /\ skipn (skip_heartbeats fuel data processed) data
       = filterHeartbeat (skipn processed data).
Proof.
  induction fuel as [|f IH]; intros processed Hp Hfuel; cbn [skip_heartbeats].
  - split; [exact Hp|].
    replace processed with (length data) by lia.
    rewrite drop_all. reflexivity.
  - rewrite (filterHeartbeat_unfold (skipn processed data)).
    unfold bytes_eqb, substr.
    destruct (processed + 4 <=? length data) eqn:E.
    + apply Nat.leb_le in E.
      destruct (bool_decide (firstn 4 (skipn processed data)
                             = [250; 251; 252; 253]%Z)).
      * rewrite drop_drop. apply IH; lia.
      * split; [exact Hp | reflexivity].
    + apply Nat.leb_gt in E.
      rewrite bool_decide_eq_false_2; [split; [exact Hp | reflexivity]|].
      intros H. apply (f_equal (@length Z)) in H.
      rewrite length_take, length_skipn in H. cbn [length] in H. lia.
Qed.

Lemma handleRead_business (data : bytes) :
  data <> [] ->
  handleRead true (Received data)
  = ReadActive (match filterHeartbeat data with
                | [] => None
                | c :: rest => Some (c :: rest)
                end).
Proof.
  intros Hdata. unfold handleRead.
  replace (length data =? 0) with false
    by (symmetry; apply Nat.eqb_neq; destruct data; [contradiction | discriminate]).
  destruct (skip_heartbeats_spec (length data) data 0 ltac:(lia) ltac:(lia))
    as [Hle Hskip].
  rewrite drop_0 in Hskip.
  destruct (skip_heartbeats (length data) data 0 <? length data) eqn:E.
  - apply Nat.ltb_lt in E. rewrite Hskip.
    destruct (filterHeartbeat data) eqn:Ef; [|reflexivity].
    apply (f_equal (@length Z)) in Hskip. rewrite length_skipn in Hskip.
    cbn [length] in Hskip. lia.
  - apply Nat.ltb_ge in E.
    rewrite <- Hskip, drop_ge by lia. reflexivity.
Qed.

(** X27: [handleRead] strips the heartbeats at the front of a chunk as
    [PureRedisProtocol::filterHeartbeat] does, and what is left, if
    anything, is the message for the application; a chunk made of
    heartbeats only, as [sendHeartbeat] queues them ([FA FB FC FD]),
    refreshes the connection and gives no message. *)
Theorem handleRead_strips_heartbeats (data : bytes) :
  data <> [] ->
  handleRead true (Received data)
  = ReadActive (match filterHeartbeat data with
                | [] => None
                | c :: rest => Some (c :: rest)
                end)
  /\ forall n,
       handleRead true
         (Received (concat (repeat [250; 251; 252; 253]%Z (S n))))
       = ReadActive None.
Proof.
  intros Hdata. split; [apply handleRead_business, Hdata|].
  intros n. rewrite handleRead_business by discriminate.
  replace (filterHeartbeat (concat (repeat [250; 251; 252; 253]%Z (S n))))
    with (@nil Z); [reflexivity|].
  induction n as [|n IH]; [reflexivity|]. exact IH.
Qed.

Lemma handleRead_strips_heartbeats_witness :
  handleRead true (Received [250; 251; 252; 253; 250; 251; 252; 253; 80]%Z)
  = ReadActive (Some [80]%Z).
Proof.
  refine (proj1 (handleRead_strips_heartbeats
                   [250; 251; 252; 253; 250; 251; 252; 253; 80]%Z _)).
  discriminate.
Defined.

(** ** The handshake and the callbacks *)

(** X28: without a raw-frame callback no handshake can succeed. An
    instance in CONNECTING whose raw-frame callback is not set, as the
    constructor leaves it and as the instance registered with the router
    is configured, answers any first read, a well-formed upgrade request
    included, by going to CLOSED with the handshake error, consuming the
    whole input and sending nothing. *)
Theorem handshake_needs_the_raw_frame_callback (ws : WebSocketProtocol.t)
    (data : bytes) :
  state_ ws = CONNECTING -> rawFrameCallback_ ws = false ->
  onDataReceived ws data
  = (length data, setState ws CLOSED, call_error ws handshake_failed).
Proof.
  intros Hst Hraw. unfold onDataReceived. rewrite Hst.
  assert (H : handleHandshake ws data = (false, [])).
  { unfold handleHandshake. rewrite Hraw.
    repeat match goal with
           | |- context [if ?b then _ else _] => destruct b
           | |- context [match ?o with Some _ => _ | None => _ end] =>
               destruct o
           end; reflexivity. }
  rewrite H. reflexivity.
Qed.

Lemma handshake_needs_the_raw_frame_callback_witness :
  onDataReceived WebSocketProtocol.create
    (Samples.upgrade_first_read ++ Samples.upgrade_second_read)
  = (length (Samples.upgrade_first_read ++ Samples.upgrade_second_read),
     setState WebSocketProtocol.create CLOSED, []).
Proof.
  exact (handshake_needs_the_raw_frame_callback WebSocketProtocol.create
           (Samples.upgrade_first_read ++ Samples.upgrade_second_read)
           eq_refl eq_refl).
Defined.

(** ** The application registry *)

(** X29: registering and creating. A registration with an empty name or an
    empty creator is refused and changes nothing. An accepted one makes the
    name registered, makes [createApplication] under that name give what
    the new creator gives ([nullptr] when it returns none or throws),
    leaves every other name as it was, and adds one to the count unless
    the name was there already, in which case the old creator is
    replaced. A name that is not registered creates nothing. *)
Theorem registry_register_and_create (App Args : Type)
    (r : ApplicationRegistry.t App Args) (name : bytes)
    (creator : ApplicationRegistry.CreateFunc App Args) :
  let result := ApplicationRegistry.registerApplication r name creator in
  (name = [] \/ creator = None -> result = (false, r))
  /\ (forall f, name <> [] -> creator = Some f ->
        fst result = true
        /\ ApplicationRegistry.isApplicationRegistered (snd result) name = true
        /\ (forall args,
              ApplicationRegistry.createApplication (snd result) name args
              = match f args with
                | ApplicationRegistry.Created app => Some app
                | _ => None
                end)
        /\ (forall other args, other <> name ->
              ApplicationRegistry.createApplication (snd result) other args
              = ApplicationRegistry.createApplication r other args)
        /\ ApplicationRegistry.getApplicationCount (snd result)
           = if ApplicationRegistry.isApplicationRegistered r name
             then ApplicationRegistry.getApplicationCount r
             else S (ApplicationRegistry.getApplicationCount r))
  /\ (forall args,
        ApplicationRegistry.isApplicationRegistered r name = false ->
        ApplicationRegistry.createApplication r name args = None).
Proof.
  intros result. subst result. split; [|split].
  - intros [-> | ->]; [reflexivity|]. destruct name; reflexivity.
  - intros f Hname ->. destruct name as [|c name]; [contradiction|].
    cbn [ApplicationRegistry.registerApplication fst snd].
    unfold ApplicationRegistry.isApplicationRegistered,
      ApplicationRegistry.createApplication,
      ApplicationRegistry.getApplicationCount.
    cbn [ApplicationRegistry.m_creators].
    rewrite lookup_insert_eq. repeat split.
    + intros other args Ho. rewrite lookup_insert_ne by congruence.
      reflexivity.
    + rewrite map_size_insert.
      destruct (ApplicationRegistry.m_creators r !! (c :: name)); reflexivity.
  - intros args. unfold ApplicationRegistry.isApplicationRegistered,
      ApplicationRegistry.createApplication.
    destruct (ApplicationRegistry.m_creators r !! name);
      [discriminate | reflexivity].
Qed.

Lemma registry_register_and_create_witness :
  ApplicationRegistry.registerApplication
    ({| ApplicationRegistry.m_creators := ∅ |}
       : ApplicationRegistry.t nat unit) []
    (Some (fun _ => ApplicationRegistry.Thrown))
  = (false, {| ApplicationRegistry.m_creators := ∅ |}).
Proof.
  refine (proj1 (registry_register_and_create nat unit
                   {| ApplicationRegistry.m_creators := ∅ |} []
                   (Some (fun _ => ApplicationRegistry.Thrown))) _).
  left. reflexivity.
Defined.

Lemma bytes_leb_total (a b : bytes) :
  ApplicationRegistry.bytes_leb a b = true
  \/ ApplicationRegistry.bytes_leb b a = true.
Proof.
  revert b. induction a as [|x a IH]; intros b; [left; reflexivity|].
  destruct b as [|y b]; [right; reflexivity|].
  cbn [ApplicationRegistry.bytes_leb].
  destruct (x <? y)%Z eqn:E1; [left; reflexivity|].
  destruct (y <? x)%Z eqn:E2; [right; reflexivity|].
  apply IH.
Qed.

Lemma bytes_leb_trans (a b c : bytes) :
  ApplicationRegistry.bytes_leb a b = true ->
  ApplicationRegistry.bytes_leb b c = true ->
  ApplicationRegistry.bytes_leb a c = true.
Proof.
  revert b c. induction a as [|x a IH]; intros b c Hab Hbc; [reflexivity|].
  destruct b as [|y b]; [discriminate|].
  destruct c as [|z c]; [discriminate|].
  cbn [ApplicationRegistry.bytes_leb] in *.
  destruct (x <? y)%Z eqn:Exy; destruct (y <? z)%Z eqn:Eyz;
    destruct (y <? x)%Z eqn:Eyx; destruct (z <? y)%Z eqn:Ezy;
    try discriminate;
    repeat match goal with
           | H : (_ <? _)%Z = true |- _ => apply Z.ltb_lt in H
           | H : (_ <? _)%Z = false |- _ => apply Z.ltb_ge in H
           end;
    try (replace (x <? z)%Z with true by (symmetry; apply Z.ltb_lt; lia);
         reflexivity);
    try lia.
  assert (x = y) by lia. assert (y = z) by lia. subst y z.
  rewrite Z.ltb_irrefl. eapply IH; eassumption.
Qed.

(** X30: [getAvailableApplications] lists the registered names, each once,
    in the byte order of [std::string]: every name in the list is
    registered and every registered name is in it, an earlier name is never
    greater than a later one, and the list is as long as
    [getApplicationCount] says. *)
Theorem registry_listing_is_sorted (App Args : Type)
    (r : ApplicationRegistry.t App Args) :
  let names := ApplicationRegistry.getAvailableApplications r in
  StronglySorted ApplicationRegistry.bytes_le names
  /\ NoDup names
  /\ (forall name, name ∈ names
                   <-> ApplicationRegistry.isApplicationRegistered r name = true)
  /\ length names = ApplicationRegistry.getApplicationCount r.
Proof.
  intros names. subst names. unfold ApplicationRegistry.getAvailableApplications.
  set (keys := map fst (map_to_list (ApplicationRegistry.m_creators r))).
  assert (Hperm : merge_sort ApplicationRegistry.bytes_le keys ≡ₚ keys)
    by apply merge_sort_Permutation.
  split; [|split; [|split]].
  - apply StronglySorted_merge_sort.
    + intros a b c. apply bytes_leb_trans.
    + intros a b. apply bytes_leb_total.
  - rewrite Hperm. apply NoDup_fst_map_to_list.
  - intros name. rewrite Hperm. unfold keys,
      ApplicationRegistry.isApplicationRegistered. split.
    + intros Hin. apply list_elem_of_fmap in Hin.
      destruct Hin as ([k f] & -> & Hin).
      apply elem_of_map_to_list in Hin. cbn [fst]. rewrite Hin. reflexivity.
    + destruct (ApplicationRegistry.m_creators r !! name) as [f|] eqn:E;
        [|discriminate]. intros _.
      apply list_elem_of_fmap. exists (name, f).
      split; [reflexivity|]. apply elem_of_map_to_list. exact E.
  - rewrite Hperm. unfold keys. rewrite length_map.
    unfold ApplicationRegistry.getApplicationCount.
    apply length_map_to_list.
Qed.

(** ** UTF-16 input *)

(** Text whose bytes are each followed by a zero byte, as UTF-16LE writes
    ASCII, comes out of [convertDataToString] without the zero bytes. *)
Lemma convertDataToString_wide (text : bytes) :
  text <> [] -> Forall (fun c => c <> 0%Z) text ->
  WebSocketServer.convertDataToString (flat_map (fun c => [c; 0%Z]) text)
  = text.
Proof.
  intros Hne Hnz.
  assert (H : WebSocketServer.every_other_nonzero
                (flat_map (fun c => [c; 0%Z]) text) = text).
  { clear Hne. induction Hnz as [|x l Hx _ IH]; [reflexivity|].
    cbn [flat_map app WebSocketServer.every_other_nonzero].
    apply Z.eqb_neq in Hx. rewrite Hx. cbn [app]. f_equal. exact IH. }
  unfold WebSocketServer.convertDataToString.
  destruct text as [|c text]; [contradiction|].
  cbn [flat_map app length nth Nat.leb Z.eqb andb] in *. exact H.
Qed.

(** * Commands and malformed input, from the bytes received to the reply *)

(** Every reply of [executeRedisCommand] starts with a RESP type byte, so
    [sendDirectResponse] hands it to [send] for a positive descriptor. *)
Lemma reply_is_handed_to_send (p : PureRedisProtocol.t) (args : list bytes)
    (clientFd : Z) :
  (0 < clientFd)%Z ->
  sendDirectResponse clientFd (fst (executeRedisCommand p args))
  = [(clientFd, fst (executeRedisCommand p args))].
Proof.
  intros Hfd.
  assert (H : forall r : bytes,
            (exists c rest, r = c :: rest
                            /\ mem c [43; 45; 58; 36; 42]%Z = true) ->
            sendDirectResponse clientFd r = [(clientFd, r)]).
  { intros r (c & rest & -> & Hc). unfold sendDirectResponse. rewrite Hc.
    cbn [negb]. replace (clientFd >? 0)%Z with true; [reflexivity|].
    symmetry. apply Z.gtb_lt. exact Hfd. }
  apply H. unfold executeRedisCommand.
  repeat match goal with
         | |- context [if ?b then _ else _] => destruct b
         | |- context [match ?m !! ?k with _ => _ end] => destruct (m !! k)
         | |- context [let '(_, _) := ?e in _] => destruct e
         end; cbn [fst]; eexists _, _; split; reflexivity.
Qed.

(** One complete command, alone in the buffer: it is decoded and executed,
    its reply is sent, the buffer is left empty and the call returns. *)
Lemma one_command_received (p : PureRedisProtocol.t) (args : list bytes)
    (clientFd : Z) (fuel : nat) :
  args <> [] -> (0 < clientFd)%Z -> 1 < fuel ->
  default [] (m_clientBuffers p !! clientFd) = [] ->
  Forall (fun c => c <> 0%Z) (formatArray args) ->
  (Z.of_nat (length (formatArray args)) <= INT64_MAX)%Z ->
  onClientDataReceived fuel p clientFd (formatArray args)
  = Some (Returned (length (formatArray args))
            (setClientBuffer (snd (executeRedisCommand p args)) clientFd [])
            [(clientFd, fst (executeRedisCommand p args))]).
Proof.
  intros Hargs Hfd Hfuel Hbuf Hnul Hmax.
  rewrite decoded_buffer, Hbuf. cbn [app].
  destruct (formatArray_head args) as [r Hr].
  assert (Hhb : filterHeartbeat (formatArray args) = formatArray args)
    by (rewrite Hr; reflexivity).
  rewrite Hhb, (filterNullBytes_id _ Hnul).
  pose proof (commandLoop_pipeline [args] [] clientFd eq_refl p fuel 0 [])
    as Hp.
  unfold pipeline in Hp. cbn [map concat length] in Hp.
  rewrite !app_nil_r in Hp. rewrite Hp by assumption.
  cbn [run_commands app Nat.add]. unfold processRedisCommand.
  destruct args as [|name rest]; [contradiction|].
  pose proof (reply_is_handed_to_send p (name :: rest) clientFd Hfd) as Hsend.
  destruct (executeRedisCommand p (name :: rest)) as [response p1].
  cbn [fst snd] in *. rewrite Hsend, app_nil_r. reflexivity.
Qed.

(** C3 (as amended): the command surface is COMMAND, PING, SET k v, GET k,
    DEL k... and KEYS pat, matched on the upper-cased name, and each works
    on the string store: COMMAND answers the empty array; PING answers
    [+PONG], or its one argument as a bulk string, or an arity error; SET
    stores the value under the key and answers [+OK]; GET answers the
    stored value as a bulk string, or the null bulk, and changes nothing;
    DEL removes exactly the listed keys and answers how many entries went
    away; KEYS answers every key once and changes nothing. Every other
    command, and the last four with another number of arguments, is
    answered [-ERR unknown command '<CMD>'] and leaves the instance as it
    was, and no command of the surface gets that answer. Whatever the
    command, known or not, the call that received it returns with that one
    reply handed to [send] and an empty buffer for the next command: the
    engine has nothing that closes the connection. *)
Theorem C3_command_surface (p : PureRedisProtocol.t) (name : bytes)
    (rest : list bytes) :
  let args := name :: rest in
  let cmd := map toupper name in
  let reply := fst (executeRedisCommand p args) in
  let p' := snd (executeRedisCommand p args) in
  (command_surface cmd (length args) = false ->
   executeRedisCommand p args = (unknown_reply cmd, p))
  /\ (command_surface cmd (length args) = true -> reply <> unknown_reply cmd)
  /\ (cmd = bytes_of_string "COMMAND" ->
      executeRedisCommand p args = (formatArray [], p))
  /\ (cmd = bytes_of_string "PING" ->
      executeRedisCommand p args
      = (match rest with
         | [] => formatSimpleString (bytes_of_string "PONG")
         | [message] => formatBulkString message
         | _ :: _ :: _ =>
             formatError
               (bytes_of_string
                  "ERR wrong number of arguments for 'ping' command")
         end, p))
  /\ (forall k v,
        cmd = bytes_of_string "SET" -> rest = [k; v] ->
        executeRedisCommand p args
        = (formatSimpleString (bytes_of_string "OK"),
           {| m_clientBuffers := m_clientBuffers p;
              m_stringData := <[k := v]> (m_stringData p) |}))
  /\ (forall k,
        cmd = bytes_of_string "GET" -> rest = [k] ->
        executeRedisCommand p args
        = (match m_stringData p !! k with
           | Some v => formatBulkString v
           | None => formatNull
           end, p))
  /\ (cmd = bytes_of_string "DEL" -> rest <> [] ->
      reply = formatInteger (Z.of_nat (size (m_stringData p))
                             - Z.of_nat (size (m_stringData p')))
      /\ (forall k, m_stringData p' !! k
                    = if bool_decide (k ∈ rest) then None
                      else m_stringData p !! k)
      /\ m_clientBuffers p' = m_clientBuffers p)
  /\ (forall pattern,
        cmd = bytes_of_string "KEYS" -> rest = [pattern] ->
        exists l,
          executeRedisCommand p args = (formatArray l, p)
          /\ NoDup l
          /\ (forall k, k ∈ l <-> is_Some (m_stringData p !! k)))
  /\ (forall clientFd fuel,
        (0 < clientFd)%Z -> 1 < fuel ->
        default [] (m_clientBuffers p !! clientFd) = [] ->
        Forall (fun c => c <> 0%Z) (formatArray args) ->
        (Z.of_nat (length (formatArray args)) <= INT64_MAX)%Z ->
        onClientDataReceived fuel p clientFd (formatArray args)
        = Some (Returned (length (formatArray args))
                  (setClientBuffer p' clientFd []) [(clientFd, reply)])).
Proof.
  intros args cmd reply p'. subst args.
  destruct (command_surface_replies p name rest) as [Hout Hin].
  split; [exact Hout|]. split; [exact Hin|].
  split; [|split; [|split; [|split; [|split; [|split; [|]]]]]].
  - intros H. unfold executeRedisCommand. cbn [nth]. fold cmd.
    rewrite H. decide_names. reflexivity.
  - intros H. unfold executeRedisCommand. cbn [nth length]. fold cmd.
    rewrite H. decide_names. destruct rest as [|m [|m' rest']]; reflexivity.
  - intros k v H ->. exact (execute_SET p name k v H).
  - intros k H ->. rewrite (execute_GET p name k H).
    destruct (m_stringData p !! k); reflexivity.
  - intros H Hrest. destruct rest as [|k keys]; [contradiction|].
    subst reply p'. rewrite (execute_DEL p name k keys H).
    cbn [fst snd m_stringData m_clientBuffers setStringData].
    destruct (erase_all_spec (k :: keys) (m_stringData p) 0) as [H1 H2].
    split; [rewrite H2; f_equal; lia|]. split; [exact H1 | reflexivity].
  - intros pattern H ->.
    exists (map fst (map_to_list (m_stringData p))). split; [|split].
    + unfold executeRedisCommand. cbn [nth length]. fold cmd.
      rewrite H. decide_names. reflexivity.
    + apply NoDup_fst_map_to_list.
    + intros k. split.
      * intros Hk. apply list_elem_of_fmap in Hk.
        destruct Hk as ([k' v] & -> & Hk).
        apply elem_of_map_to_list in Hk. cbn [fst]. eauto.
      * intros [v Hv]. apply list_elem_of_fmap. exists (k, v).
        split; [reflexivity|]. apply elem_of_map_to_list. exact Hv.
  - intros clientFd fuel Hfd Hfuel Hbuf Hnul Hmax.
    apply one_command_received; try assumption. discriminate.
Qed.

Lemma C3_command_surface_witness :
  (command_surface (map toupper (bytes_of_string "lpush")) 3 = false
   /\ executeRedisCommand PureRedisProtocol.create
        (map bytes_of_string ["lpush"; "k"; "v"])
      = (unknown_reply (bytes_of_string "LPUSH"), PureRedisProtocol.create))
  /\ executeRedisCommand PureRedisProtocol.create
       (map bytes_of_string ["set"; "k"; "v"])
     = (formatSimpleString (bytes_of_string "OK"),
        {| m_clientBuffers := ∅;
           m_stringData :=
             <[bytes_of_string "k" := bytes_of_string "v"]> ∅ |})
  /\ onClientDataReceived 2 PureRedisProtocol.create 5
       (formatArray (map bytes_of_string ["lpush"; "k"; "v"]))
     = Some (Returned 29
               {| m_clientBuffers := {[5%Z := []]}; m_stringData := ∅ |}
               [(5%Z, unknown_reply (bytes_of_string "LPUSH"))]).
Proof.
  split; [split; [reflexivity|] | split].
  - exact (proj1 (C3_command_surface PureRedisProtocol.create
                    (bytes_of_string "lpush")
                    (map bytes_of_string ["k"; "v"])) eq_refl).
  - exact (proj1 (proj2 (proj2 (proj2 (proj2
             (C3_command_surface PureRedisProtocol.create
                (bytes_of_string "set") (map bytes_of_string ["k"; "v"]))))))
             (bytes_of_string "k") (bytes_of_string "v") eq_refl eq_refl).
  - etransitivity;
      [refine (proj2 (proj2 (proj2 (proj2 (proj2 (proj2 (proj2 (proj2
                 (C3_command_surface PureRedisProtocol.create
                    (bytes_of_string "lpush")
                    (map bytes_of_string ["k"; "v"])))))))))
                 5%Z 2 _ _ _ _ _)
      | vm_compute; reflexivity].
    + reflexivity.
    + lia.
    + reflexivity.
    + vm_compute. repeat constructor; discriminate.
    + vm_compute. discriminate.
Defined.

(** A buffer on which [resp_decode] throws: the exception leaves the loop
    of [onClientDataReceived] on the first turn, with the buffer stored
    and nothing sent. *)
Lemma unreadable_length_escapes (p : PureRedisProtocol.t) (clientFd : Z)
    (data buffer : bytes) (e : exception) (fuel : nat) :
  default [] (m_clientBuffers p !! clientFd) ++ data = 42%Z :: buffer ->
  Forall (fun c => c <> 0%Z) (42%Z :: buffer) ->
  resp_decode (42%Z :: buffer) = Raised e ->
  onClientDataReceived (S fuel) p clientFd data
  = Some (Escaped e (setClientBuffer p clientFd (42%Z :: buffer)) []).
Proof.
  intros Hbuf Hnul Hraise.
  rewrite decoded_buffer, Hbuf.
  change (filterHeartbeat (42%Z :: buffer)) with (42%Z :: buffer).
  rewrite (filterNullBytes_id _ Hnul).
  cbn [commandLoop]. rewrite Hraise. reflexivity.
Qed.

(** C5: a malformed length is not refused, and nothing closes the
    connection. A count after [*], or the length of the next bulk string
    after well-formed ones, in which [std::stoll] finds no number makes
    [resp_decode] leave by the exception of [std::stoll]; the exception
    leaves [isCompleteRedisCommand] and [onClientDataReceived] as well,
    which have no handler for it. A count that [std::stoll] reads as zero
    or negative is decoded as an empty command, and a count followed by
    other characters is read as the count. A negative bulk length is
    decoded too: [$-1] takes the rest of the buffer as the argument, and a
    length that brings [consumed] to 0 makes [onClientDataReceived] decode
    and apply the same command for ever. *)
Theorem C5_malformed_length_not_refused (bad rest : bytes) (e : exception) :
  Forall (fun c => c <> CR) bad -> stoll bad = Throws e ->
  resp_decode ([42%Z] ++ bad ++ CRLF ++ rest) = Raised e
  /\ isCompleteRedisCommand ([42%Z] ++ bad ++ CRLF ++ rest) = inl e
  /\ (forall (count : nat) (pre : list bytes),
        length pre < count -> (Z.of_nat count <= INT64_MAX)%Z ->
        (Z.of_nat (length ([42%Z] ++ to_string_nat count ++ CRLF ++ bulks pre
                           ++ [36%Z] ++ bad ++ CRLF ++ rest)) <= INT64_MAX)%Z ->
        resp_decode ([42%Z] ++ to_string_nat count ++ CRLF ++ bulks pre
                     ++ [36%Z] ++ bad ++ CRLF ++ rest)
        = Raised e)
  /\ (forall (p : PureRedisProtocol.t) (clientFd : Z) (data : bytes)
             (fuel : nat),
        default [] (m_clientBuffers p !! clientFd) ++ data
        = [42%Z] ++ bad ++ CRLF ++ rest ->
        Forall (fun c => c <> 0%Z) ([42%Z] ++ bad ++ CRLF ++ rest) ->
        onClientDataReceived (S fuel) p clientFd data
        = Some (Escaped e
                  (setClientBuffer p clientFd ([42%Z] ++ bad ++ CRLF ++ rest))
                  []))
  /\ (forall (fld : bytes) (count : Z),
        Forall (fun c => c <> CR) fld -> stoll fld = Value count ->
        (count <= 0)%Z ->
        resp_decode ([42%Z] ++ fld ++ CRLF ++ rest)
        = Decoded [] (length fld + 3))
  /\ resp_decode (Samples.lines ["*1x"; "$1"; "a"]) = Decoded [[97%Z]] 12
  /\ resp_decode (Samples.lines ["*1"; "$-1"] ++ [88%Z]) = Decoded [[88%Z]] 10
  /\ resp_decode Samples.rewinding_message = Decoded [[88; 88]%Z] 0
  /\ (forall fuel,
        onClientDataReceived fuel PureRedisProtocol.create 5
          Samples.rewinding_message
        = None).
Proof.
  intros Hcr Hbad.
  assert (Hraise : resp_decode ([42%Z] ++ bad ++ CRLF ++ rest) = Raised e).
  { rewrite resp_decode_count by exact Hcr. rewrite Hbad. reflexivity. }
  split; [exact Hraise|].
  split; [unfold isCompleteRedisCommand; rewrite Hraise; reflexivity|].
  split; [intros count pre Hpre Hcount Hmax;
          apply unreadable_bulk_length_raises; assumption|].
  split; [intros p clientFd data fuel Hbuf Hnul;
          apply unreadable_length_escapes; assumption|].
  split; [intros fld count; apply count_not_positive|].
  split; [vm_compute; reflexivity|].
  split; [vm_compute; reflexivity|].
  split; [vm_compute; reflexivity|].
  intros fuel. rewrite decoded_buffer.
  change (filterNullBytes
            (filterHeartbeat
               (default [] (m_clientBuffers PureRedisProtocol.create !! 5%Z)
                ++ Samples.rewinding_message)))
    with Samples.rewinding_message.
  apply commandLoop_may_not_end.
Qed.

Lemma C5_malformed_length_not_refused_witness :
  Forall (fun c => c <> CR) (bytes_of_string "abc")
  /\ stoll (bytes_of_string "abc") = Throws invalid_argument
  /\ onClientDataReceived 1 PureRedisProtocol.create 5 (Samples.lines ["*abc"])
     = Some (Escaped invalid_argument
               (setClientBuffer PureRedisProtocol.create 5
                  (Samples.lines ["*abc"])) []).
Proof.
  assert (H1 : Forall (fun c => c <> CR) (bytes_of_string "abc"))
    by (repeat constructor; discriminate).
  assert (H2 : stoll (bytes_of_string "abc") = Throws invalid_argument)
    by reflexivity.
  split; [exact H1 | split; [exact H2 |]].
  refine (proj1 (proj2 (proj2 (proj2
            (C5_malformed_length_not_refused (bytes_of_string "abc") []
               invalid_argument H1 H2))))
            PureRedisProtocol.create 5%Z (Samples.lines ["*abc"]) 0 _ _).
  - reflexivity.
  - vm_compute. repeat constructor; discriminate.
Defined.
